(** * The key-value persistence adapters of the backend, and their callers

    A shallow embedding of
    - [db/models/dynamodb/product.model.js] and [db/models/dynamodb/user.model.js]
      (the single-table adapters),
    - the parts of [controllers/auth.controller.js], [db/init.js], [app.js]
      and [utils/validators.js] that the properties below talk about.

    The adapters are asynchronous programs that await one store request
    after the other.  A program is embedded as a tree of requests
    ([Prog]): every node is one awaited call of the document client, and
    every such call is applied to the table in one step.  Running a program
    threads the table through the requests; an exception stops the program
    and keeps whatever the earlier requests have written. *)

From stdpp Require Import gmap strings list fin_maps pretty sorting.
From Stdlib Require Import ZArith Ascii String.

(** ** JavaScript values *)

Module Js.

(** The primitive values that travel through the adapters.  Numbers are
    the integral ones (stock counts); a property read that yields
    [undefined] is [None], and an object never stores an [undefined]
    property. *)
Inductive value : Type :=
| Null
| Bool (b : bool)
| Num (n : Z)
| Str (s : string).

#[global] Instance value_eq_dec : EqDecision value.
Proof. solve_decision. Defined.

(** A plain object: property name to value. *)
Abbreviation obj := (gmap string value).

(** [ToBoolean]. *)
Definition truthy (v : option value) : bool :=
  match v with
  | None => false
  | Some Null => false
  | Some (Bool b) => b
  | Some (Num n) => negb (n =? 0)%Z
  | Some (Str s) => negb (String.eqb s "")
  end.

(** [a || b]. *)
Definition or (a b : option value) : option value :=
  if truthy a then a else b.

(** [ToString], as a template literal applies it. *)
Definition to_str (v : option value) : string :=
  match v with
  | None => "undefined"
  | Some Null => "null"
  | Some (Bool true) => "true"
  | Some (Bool false) => "false"
  | Some (Num n) => pretty n
  | Some (Str s) => s
  end.

(** An object literal [{ k1: v1, ... }] whose property values may be
    [undefined]. *)
Definition literal (props : list (string * option value)) : obj :=
  list_to_map (omap (λ p, (λ v, (p.1, v)) <$> p.2) props).

(** The first defined property of that name in a literal. *)
Fixpoint assoc (k : string) (props : list (string * option value))
  : option value :=
  match props with
  | [] => None
  | (k', v) :: rest =>
      if String.eqb k' k
      then match v with Some x => Some x | None => assoc k rest end
      else assoc k rest
  end.

(** [Object.entries]. *)
Definition entries (o : obj) : list (string * value) := map_to_list o.

(** [const { k, ...rest } = o]: the rest object. *)
Definition without (k : string) (o : obj) : obj := delete k o.

End Js.

(** ** The document client *)

Module DynamoDb.
Import Js.

Abbreviation Item := (gmap string Js.value).
Abbreviation Key := (string * string)%type.
Abbreviation Table := (gmap (string * string) (gmap string Js.value)).

(** What a rejected promise carries: a JavaScript [Error] with its
    message, or a service error with its [code]. *)
Inductive Error : Type :=
| JsError (message : string)
| AwsError (code : string).

#[global] Instance Error_eq_dec : EqDecision Error.
Proof. solve_decision. Defined.

Definition ValidationException : Error := AwsError "ValidationException".
Definition TransactionCanceledException : Error :=
  AwsError "TransactionCanceledException".

(** The sort-key member of a [Key] parameter.  [user.model.js] passes the
    object [{ begins_with: "USER#" }] in one place. *)
Inductive SortKey : Type :=
| SkStr (sk : string)
| SkBeginsWith (beginsWith : string).

(** [ConditionExpression]: absent, or a conjunction of
    [attribute_not_exists(a)]. *)
Inductive Condition : Type :=
| Unconditional
| AttributeNotExists (attrs : list string).

Inductive TransactItem : Type :=
| TPut (it : Item) (c : Condition)
| TDelete (k : Key).

(** The requests the adapters issue; the index is the type of the data
    the resolved promise carries. *)
Inductive Request : Type → Type :=
| Get (pk : string) (sk : SortKey) : Request (option Item)
| Put (it : Item) : Request unit
| Update (k : Key) (sets : list (string * string)) (vals : obj)
    : Request Item
| Query (index : option string) (pk : string) (skPrefix : option string)
    : Request (list Item)
| Scan (pkPrefix skPrefix : string) (limit : nat) (start : option Key)
    : Request (list Item * option Key)
| TransactWrite (items : list TransactItem) : Request unit.

(** Three requests of the adapters leave the documented use of the
    client: the [get] with an object as sort key, the [query] on an
    index the table was not created with, and [update]s whose
    expression the service may refuse (reserved words, overlapping
    paths, key attributes).  The answers to these are the engine's.
    Every other request is answered from the table alone; a transport
    that fails is not part of the model. *)
Record Engine : Type := {
  get_begins_with : Table → string → string → Error + option Item;
  query_index : Table → string → string → Error + list Item;
  refuses_update : Key → list (string * string) → obj → bool;
}.

Definition key_of (it : Item) : option Key :=
  match it !! "pk", it !! "sk" with
  | Some (Str pk), Some (Str sk) => Some (pk, sk)
  | _, _ => None
  end.

Definition item_key (ti : TransactItem) : option Key :=
  match ti with
  | TPut it _ => key_of it
  | TDelete k => Some k
  end.

(** A condition is evaluated on the item stored under the key of the
    item being written. *)
Definition holds (c : Condition) (existing : option Item) : bool :=
  match c with
  | Unconditional => true
  | AttributeNotExists attrs =>
      match existing with
      | None => true
      | Some old => forallb (λ a, bool_decide (old !! a = None)) attrs
      end
  end.

Definition check (t : Table) (ti : TransactItem) : bool :=
  match ti with
  | TPut it c => holds c (key_of it ≫= λ k, t !! k)
  | TDelete _ => true
  end.

Definition apply_item (t : Table) (ti : TransactItem) : Table :=
  match ti with
  | TPut it _ =>
      match key_of it with Some k => <[k := it]> t | None => t end
  | TDelete k => delete k t
  end.

(** All or nothing: the items must address distinct keys, every
    condition is evaluated on the table as it is, and only then are all
    items applied. *)
Definition transact_write (items : list TransactItem) (t : Table)
  : (Error + unit) * Table :=
  match mapM item_key items with
  | None => (inl ValidationException, t)
  | Some keys =>
      if negb (bool_decide (NoDup keys)) then (inl ValidationException, t)
      else if forallb (check t) items
           then (inr (), foldl apply_item t items)
           else (inl TransactionCanceledException, t)
  end.

(** [SET a = :a, ...] with its [ExpressionAttributeValues]. *)
Fixpoint apply_sets (sets : list (string * string)) (vals : obj)
    (it : Item) : option Item :=
  match sets with
  | [] => Some it
  | (attr, placeholder) :: rest =>
      match vals !! placeholder with
      | Some v => apply_sets rest vals (<[attr := v]> it)
      | None => None
      end
  end.

Definition key_item (k : Key) : Item :=
  {[ "pk" := Str k.1; "sk" := Str k.2 ]}.

(** Keys compare by partition key, then by sort key; a table is read in
    that order. *)
Definition key_le (a b : Key) : Prop :=
  if String.eqb a.1 b.1 then String.leb a.2 b.2 = true
  else String.leb a.1 b.1 = true.

#[global] Instance key_le_dec : RelDecision key_le.
Proof. intros a b. unfold key_le. destruct (String.eqb a.1 b.1); apply _. Defined.

Definition entry_le (a b : Key * Item) : Prop := key_le a.1 b.1.

#[global] Instance entry_le_dec : RelDecision entry_le.
Proof. intros a b. unfold entry_le. apply _. Defined.

Definition in_order (t : Table) : list (Key * Item) :=
  merge_sort entry_le (map_to_list t).

Definition key_matches (pk : string) (skPrefix : option string)
    (k : Key) : bool :=
  String.eqb k.1 pk
  && match skPrefix with
     | Some p => String.prefix p k.2
     | None => true
     end.

Definition query (pk : string) (skPrefix : option string) (t : Table)
  : list Item :=
  (filter (λ e, key_matches pk skPrefix e.1 = true) (in_order t)).*2.

(** A scan reads at most [limit] items after the exclusive start key,
    keeps those that pass the filter, and reports the key of the last
    item read when it stopped at the limit. *)
Definition scan (pkPrefix skPrefix : string) (limit : nat)
    (start : option Key) (t : Table) : list Item * option Key :=
  let rest :=
    match start with
    | Some k => filter (λ e, ¬ key_le e.1 k) (in_order t)
    | None => in_order t
    end in
  let page := take limit rest in
  ((filter (λ e, String.prefix pkPrefix e.1.1 && String.prefix skPrefix e.1.2 = true)
      page).*2,
   if bool_decide (limit ≤ List.length page)%nat then fst <$> last page else None).

Definition exec (eng : Engine) {R} (req : Request R) (t : Table)
  : (Error + R) * Table :=
  match req in Request R return (Error + R) * Table with
  | Get pk (SkStr sk) => (inr (t !! (pk, sk)), t)
  | Get pk (SkBeginsWith p) => (get_begins_with eng t pk p, t)
  | Put it =>
      match key_of it with
      | Some k => (inr (), <[k := it]> t)
      | None => (inl ValidationException, t)
      end
  | Update k sets vals =>
      if refuses_update eng k sets vals then (inl ValidationException, t)
      else match apply_sets sets vals (default (key_item k) (t !! k)) with
           | Some it => (inr it, <[k := it]> t)
           | None => (inl ValidationException, t)
           end
  | Query None pk skPrefix => (inr (query pk skPrefix t), t)
  | Query (Some index) pk _ => (query_index eng t index pk, t)
  | Scan pkPrefix skPrefix limit start =>
      if bool_decide (limit = 0%nat) then (inl ValidationException, t)
      else (inr (scan pkPrefix skPrefix limit start t), t)
  | TransactWrite items => transact_write items t
  end.

(** One turn of the loop
    [for (const [key, value] of Object.entries(updates))] of both
    adapters; they differ in the guard only.  The accumulator is the
    update expression with its values. *)
Definition add_field (patchable : string → bool)
    (acc : list (string * string) * obj) (e : string * value)
  : list (string * string) * obj :=
  if patchable e.1
  then (acc.1 ++ [(e.1, ":" +:+ e.1)], <[":" +:+ e.1 := e.2]> acc.2)
  else acc.

(** The clause [key = :key]. *)
Definition clause (e : string * value) : string * string :=
  (e.1, ":" +:+ e.1).

(** The expression after the loop, started from
    [SET updatedAt = :updatedAt]. *)
Definition patch (patchable : string → bool) (now : string) (updates : obj)
  : list (string * string) * obj :=
  foldl (add_field patchable)
    ([("updatedAt", ":updatedAt")], {[ ":updatedAt" := Str now ]})
    (entries updates).

(** *** Programs over the client *)

Inductive Prog (A : Type) : Type :=
| Ret (a : A)
| Throw (e : Error)
| Call {R : Type} (req : Request R) (k : Error + R → Prog A).
Arguments Ret {A} a.
Arguments Throw {A} e.
Arguments Call {A R} req k.

Fixpoint bind {A B} (p : Prog A) (f : A → Prog B) : Prog B :=
  match p with
  | Ret a => f a
  | Throw e => Throw e
  | Call req k => Call req (λ r, bind (k r) f)
  end.

#[global] Instance Prog_ret : MRet Prog := @Ret.
#[global] Instance Prog_bind : MBind Prog := λ A B f p, bind p f.

(** [await client.op(params).promise()] outside a [try]. *)
Definition call {R} (req : Request R) : Prog R :=
  Call req (λ r, match r with inl e => Throw e | inr x => Ret x end).

(** [try { p } catch (error) { h error }]. *)
Fixpoint try_catch {A} (p : Prog A) (h : Error → Prog A) : Prog A :=
  match p with
  | Ret a => Ret a
  | Throw e => h e
  | Call req k => Call req (λ r, try_catch (k r) h)
  end.

Fixpoint run (eng : Engine) {A} (p : Prog A) (t : Table)
  : (Error + A) * Table :=
  match p with
  | Ret a => (inr a, t)
  | Throw e => (inl e, t)
  | Call req k => let '(r, t') := exec eng req t in run eng (k r) t'
  end.

(** One entry per request, in the order of issue: the request and the
    table it leaves behind. *)
Inductive Event : Type :=
| Ev {R : Type} (req : Request R) (after : Table).

Definition after (e : Event) : Table :=
  match e with Ev _ t => t end.

Fixpoint trace (eng : Engine) {A} (p : Prog A) (t : Table) : list Event :=
  match p with
  | Ret _ | Throw _ => []
  | Call req k =>
      let '(r, t') := exec eng req t in Ev req t' :: trace eng (k r) t'
  end.

(** The tables an observer can see while the program runs and when it
    has ended. *)
Definition states (eng : Engine) {A} (p : Prog A) (t : Table)
  : list Table :=
  after <$> trace eng p t.

(** What the program returned, if it did. *)
Definition returned {A} (r : (Error + A) * Table) : option A :=
  match r.1 with
  | inr a => Some a
  | inl _ => None
  end.

(** The items of a transaction request. *)
Definition written (e : Event) : list TransactItem :=
  match e with
  | Ev (TransactWrite items) _ => items
  | Ev _ _ => []
  end.

(** A put that carries [attribute_not_exists(pk)]. *)
Definition guarded (ti : TransactItem) : bool :=
  match ti with
  | TPut _ (AttributeNotExists attrs) => bool_decide ("pk" ∈ attrs)
  | _ => false
  end.

Definition is_write (e : Event) : bool :=
  match e with
  | Ev (Put _) _ | Ev (Update _ _ _) _ | Ev (TransactWrite _) _ => true
  | Ev _ _ => false
  end.

End DynamoDb.

(** ** [Buffer] and [JSON]

    A string is the sequence of its UTF-8 bytes, and so is a buffer:
    [Buffer.from(s)] and [buf.toString()] do not change the bytes. *)

Module Buffer.
Local Open Scope N_scope.

Definition from (s : string) : string := s.
Definition toString (buf : string) : string := buf.

(** The character of a 6-bit value in the base64 alphabet. *)
Definition digit (v : N) : ascii :=
  if v <? 26 then ascii_of_N (65 + v)
  else if v <? 52 then ascii_of_N (97 + (v - 26))
  else if v <? 62 then ascii_of_N (48 + (v - 52))
  else if v =? 62 then "+"%char
  else "/"%char.

(** The 6-bit value of a character; the decoder also reads the URL-safe
    [-] and [_]. *)
Definition sextet (c : ascii) : option N :=
  let n := N_of_ascii c in
  if (65 <=? n) && (n <=? 90) then Some (n - 65)
  else if (97 <=? n) && (n <=? 122) then Some (n - 97 + 26)
  else if (48 <=? n) && (n <=? 57) then Some (n - 48 + 52)
  else if (n =? 43) || (n =? 45) then Some 62
  else if (n =? 47) || (n =? 95) then Some 63
  else None.

(** [buf.toString("base64")]; a buffer is the string of its bytes. *)
Fixpoint to_base64 (buf : string) : string :=
  match buf with
  | "" => ""
  | String a "" =>
      let a := N_of_ascii a in
      String (digit (a / 4)) (String (digit (a mod 4 * 16)) "==")
  | String a (String b "") =>
      let a := N_of_ascii a in
      let b := N_of_ascii b in
      String (digit (a / 4))
        (String (digit (a mod 4 * 16 + b / 16))
           (String (digit (b mod 16 * 4)) "="))
  | String a (String b (String c rest)) =>
      let a := N_of_ascii a in
      let b := N_of_ascii b in
      let c := N_of_ascii c in
      String (digit (a / 4))
        (String (digit (a mod 4 * 16 + b / 16))
           (String (digit (b mod 16 * 4 + c / 64))
              (String (digit (c mod 64)) (to_base64 rest))))
  end.

(** The decoder skips what is not in the alphabet and stops at the
    padding. *)
Fixpoint sextets (s : string) : list N :=
  match s with
  | "" => []
  | String c rest =>
      if Ascii.eqb c "="%char then []
      else match sextet c with
           | Some v => v :: sextets rest
           | None => sextets rest
           end
  end.

Fixpoint unpack (vs : list N) : string :=
  match vs with
  | a :: b :: c :: d :: rest =>
      String (ascii_of_N (a * 4 + b / 16))
        (String (ascii_of_N (b mod 16 * 16 + c / 4))
           (String (ascii_of_N (c mod 4 * 64 + d)) (unpack rest)))
  | [a; b; c] =>
      String (ascii_of_N (a * 4 + b / 16))
        (String (ascii_of_N (b mod 16 * 16 + c / 4)) "")
  | [a; b] => String (ascii_of_N (a * 4 + b / 16)) ""
  | _ => ""
  end.

(** [Buffer.from(s, "base64")]. *)
Definition from_base64 (s : string) : string := unpack (sextets s).

End Buffer.

Module Json.
Local Open Scope N_scope.

Definition dquote : ascii := "034"%char.
Definition backslash : ascii := "092"%char.

Definition hex_digit (v : N) : ascii :=
  if v <? 10 then ascii_of_N (48 + v) else ascii_of_N (97 + (v - 10)).

Definition hex_value (c : ascii) : option N :=
  let n := N_of_ascii c in
  if (48 <=? n) && (n <=? 57) then Some (n - 48)
  else if (97 <=? n) && (n <=? 102) then Some (n - 97 + 10)
  else if (65 <=? n) && (n <=? 70) then Some (n - 65 + 10)
  else None.

(** One character of a string, as [JSON.stringify] writes it. *)
Definition escape (c : ascii) : string :=
  let n := N_of_ascii c in
  if n =? 34 then String backslash (String dquote "")
  else if n =? 92 then String backslash (String backslash "")
  else if n =? 8 then String backslash "b"
  else if n =? 12 then String backslash "f"
  else if n =? 10 then String backslash "n"
  else if n =? 13 then String backslash "r"
  else if n =? 9 then String backslash "t"
  else if n <? 32
       then String backslash
              (String "u" (String "0" (String "0"
                 (String (hex_digit (n / 16))
                    (String (hex_digit (n mod 16)) "")))))
  else String c "".

Fixpoint escape_all (s : string) : string :=
  match s with
  | "" => ""
  | String c rest => escape c +:+ escape_all rest
  end.

Definition quote (s : string) : string :=
  String dquote (escape_all s +:+ String dquote "").

(** [JSON.stringify] of a key object [{ pk, sk }]. *)
Definition stringify_key (k : string * string) : string :=
  "{" +:+ quote "pk" +:+ ":" +:+ quote k.1 +:+ ","
      +:+ quote "sk" +:+ ":" +:+ quote k.2 +:+ "}".

(** The character a one-letter escape stands for. *)
Definition unescape (e : ascii) : option ascii :=
  let n := N_of_ascii e in
  if n =? 34 then Some dquote
  else if n =? 92 then Some backslash
  else if n =? 47 then Some "/"%char
  else if n =? 98 then Some (ascii_of_N 8)
  else if n =? 102 then Some (ascii_of_N 12)
  else if n =? 110 then Some (ascii_of_N 10)
  else if n =? 114 then Some (ascii_of_N 13)
  else if n =? 116 then Some (ascii_of_N 9)
  else None.

(** The bytes of the code unit of a [\uXXXX] escape; the surrogate
    range has no bytes of its own. *)
Definition utf8 (cp : N) : option string :=
  if cp <? 128 then Some (String (ascii_of_N cp) "")
  else if cp <? 2048
       then Some (String (ascii_of_N (192 + cp / 64))
                    (String (ascii_of_N (128 + cp mod 64)) ""))
  else if (55296 <=? cp) && (cp <=? 57343) then None
  else Some (String (ascii_of_N (224 + cp / 4096))
               (String (ascii_of_N (128 + cp / 64 mod 64))
                  (String (ascii_of_N (128 + cp mod 64)) ""))).

Definition hex4 (a b c d : ascii) : option N :=
  a ← hex_value a; b ← hex_value b; c ← hex_value c; d ← hex_value d;
  Some (((a * 16 + b) * 16 + c) * 16 + d).

(** Reads a string literal after its opening quote: the string and the
    text after the closing quote. *)
Fixpoint read_string (s : string) : option (string * string) :=
  match s with
  | "" => None
  | String c rest =>
      if Ascii.eqb c dquote then Some ("", rest)
      else if Ascii.eqb c backslash then
        match rest with
        | "" => None
        | String e rest =>
            if Ascii.eqb e "u"%char then
              match rest with
              | String h1 (String h2 (String h3 (String h4 rest))) =>
                  cp ← hex4 h1 h2 h3 h4;
                  bytes ← utf8 cp;
                  r ← read_string rest;
                  Some (bytes +:+ r.1, r.2)
              | _ => None
              end
            else
              ch ← unescape e;
              r ← read_string rest;
              Some (String ch r.1, r.2)
        end
      else if N_of_ascii c <? 32 then None
      else r ← read_string rest; Some (String c r.1, r.2)
  end.

Definition is_ws (c : ascii) : bool :=
  let n := N_of_ascii c in
  (n =? 32) || (n =? 9) || (n =? 10) || (n =? 13).

Fixpoint skip_ws (s : string) : string :=
  match s with
  | String c rest => if is_ws c then skip_ws rest else s
  | "" => ""
  end.

(** Expects the character [c] after white space. *)
Definition expect (c : ascii) (s : string) : option string :=
  match skip_ws s with
  | String c' rest => if Ascii.eqb c' c then Some rest else None
  | "" => None
  end.

(** ["name" : "value"]. *)
Definition read_member (s : string) : option ((string * string) * string) :=
  s ← expect dquote s;
  name ← read_string s;
  s ← expect ":"%char name.2;
  s ← expect dquote s;
  val ← read_string s;
  Some ((name.1, val.1), val.2).

(** The members after the opening brace, up to the closing one. *)
Fixpoint read_members (fuel : nat) (s : string)
  : option (list (string * string) * string) :=
  match fuel with
  | O => None
  | S fuel =>
      m ← read_member s;
      match skip_ws m.2 with
      | String c rest =>
          if Ascii.eqb c "}"%char then Some ([m.1], rest)
          else if Ascii.eqb c ","%char then
            ms ← read_members fuel rest;
            Some (m.1 :: ms.1, ms.2)
          else None
      | "" => None
      end
  end.

(** An object whose members are strings; [None] for every other text. *)
Definition parse_object (s : string) : option (list (string * string)) :=
  s ← expect "{"%char s;
  match skip_ws s with
  | String c rest =>
      if Ascii.eqb c "}"%char
      then (if String.eqb (skip_ws rest) "" then Some [] else None)
      else ms ← read_members (String.length s) s;
           if String.eqb (skip_ws ms.2) "" then Some ms.1 else None
  | "" => None
  end.

(** The parsed object as a start key: exactly the key attributes. *)
Definition as_key (members : list (string * string)) : option (string * string) :=
  let o : gmap string string := list_to_map (reverse members) in
  match o !! "pk", o !! "sk" with
  | Some pk, Some sk => if bool_decide (size o = 2%nat) then Some (pk, sk) else None
  | _, _ => None
  end.

Definition parse_key (s : string) : option (string * string) :=
  parse_object s ≫= as_key.

End Json.

(** ** [db/models/dynamodb/product.model.js] *)

Module ProductModel.
Import Js DynamoDb.

(** The values [uuidv4()] and [new Date().toISOString()] yield are
    arguments ([productId], [now]). *)

Definition create (productData : obj) (userId : string)
    (productId now : string) : Prog Item :=
  let item : Item :=
    literal
      [ ("pk", Some (Str ("PRODUCT#" +:+ productId)));
        ("sk", Some (Str ("DETAILS#" +:+ productId)));
        ("id", Some (Str productId));
        ("name", productData !! "name");
        ("description", or (productData !! "description") (Some Null));
        ("price", productData !! "price");
        ("imageUrl", or (productData !! "imageUrl") (Some Null));
        ("category", or (productData !! "category") (Some Null));
        ("stock", or (productData !! "stock") (Some (Num 0)));
        ("isActive", Some (Bool true));
        ("userId", Some (Str userId));
        ("createdAt", Some (Str now));
        ("updatedAt", Some (Str now)) ] in
  let userIndex : Item :=
    literal
      [ ("pk", Some (Str ("USER#" +:+ userId)));
        ("sk", Some (Str ("PRODUCT#" +:+ productId)));
        ("id", Some (Str productId)) ] in
  let categoryItem : option Item :=
    if truthy (productData !! "category")
    then Some (literal
      [ ("pk", Some (Str ("CATEGORY#" +:+ to_str (productData !! "category"))));
        ("sk", Some (Str ("PRODUCT#" +:+ productId)));
        ("id", Some (Str productId)) ])
    else None in
  let transactItems :=
    [ TPut item (AttributeNotExists ["pk"]);
      TPut userIndex (AttributeNotExists ["pk"; "sk"]) ]
    ++ match categoryItem with
       | Some c => [TPut c Unconditional]
       | None => []
       end in
  _ ← call (TransactWrite transactItems);
  mret item.

Definition findById (productId : string) : Prog (option Item) :=
  result ← call (Get ("PRODUCT#" +:+ productId)
                     (SkStr ("DETAILS#" +:+ productId)));
  match result with
  | None => mret None
  | Some it => mret (Some it)
  end.

(** The loop [for (const item of result.Items)] that resolves index
    records; [item.id] is used as it is read. *)
Fixpoint resolve (items : list Item) (products : list Item)
  : Prog (list Item) :=
  match items with
  | [] => mret products
  | item :: rest =>
      product ← findById (to_str (item !! "id"));
      match product with
      | Some p => resolve rest (products ++ [p])
      | None => resolve rest products
      end
  end.

Definition findByUserId (userId : string) : Prog (list Item) :=
  result ← call (Query None ("USER#" +:+ userId) (Some "PRODUCT#"));
  match result with
  | [] => mret []
  | _ => resolve result []
  end.

Definition findByCategory (category : string) : Prog (list Item) :=
  result ← call (Query None ("CATEGORY#" +:+ category) (Some "PRODUCT#"));
  match result with
  | [] => mret []
  | _ => resolve result []
  end.

(** The cursor of a page boundary. *)
Definition cursor_of (lastEvaluatedKey : Key) : string :=
  Buffer.to_base64 (Buffer.from (Json.stringify_key lastEvaluatedKey)).

(** What [JSON.parse(Buffer.from(cursor, "base64").toString())] yields
    as a start key.  A text that is no object of strings raises the
    parser's error here; one that is, but not a key of the table, is
    refused by the scan. *)
Definition start_key (cursor : string) : Error + Key :=
  match Json.parse_object (Buffer.toString (Buffer.from_base64 cursor)) with
  | None => inl (JsError "SyntaxError")
  | Some members =>
      match Json.as_key members with
      | Some k => inr k
      | None => inl ValidationException
      end
  end.

(** The guard of the patch loop. *)
Definition patchable (key : string) : bool :=
  negb (String.eqb key "id") && negb (String.eqb key "userId")
  && negb (String.eqb key "pk") && negb (String.eqb key "sk")
  && negb (String.eqb key "createdAt").

(** The block [// Handle category update] of [update]. *)
Definition handle_category (productId : string) (updates product : obj)
  : Prog unit :=
  if truthy (updates !! "category")
     && bool_decide (updates !! "category" ≠ product !! "category")
  then
    let categoryTransaction :=
      if truthy (product !! "category")
      then Some (TDelete
        ("CATEGORY#" +:+ to_str (product !! "category"),
         "PRODUCT#" +:+ productId))
      else None in
    let newCategoryItem : Item :=
      literal
        [ ("pk", Some (Str ("CATEGORY#" +:+ to_str (updates !! "category"))));
          ("sk", Some (Str ("PRODUCT#" +:+ productId)));
          ("id", Some (Str productId)) ] in
    let newCategoryTransaction := TPut newCategoryItem Unconditional in
    match categoryTransaction with
    | Some categoryTransaction =>
        call (TransactWrite [categoryTransaction; newCategoryTransaction])
    | None => call (Put newCategoryItem)
    end
  else mret ().

Definition update (productId : string) (updates : obj) (userId : string)
    (now : string) : Prog Item :=
  product ← findById productId;
  match product with
  | None => Throw (JsError "Product not found")
  | Some product =>
      if bool_decide (product !! "userId" ≠ Some (Str userId))
      then Throw (JsError "Unauthorized to update this product")
      else
        let '(updateExpression, expressionAttributeValues) :=
          patch patchable now updates in
        _ ← handle_category productId updates product;
        call (Update ("PRODUCT#" +:+ productId, "DETAILS#" +:+ productId)
                updateExpression expressionAttributeValues)
  end.

Definition delete (productId : string) (userId : string) : Prog bool :=
  product ← findById productId;
  match product with
  | None => Throw (JsError "Product not found")
  | Some product =>
      if bool_decide (product !! "userId" ≠ Some (Str userId))
      then Throw (JsError "Unauthorized to delete this product")
      else
        let transactItems :=
          [ TDelete ("PRODUCT#" +:+ productId, "DETAILS#" +:+ productId);
            TDelete ("USER#" +:+ userId, "PRODUCT#" +:+ productId) ]
          ++ (if truthy (product !! "category")
              then [TDelete ("CATEGORY#" +:+ to_str (product !! "category"),
                             "PRODUCT#" +:+ productId)]
              else []) in
        _ ← call (TransactWrite transactItems);
        mret true
  end.

Definition list (limit : nat) (lastEvaluatedKey : option string)
  : Prog (list Item * option string) :=
  start ← match lastEvaluatedKey return Prog (option Key) with
          | None => mret None
          | Some cursor =>
              if String.eqb cursor "" then mret None
              else match start_key cursor with
                   | inr k => mret (Some k)
                   | inl e => Throw e
                   end
          end;
  result ← call (Scan "PRODUCT#" "DETAILS#" limit start);
  mret (result.1, cursor_of <$> (result.2 : option Key)).

End ProductModel.

(** ** [bcryptjs] *)

Module Bcrypt.
Import Js DynamoDb.

(** The hashing primitive is a collaborator: [hash password salt] and
    [compare password hashed] are whatever the library computes on
    strings; on anything else it rejects. *)
Record Impl : Type := {
  hash : string → string → string;
  compare : string → string → bool;
}.

Definition typeof (v : option value) : string :=
  match v with
  | None => "undefined"
  | Some Null => "object"
  | Some (Bool _) => "boolean"
  | Some (Num _) => "number"
  | Some (Str _) => "string"
  end.

Definition illegal (a b : option value) : Error :=
  JsError ("Illegal arguments: " +:+ typeof a +:+ ", " +:+ typeof b).

End Bcrypt.

(** ** [db/models/dynamodb/user.model.js] *)

Module UserModel.
Import Js DynamoDb.

Section with_bcrypt.
Context (bcrypt : Bcrypt.Impl).

(** [userId], [now] and [salt] are what [uuidv4()],
    [new Date().toISOString()] and [bcrypt.genSalt(10)] yield. *)

Definition create (userData : obj) (userId now salt : string)
  : Prog Item :=
  match userData !! "password" with
  | Some (Str password) =>
      let hashedPassword := Bcrypt.hash bcrypt password salt in
      let item : Item :=
        literal
          [ ("pk", Some (Str ("USER#" +:+ userId)));
            ("sk", Some (Str ("PROFILE#" +:+ userId)));
            ("id", Some (Str userId));
            ("email", userData !! "email");
            ("password", Some (Str hashedPassword));
            ("firstName", or (userData !! "firstName") (Some Null));
            ("lastName", or (userData !! "lastName") (Some Null));
            ("profileImage", or (userData !! "profileImage") (Some Null));
            ("role", or (userData !! "role") (Some (Str "user")));
            ("isActive", Some (Bool true));
            ("createdAt", Some (Str now));
            ("updatedAt", Some (Str now)) ] in
      let emailIndex : Item :=
        literal
          [ ("pk", Some (Str ("EMAIL#" +:+ to_str (userData !! "email"))));
            ("sk", Some (Str ("USER#" +:+ userId)));
            ("id", Some (Str userId)) ] in
      try_catch
        (_ ← call (TransactWrite
                     [ TPut item (AttributeNotExists ["pk"]);
                       TPut emailIndex (AttributeNotExists ["pk"]) ]);
         mret (without "password" item))
        (λ error,
           if bool_decide (error = AwsError "TransactionCanceledException")
           then Throw (JsError "User with this email already exists")
           else Throw error)
  | other => Throw (Bcrypt.illegal other (Some (Str salt)))
  end.

Definition findById (userId : string) : Prog (option Item) :=
  result ← call (Get ("USER#" +:+ userId) (SkStr ("PROFILE#" +:+ userId)));
  match result with
  | None => mret None
  | Some it => mret (Some (without "password" it))
  end.

Definition findByEmail (email : string) : Prog (option Item) :=
  result ← call (Get ("EMAIL#" +:+ email) (SkBeginsWith "USER#"));
  match result with
  | None => mret None
  | Some it => findById (to_str (it !! "id"))
  end.

(** The guard of the patch loop. *)
Definition patchable (key : string) : bool :=
  negb (String.eqb key "id") && negb (String.eqb key "email")
  && negb (String.eqb key "password").

Definition update (userId : string) (updates : obj) (now salt : string)
  : Prog Item :=
  user ← findById userId;
  match user with
  | None => Throw (JsError "User not found")
  | Some _ =>
      let acc := patch patchable now updates in
      acc ← (if truthy (updates !! "password")
             then match updates !! "password" with
                  | Some (Str password) =>
                      let hashedPassword := Bcrypt.hash bcrypt password salt in
                      mret (acc.1 ++ [("password", ":password")],
                            <[":password" := Str hashedPassword]> acc.2)
                  | other => Throw (Bcrypt.illegal other (Some (Str salt)))
                  end
             else mret acc);
      result ← call (Update ("USER#" +:+ userId, "PROFILE#" +:+ userId)
                       acc.1 acc.2);
      mret (without "password" result)
  end.

Definition delete (userId : string) : Prog bool :=
  user ← findById userId;
  match user with
  | None => Throw (JsError "User not found")
  | Some user =>
      _ ← call (TransactWrite
                  [ TDelete ("USER#" +:+ userId, "PROFILE#" +:+ userId);
                    TDelete ("EMAIL#" +:+ to_str (user !! "email"),
                             "USER#" +:+ userId) ]);
      mret true
  end.

Definition validateCredentials (email password : string)
  : Prog (option Item) :=
  result ← call (Query (Some "EmailIndex") ("EMAIL#" +:+ email) None);
  match result with
  | [] => mret None
  | first :: _ =>
      let userId := to_str (first !! "id") in
      userResult ← call (Get ("USER#" +:+ userId)
                             (SkStr ("PROFILE#" +:+ userId)));
      match userResult with
      | None => mret None
      | Some user =>
          match user !! "password" with
          | Some (Str hashed) =>
              if Bcrypt.compare bcrypt password hashed
              then mret (Some (without "password" user))
              else mret None
          | other => Throw (Bcrypt.illegal (Some (Str password)) other)
          end
      end
  end.

Definition updateLastLogin (userId : string) (now : string) : Prog bool :=
  _ ← call (Update ("USER#" +:+ userId, "PROFILE#" +:+ userId)
              [("lastLogin", ":lastLogin")] {[ ":lastLogin" := Str now ]});
  mret true.

End with_bcrypt.

End UserModel.

(** ** [utils/validators.js] *)

Module Validators.
Import Js.
Local Open Scope N_scope.

(** [s.length]: the number of UTF-16 code units of the text whose UTF-8
    bytes are [s]. *)
Fixpoint js_length (s : string) : N :=
  match s with
  | "" => 0
  | String c rest =>
      let n := N_of_ascii c in
      (if (n <? 128) || (192 <=? n) then 1 else 0)
      + (if 240 <=? n then 1 else 0) + js_length rest
  end.

(** [/[lo-hi]/.test(s)] for an ASCII range. *)
Fixpoint has_in_range (lo hi : N) (s : string) : bool :=
  match s with
  | "" => false
  | String c rest =>
      ((lo <=? N_of_ascii c) && (N_of_ascii c <=? hi))
      || has_in_range lo hi rest
  end.

Record Verdict : Type := { isValid : bool; message : string }.

(** [validatePassword] on a scalar of a request body: [undefined],
    [null], a boolean, an integer or a string.  The function tests
    [password.length] and three patterns on the text of the value; an
    array or an object, which [value] does not hold, would reach the
    same tests. *)
Definition validatePassword (password : option value) : Verdict :=
  if negb (truthy password)
     || match password with
        | Some (Str s) => js_length s <? 8
        | _ => false
        end
  then {| isValid := false;
          message := "Password must be at least 8 characters long" |}
  else
    let hasUppercase := has_in_range 65 90 (to_str password) in
    let hasLowercase := has_in_range 97 122 (to_str password) in
    let hasNumber := has_in_range 48 57 (to_str password) in
    if negb hasUppercase || negb hasLowercase || negb hasNumber
    then {| isValid := false;
            message := "Password must contain at least one uppercase letter, one lowercase letter, and one number" |}
    else {| isValid := true; message := "Password is valid" |}.

End Validators.

(** ** What [require] yields for the product adapter

    [user.model.js] ends in [module.exports = UserModel], and the
    handlers of users call the functions above.  [product.model.js] ends
    with the object literal of [const ProductModel] and assigns nothing
    to [module.exports]: on the key-value backend [getProductModel()]
    returns the empty object that [require] yields for that file, and a
    member that a handler looks up on it is [undefined]. *)

Module ProductExports.
Import Js DynamoDb.

(** The members a handler may look up on the object it holds as
    [ProductModel]. *)
Record Members : Type := {
  create : option (obj → string → string → string → Prog Item);
  findById : option (string → Prog (option Item));
  findByUserId : option (string → Prog (list Item));
  findByCategory : option (string → Prog (list Item));
  list : option (nat → option string → Prog (list Item * option string));
  update : option (string → obj → string → string → Prog Item);
  delete : option (string → string → Prog bool);
}.

(** [module.exports] of [product.model.js] once the file has run. *)
Definition exports : Members :=
  {| create := None; findById := None; findByUserId := None;
     findByCategory := None; list := None; update := None; delete := None |}.

(** [object.member(...)]: the call of a member that is [undefined]
    raises a [TypeError] before anything is awaited. *)
Definition invoke {F A} (name : string) (member : option F)
    (k : F → Prog A) : Prog A :=
  match member with
  | Some f => k f
  | None => Throw (JsError (name +:+ " is not a function"))
  end.

End ProductExports.

(** ** [controllers/auth.controller.js] and [controllers/product.controller.js] *)

Module Controllers.
Import Js DynamoDb.

(** What a handler ends with: [res.status(s).json(...)], or
    [next(error)]. *)
Inductive Reply : Type :=
| Json (status : nat) (message : string) (user : option obj)
    (token : option string)
| Next (error : Error).

(** The relational User model is not part of these sources; the handler
    sees it through the two calls it makes.  [rdsCreate] yields the row
    as [toJSON()] gives it. *)
Record RdsUser : Type := {
  findOne : option value → Error + option obj;
  rdsCreate : obj → Error + obj;
}.

(** The status of a reply; [next(error)] ends in the error handler. *)
Definition status (r : Reply) : nat :=
  match r with
  | Json status _ _ _ => status
  | Next _ => 500
  end.

Definition lift {A} (r : Error + A) : Prog A :=
  match r with
  | inl e => Throw e
  | inr a => Ret a
  end.

Section handlers.
Context (databaseType : string) (rds : RdsUser) (bcrypt : Bcrypt.Impl).
(** [jwt.sign({ id }, secret, options)]. *)
Context (sign : option value → string).

Definition register (body : obj) (userId now salt : string) : Prog Reply :=
  try_catch
    (let email := body !! "email" in
     let password := body !! "password" in
     let firstName := body !! "firstName" in
     let lastName := body !! "lastName" in
     if negb (truthy email) || negb (truthy password)
     then mret (Json 400 "Email and password are required" None None)
     else
       existingUser ←
         (if String.eqb databaseType "rds"
          then lift (findOne rds email)
          else UserModel.findByEmail (to_str email));
       match existingUser with
       | Some _ =>
           mret (Json 409 "User with this email already exists" None None)
       | None =>
           let userData :=
             literal [ ("email", email); ("password", password);
                       ("firstName", firstName); ("lastName", lastName) ] in
           newUser ←
             (if String.eqb databaseType "rds"
              then row ← lift (rdsCreate rds userData);
                   mret (without "password" row)
              else UserModel.create bcrypt userData userId now salt);
           let token := sign (newUser !! "id") in
           mret (Json 201 "User registered successfully"
                      (Some newUser) (Some token))
       end)
    (λ error, mret (Next error)).

(** [getProductModel()] on the key-value backend. *)
Definition getProductModel : ProductExports.Members := ProductExports.exports.

(** The key-value branch of [deleteProduct]; [userId] is [req.user.id]. *)
Definition deleteProduct (productId userId : string) : Prog Reply :=
  try_catch
    (let model := getProductModel in
     try_catch
       (_ ← ProductExports.invoke "ProductModel.delete"
              (ProductExports.delete model)
              (λ delete, delete productId userId);
        mret (Json 200 "Product deleted successfully" None None))
       (λ error,
          if bool_decide (error = JsError "Product not found")
          then mret (Json 404 "Product not found" None None)
          else if bool_decide
                    (error = JsError "Unauthorized to delete this product")
          then mret (Json 403 "Unauthorized to delete this product" None None)
          else Throw error))
    (λ error, mret (Next error)).

End handlers.

End Controllers.

(** ** [db/init.js] and the start of [app.js] *)

Module Init.
Import DynamoDb.

Record Config : Type := {
  databaseType : string;
  tableName : string;
  port : nat;
}.

(** What the two services answer while the process starts. *)
Record Services : Type := {
  authenticate : Error + unit;
  sync : Error + unit;
  listTables : Error + list string;
  createTable : Error + unit;
}.

Inductive Adapter : Type := RdsModels | DocumentClient.

Inductive Step : Type :=
| Listen (port : nat)
| Log (line : string)
| LogError (line : string) (error : Error)
| Await
| Bind (a : Adapter)
| Exit (code : Z).

(** The body of the [try] block: its steps, and how it ends. *)
Definition try_block (config : Config) (services : Services)
  : list Step * (Error + unit) :=
  if String.eqb (databaseType config) "rds" then
    let steps := [Log "Initializing RDS connection..."; Await] in
    match authenticate services with
    | inl e => (steps, inl e)
    | inr _ =>
        let steps :=
          steps ++ [Log "RDS connection has been established successfully.";
                    Await] in
        match sync services with
        | inl e => (steps, inl e)
        | inr _ =>
            (steps ++ [Log "Database synchronized successfully.";
                       Bind RdsModels;
                       Log "Database initialization completed."], inr ())
        end
    end
  else if String.eqb (databaseType config) "dynamodb" then
    let steps := [Log "Initializing DynamoDB connection..."; Await] in
    match listTables services with
    | inl e => (steps, inl e)
    | inr tables =>
        if negb (bool_decide (tableName config ∈ tables)) then
          let steps :=
            steps ++ [Log ("Creating DynamoDB table: " +:+ tableName config);
                      Await] in
          match createTable services with
          | inl e => (steps, inl e)
          | inr _ =>
              (steps ++ [Log "DynamoDB table created successfully.";
                         Bind DocumentClient;
                         Log "Database initialization completed."], inr ())
          end
        else
          (steps ++ [Log "DynamoDB table already exists.";
                     Bind DocumentClient;
                     Log "Database initialization completed."], inr ())
    end
  else
    ([], inl (JsError "Invalid database type specified in configuration.")).

Definition initializeDatabase (config : Config) (services : Services)
  : list Step :=
  match try_block config services with
  | (steps, inr _) => steps
  | (steps, inl error) =>
      steps ++ [LogError "Database initialization failed:" error; Exit 1]
  end.

(** Nothing runs after [process.exit]. *)
Fixpoint until_exit (steps : list Step) : list Step :=
  match steps with
  | [] => []
  | Exit code :: _ => [Exit code]
  | step :: rest => step :: until_exit rest
  end.

(** [app.js] from [httpServer.listen] on: the call of [dbInit()], and
    the [then] callback once its promise is resolved. *)
Definition app (config : Config) (services : Services) : list Step :=
  until_exit
    (Listen (port config) :: initializeDatabase config services
     ++ [Await; Log "Database initialized successfully"]).

(** A listening server takes a request only when the running code hands
    control back: at an [await], or when the script has run to its end. *)
Fixpoint serves (listening : bool) (steps : list Step) : bool :=
  match steps with
  | [] => listening
  | Listen _ :: rest => serves true rest
  | Exit _ :: _ => false
  | Await :: rest => listening || serves listening rest
  | _ :: rest => serves listening rest
  end.

Definition bound (steps : list Step) : list Adapter :=
  omap (λ s, match s with Bind a => Some a | _ => None end) steps.

End Init.

(** ** The agreement of a product with its category index *)

Module Invariant.
Import Js DynamoDb.

Definition primary (productId : string) : Key :=
  ("PRODUCT#" +:+ productId, "DETAILS#" +:+ productId).

Definition category_key (category : option value) (productId : string)
  : Key :=
  ("CATEGORY#" +:+ to_str category, "PRODUCT#" +:+ productId).

Definition profile (userId : string) : Key :=
  ("USER#" +:+ userId, "PROFILE#" +:+ userId).

(** The primary record an index record points to, if it is stored. *)
Definition referenced_product (t : Table) (index : Item) : option Item :=
  t !! primary (to_str (index !! "id")).

Definition referenced_user (t : Table) (index : Item) : option Item :=
  t !! profile (to_str (index !! "id")).

(** The keys of the category index records of a product. *)
Definition category_index (productId : string) (t : Table) : list Key :=
  filter (λ k, String.prefix "CATEGORY#" k.1 = true
               ∧ k.2 = "PRODUCT#" +:+ productId)
         (fst <$> in_order t).

(** The primary record and the category index say the same: a product
    with a category is indexed under it and under nothing else, and one
    without a category, or without a primary record, is not indexed. *)
Definition agrees (productId : string) (t : Table) : bool :=
  match t !! primary productId with
  | Some product =>
      if truthy (product !! "category")
      then bool_decide (category_index productId t
                        = [category_key (product !! "category") productId])
      else bool_decide (category_index productId t = [])
  | None => bool_decide (category_index productId t = [])
  end.

End Invariant.

(** ** Engines and data for the examples *)

Module Fixtures.
Import Js DynamoDb.

(** The service as it answers: a sort key must be a string, an index
    must exist, and an expression must not write a key attribute or one
    attribute twice. *)
Definition strict : Engine :=
  {| get_begins_with := λ _ _ _, inl ValidationException;
     query_index := λ _ _ _, inl ValidationException;
     refuses_update := λ _ sets _,
       bool_decide (¬ NoDup sets.*1)
       || bool_decide ("pk" ∈ sets.*1) || bool_decide ("sk" ∈ sets.*1) |}.

(** The answers the adapters are written for: the first record, or all
    records, under the partition key.  The service gives neither, see
    [strict]; this engine only shows which branches of the callers would
    be reached if it did. *)
Definition lenient : Engine :=
  {| get_begins_with := λ t pk p, inr (head (query pk (Some p) t));
     query_index := λ t _ pk, inr (query pk None t);
     refuses_update := λ _ _ _, false |}.

Definition bcrypt : Bcrypt.Impl :=
  {| Bcrypt.hash := λ password salt, salt +:+ "$" +:+ password;
     Bcrypt.compare := λ password hashed,
       existsb (λ salt, String.eqb hashed (salt +:+ "$" +:+ password))
               ["s1"; "s2"] |}.

Definition widget : obj :=
  {[ "name" := Str "Widget"; "price" := Num 9; "category" := Str "A" ]}.

(** One product [p1] of user [u1] in category [A], as [create] stores
    it. *)
Definition shop : Table :=
  (run strict (ProductModel.create widget "u1" "p1" "T0") ∅).2.

(** [shop] between the two writes of an update of [p1] to category
    [B]: the index records have moved, the primary record has not. *)
Definition shop_moving : Table :=
  <[("CATEGORY#B", "PRODUCT#p1") :=
      {[ "pk" := Str "CATEGORY#B"; "sk" := Str "PRODUCT#p1";
         "id" := Str "p1" ]}]>
    (delete ("CATEGORY#A", "PRODUCT#p1") shop).

(** A relational model that knows no user and stores what it is given. *)
Definition rds : Controllers.RdsUser :=
  {| Controllers.findOne := λ _, inr None;
     Controllers.rdsCreate := λ row, inr (<["id" := Str "1"]> row) |}.

(** A relational model that holds one user, under [a@x.com]. *)
Definition rds_taken : Controllers.RdsUser :=
  {| Controllers.findOne := λ email,
       inr (if bool_decide (email = Some (Str "a@x.com"))
            then Some {[ "id" := Str "1"; "email" := Str "a@x.com" ]}
            else None);
     Controllers.rdsCreate := λ row, inr (<["id" := Str "2"]> row) |}.

Definition sign (id : option value) : string := "token." +:+ to_str id.

(** A registration whose password the strength validator rejects. *)
Definition bob : obj :=
  {[ "email" := Str "b@x.com"; "password" := Str "abc" ]}.

(** A process that is to start on a backend of neither family. *)
Definition mongo : Init.Config :=
  {| Init.databaseType := "mongodb"; Init.tableName := "app-data";
     Init.port := 3000 |}.

Definition dynamo : Init.Config :=
  {| Init.databaseType := "dynamodb"; Init.tableName := "app-data";
     Init.port := 3000 |}.

Definition reachable : Init.Services :=
  {| Init.authenticate := inr (); Init.sync := inr ();
     Init.listTables := inr ["app-data"]; Init.createTable := inr () |}.

Definition alice : obj :=
  {[ "email" := Str "a@x.com"; "password" := Str "Abcd1234" ]}.

(** One user [u1], as [create] stores it. *)
Definition users : Table :=
  (run strict (UserModel.create bcrypt alice "u1" "T0" "s1") ∅).2.

(** [users] without the profile of [u1]: the email index record of
    [a@x.com] is left and points to no record. *)
Definition orphaned : Table := delete (Invariant.profile "u1") users.

End Fixtures.

(** ** The records [create] builds

    The locals [item], [userIndex] and [categoryItem] of
    [ProductModel.create], and [item] and [emailIndex] of
    [UserModel.create], by name. *)

Module Records.
Import Js DynamoDb.

Definition product (productData : obj) (userId productId now : string)
  : Item :=
  literal
    [ ("pk", Some (Str ("PRODUCT#" +:+ productId)));
      ("sk", Some (Str ("DETAILS#" +:+ productId)));
      ("id", Some (Str productId));
      ("name", productData !! "name");
      ("description", or (productData !! "description") (Some Null));
      ("price", productData !! "price");
      ("imageUrl", or (productData !! "imageUrl") (Some Null));
      ("category", or (productData !! "category") (Some Null));
      ("stock", or (productData !! "stock") (Some (Num 0)));
      ("isActive", Some (Bool true));
      ("userId", Some (Str userId));
      ("createdAt", Some (Str now));
      ("updatedAt", Some (Str now)) ].

Definition owner_index (userId productId : string) : Item :=
  literal
    [ ("pk", Some (Str ("USER#" +:+ userId)));
      ("sk", Some (Str ("PRODUCT#" +:+ productId)));
      ("id", Some (Str productId)) ].

Definition category_record (category : option value) (productId : string)
  : Item :=
  literal
    [ ("pk", Some (Str ("CATEGORY#" +:+ to_str category)));
      ("sk", Some (Str ("PRODUCT#" +:+ productId)));
      ("id", Some (Str productId)) ].

Definition user (hashedPassword : string) (userData : obj)
    (userId now : string) : Item :=
  literal
    [ ("pk", Some (Str ("USER#" +:+ userId)));
      ("sk", Some (Str ("PROFILE#" +:+ userId)));
      ("id", Some (Str userId));
      ("email", userData !! "email");
      ("password", Some (Str hashedPassword));
      ("firstName", or (userData !! "firstName") (Some Null));
      ("lastName", or (userData !! "lastName") (Some Null));
      ("profileImage", or (userData !! "profileImage") (Some Null));
      ("role", or (userData !! "role") (Some (Str "user")));
      ("isActive", Some (Bool true));
      ("createdAt", Some (Str now));
      ("updatedAt", Some (Str now)) ].

Definition email_index (email : option value) (userId : string) : Item :=
  literal
    [ ("pk", Some (Str ("EMAIL#" +:+ to_str email)));
      ("sk", Some (Str ("USER#" +:+ userId)));
      ("id", Some (Str userId)) ].

Definition owner_key (userId productId : string) : Key :=
  ("USER#" +:+ userId, "PRODUCT#" +:+ productId).

Definition email_key (email : option value) (userId : string) : Key :=
  ("EMAIL#" +:+ to_str email, "USER#" +:+ userId).

End Records.

(** ** The shape of a category index key *)

Module Index.
Import Js DynamoDb.

(** [k] is the key of a category index record of the product. *)
Definition indexes (productId : string) (k : Key) : Prop :=
  String.prefix "CATEGORY#" k.1 = true ∧ k.2 = "PRODUCT#" +:+ productId.

End Index.

(** ** String methods *)

Module JsString.

(** [s.split(sep)] for a separator of one character. *)
Fixpoint split (sep : ascii) (s : string) : list string :=
  match s with
  | "" => [""]
  | String c rest =>
      if Ascii.eqb c sep then "" :: split sep rest
      else match split sep rest with
           | w :: ws => String c w :: ws
           | [] => [String c ""]
           end
  end.

(** [s.includes(c)] for one character. *)
Fixpoint includes (c : ascii) (s : string) : bool :=
  match s with
  | "" => false
  | String c' rest => Ascii.eqb c' c || includes c rest
  end.

End JsString.

(** ** [controllers/product.controller.js]: the other handlers *)

Module ProductController.
Import Js DynamoDb.

(** [res.status(s).json({ message, product })], or [next(error)]. *)
Inductive Reply : Type :=
| Json (status : nat) (message : option string) (product : option obj)
| Next (error : Error).

Definition status (r : Reply) : nat :=
  match r with
  | Json status _ _ => status
  | Next _ => 500
  end.

(** The key-value branches; [userId] is [req.user.id], and [productId]
    and [now] are what [ProductModel.create] would draw. *)

Definition createProduct (body : obj) (userId productId now : string)
  : Prog Reply :=
  try_catch
    (let name := body !! "name" in
     let description := body !! "description" in
     let price := body !! "price" in
     let category := body !! "category" in
     let stock := body !! "stock" in
     if negb (truthy name) || negb (truthy price)
     then mret (Json 400 (Some "Name and price are required") None)
     else
       let imageUrl := or (body !! "imageUrl") (Some Null) in
       let model := Controllers.getProductModel in
       newProduct ←
         ProductExports.invoke "ProductModel.create"
           (ProductExports.create model)
           (λ create,
              create
                (literal [ ("name", name); ("description", description);
                           ("price", price); ("imageUrl", imageUrl);
                           ("category", category);
                           ("stock", or stock (Some (Num 0))) ])
                userId productId now);
       mret (Json 201 (Some "Product created successfully")
                  (Some newProduct)))
    (λ error, mret (Next error)).

Definition getProductById (productId : string) : Prog Reply :=
  try_catch
    (let model := Controllers.getProductModel in
     product ←
       ProductExports.invoke "ProductModel.findById"
         (ProductExports.findById model)
         (λ findById, findById productId);
     match product with
     | None => mret (Json 404 (Some "Product not found") None)
     | Some product => mret (Json 200 None (Some product))
     end)
    (λ error, mret (Next error)).

(** The object [updates] that [updateProduct] fills from the body. *)
Definition product_updates (body : obj) : obj :=
  literal [ ("name", body !! "name");
            ("description", body !! "description");
            ("price", body !! "price");
            ("category", body !! "category");
            ("stock", body !! "stock");
            ("isActive", body !! "isActive");
            ("imageUrl", body !! "imageUrl") ].

Definition updateProduct (productId : string) (body : obj)
    (userId now : string) : Prog Reply :=
  try_catch
    (let updates := product_updates body in
     let model := Controllers.getProductModel in
     outcome ←
       try_catch
         (product ←
            ProductExports.invoke "ProductModel.update"
              (ProductExports.update model)
              (λ update, update productId updates userId now);
          mret (inr product))
         (λ error,
            if bool_decide (error = JsError "Product not found")
            then mret (inl (Json 404 (Some "Product not found") None))
            else if bool_decide
                      (error = JsError "Unauthorized to update this product")
            then mret (inl (Json 403
                              (Some "Unauthorized to update this product")
                              None))
            else Throw error);
     match outcome with
     | inl reply => mret reply
     | inr product =>
         mret (Json 200 (Some "Product updated successfully") (Some product))
     end)
    (λ error, mret (Next error)).

End ProductController.

(** ** [controllers/auth.controller.js]: [login] and [updateProfile] *)

Module AuthController.
Import Js DynamoDb Controllers.

Section handlers.
Context (bcrypt : Bcrypt.Impl).
Context (sign : option value → string).

(** [UserModel.validateCredentials] as [login] calls it, with the
    password as the body has it: [bcrypt.compare] rejects what is no
    string. *)
Definition validateCredentials (email : string) (password : option value)
  : Prog (option Item) :=
  match password with
  | Some (Str password) => UserModel.validateCredentials bcrypt email password
  | other =>
      result ← call (Query (Some "EmailIndex") ("EMAIL#" +:+ email) None);
      match result with
      | [] => mret None
      | first :: _ =>
          let userId := to_str (first !! "id") in
          userResult ← call (Get ("USER#" +:+ userId)
                                 (SkStr ("PROFILE#" +:+ userId)));
          match userResult with
          | None => mret None
          | Some user => Throw (Bcrypt.illegal other (user !! "password"))
          end
      end
  end.

(** The key-value branch of [login]. *)
Definition login (body : obj) (now : string) : Prog Reply :=
  try_catch
    (let email := body !! "email" in
     let password := body !! "password" in
     if negb (truthy email) || negb (truthy password)
     then mret (Json 400 "Email and password are required" None None)
     else
       user ← validateCredentials (to_str email) password;
       match user with
       | None => mret (Json 401 "Invalid email or password" None None)
       | Some user =>
           _ ← UserModel.updateLastLogin (to_str (user !! "id")) now;
           let token := sign (user !! "id") in
           mret (Json 200 "Login successful" (Some user) (Some token))
       end)
    (λ error, mret (Next error)).

(** The object [updates] that [updateProfile] fills from the body. *)
Definition profile_updates (body : obj) : obj :=
  literal [ ("firstName", body !! "firstName");
            ("lastName", body !! "lastName");
            ("password",
             if truthy (body !! "password") then body !! "password"
             else None);
            ("profileImage",
             if truthy (body !! "profileImage") then body !! "profileImage"
             else None) ].

(** The key-value branch of [updateProfile]; [user] is [req.user]. *)
Definition updateProfile (user : obj) (body : obj) (now salt : string)
  : Prog Reply :=
  try_catch
    (let updates := profile_updates body in
     updatedUser ←
       UserModel.update bcrypt (to_str (user !! "id")) updates now salt;
     mret (Json 200 "Profile updated successfully" (Some updatedUser) None))
    (λ error, mret (Next error)).

End handlers.

End AuthController.

(** ** [middleware/auth.middleware.js] *)

Module AuthMiddleware.
Import Js DynamoDb.

(** What a middleware ends with: a response, [next()] with the user the
    request carries from then on, or [next(error)]. *)
Inductive Outcome : Type :=
| Respond (status : nat) (message : string)
| Continue (user : obj)
| Forward (error : Error).

(** What [jwt.verify] throws. *)
Record JwtError : Type := { name : string; message : string }.

(** [error.name] of what the client rejects with. *)
Definition error_name (e : Error) : string :=
  match e with
  | JsError _ => "Error"
  | AwsError code => code
  end.

Definition rejects (name : string) : bool :=
  String.eqb name "JsonWebTokenError" || String.eqb name "TokenExpiredError".

Section with_jwt.
(** [jwt.verify(token, secret)]: the payload, or the error thrown. *)
Context (verify : option string → JwtError + obj).

(** The key-value branch of [authenticate]; [authorization] is
    [req.headers.authorization]. *)
Definition authenticate (authorization : option string) : Prog Outcome :=
  try_catch
    (match authorization with
     | None => mret (Respond 401 "Authentication required")
     | Some authHeader =>
         if String.eqb authHeader ""
            || negb (String.prefix "Bearer " authHeader)
         then mret (Respond 401 "Authentication required")
         else
           let token := JsString.split " " authHeader !! 1%nat in
           match verify token with
           | inl error =>
               (* the [catch] block on what [jwt.verify] threw *)
               if rejects (name error)
               then mret (Respond 401 "Invalid or expired token")
               else mret (Forward (JsError (message error)))
           | inr decoded =>
               if negb (truthy (decoded !! "id"))
               then mret (Respond 401 "Invalid token")
               else
                 user ← UserModel.findById (to_str (decoded !! "id"));
                 match user with
                 | None => mret (Respond 401 "User not found")
                 | Some user => mret (Continue user)
                 end
           end
     end)
    (λ error,
       if rejects (error_name error)
       then mret (Respond 401 "Invalid or expired token")
       else mret (Forward error)).

End with_jwt.

(** [user] is [req.user]. *)
Definition isAdmin (user : option obj) : Outcome :=
  match user with
  | None => Respond 403 "Admin permission required"
  | Some user =>
      if bool_decide (user !! "role" ≠ Some (Str "admin"))
      then Respond 403 "Admin permission required"
      else Continue user
  end.

Definition isActive (user : option obj) : Outcome :=
  match user with
  | None => Respond 403 "Account is not active"
  | Some user =>
      if negb (truthy (user !! "isActive"))
      then Respond 403 "Account is not active"
      else Continue user
  end.

End AuthMiddleware.

(** ** [middleware/rateLimiter.js] *)

Module RateLimiter.
Local Open Scope Z_scope.

(** One entry of [requestCounts]. *)
Record Entry : Type := { count : Z; resetTime : Z }.

(** The properties of its own that the object [requestCounts] holds. *)
Abbreviation Counts := (gmap string Entry).

(** [requestCounts] is created by the literal [{}], a plain object: the
    names it inherits from [Object.prototype]. *)
Definition inherited : list string :=
  [ "constructor"; "__defineGetter__"; "__defineSetter__"; "hasOwnProperty";
    "__lookupGetter__"; "__lookupSetter__"; "isPrototypeOf";
    "propertyIsEnumerable"; "toString"; "valueOf"; "__proto__";
    "toLocaleString" ].

(** What [requestCounts[ip]] finds: an entry the middleware has stored,
    or a member of the prototype (a function, or for [__proto__] the
    prototype itself), or nothing. *)
Inductive Member : Type :=
| Own (entry : Entry)
| Inherited.

Definition member (requestCounts : Counts) (ip : string) : option Member :=
  match requestCounts !! ip with
  | Some entry => Some (Own entry)
  | None => if bool_decide (ip ∈ inherited) then Some Inherited else None
  end.

Definition windowMs : Z := 15 * 60 * 1000.
Definition maxRequests : Z := 100.

(** The callback of [setInterval]: [for ... in] visits every property
    the object holds itself, and [delete] removes it. *)
Definition cleanup (requestCounts : Counts) : Counts :=
  foldr (λ ip counts, delete ip counts) requestCounts
        (fst <$> map_to_list requestCounts).

(** [next()], or the body of the 429 response. *)
Inductive Verdict : Type :=
| Next
| TooMany (message retryAfter : string).

(** [Math.ceil(x / 1000 / 60)] for an integer [x] of milliseconds, as
    the differences of two readings of the clock are. *)
Definition minutes_up (x : Z) : Z := - ((- x) / 60000).

(** The middleware on a request from [ip] at the time [now] of
    [Date.now()].  A member of the prototype is an object, so the test
    [!requestCounts[ip]] fails for it; its [count] is [undefined] at
    first, [count += 1] makes it [NaN] and leaves it so, on the member
    and not in [requestCounts], and [NaN > maxRequests] is false. *)
Definition limit (ip : string) (now : Z) (requestCounts : Counts)
  : Verdict * Counts :=
  let requestCounts :=
    match member requestCounts ip with
    | None =>
        <[ip := {| count := 1; resetTime := now + windowMs |}]> requestCounts
    | Some (Own entry) =>
        <[ip := {| count := count entry + 1; resetTime := resetTime entry |}]>
          requestCounts
    | Some Inherited => requestCounts
    end in
  match member requestCounts ip with
  | Some (Own entry) =>
      if maxRequests <? count entry
      then
        let remainingTime := minutes_up (resetTime entry - now) in
        (TooMany "Too many requests, please try again later"
                 (pretty remainingTime +:+ " minutes"),
         requestCounts)
      else (Next, requestCounts)
  | Some Inherited => (Next, requestCounts)
  | None => (Next, requestCounts)
  end.

(** What happens to the limiter: a request, or the timer. *)
Inductive Input : Type :=
| Request (ip : string) (now : Z)
| Tick.

Definition step (requestCounts : Counts) (i : Input)
  : option Verdict * Counts :=
  match i with
  | Request ip now =>
      let '(v, counts) := limit ip now requestCounts in (Some v, counts)
  | Tick => (None, cleanup requestCounts)
  end.

(** The limiter from its creation, with [requestCounts = {}], through a
    history of inputs: the counters it ends with. *)
Definition counts_after (history : list Input) : Counts :=
  foldl (λ counts i, (step counts i).2) ∅ history.

(** The verdict on a request that arrives after that history. *)
Definition verdict (history : list Input) (ip : string) (now : Z) : Verdict :=
  (limit ip now (counts_after history)).1.

(** The number of requests of [ip] since the last tick. *)
Definition recent (ip : string) (history : list Input) : Z :=
  foldl (λ n i, match i with
                | Request ip' _ => if String.eqb ip' ip then n + 1 else n
                | Tick => 0
                end) 0 history.

End RateLimiter.

(** ** [controllers/upload.controller.js] *)

Module UploadController.
Import Js DynamoDb.

Record Config : Type := {
  bucket : string;
  region : string;
  signedUrlExpiration : Z;
  acl : string;
}.

(** The parameters of [s3.getSignedUrl("putObject", params)]. *)
Record Params : Type := {
  Bucket : string;
  Key : string;
  ContentType : string;
  Expires : Z;
  ACL : string;
}.

Inductive Reply : Type :=
| Signed (signedUrl fileUrl fileName : string)
| Json (status : nat) (message : string)
| Next (error : Error).

Definition allowedFileTypes : list string :=
  [ "image/jpeg"; "image/png"; "image/gif"; "application/pdf";
    "application/msword";
    "application/vnd.openxmlformats-officedocument.wordprocessingml.document" ].

(** [allowedFileTypes.includes(fileType)]. *)
Definition includes (types : list string) (fileType : option value) : bool :=
  match fileType with
  | Some (Str s) => bool_decide (s ∈ types)
  | _ => false
  end.

(** [fileName.split(".").pop()]. *)
Definition extension (fileName : string) : string :=
  default "" (last (JsString.split "." fileName)).

Section with_s3.
Context (config : Config).
(** The signing of the URL is the SDK's. *)
Context (getSignedUrl : Params → Error + string).

(** [uuid] is what [uuidv4()] yields. *)
Definition getSignedUploadUrl (body : obj) (uuid : string) : Reply :=
  let fileType := body !! "fileType" in
  let fileName := body !! "fileName" in
  let folder :=
    match body !! "folder" with
    | None => "general"
    | folder => to_str folder
    end in
  if negb (truthy fileType) || negb (truthy fileName)
  then Json 400 "File type and name are required"
  else if negb (includes allowedFileTypes fileType)
  then Json 400 "File type not allowed"
  else
    match fileName with
    | Some (Str fileName) =>
        let fileExtension := extension fileName in
        let uniqueFileName :=
          folder +:+ "/" +:+ uuid +:+ "." +:+ fileExtension in
        let params :=
          {| Bucket := bucket config; Key := uniqueFileName;
             ContentType := to_str fileType;
             Expires := signedUrlExpiration config; ACL := acl config |} in
        match getSignedUrl params with
        | inl error => Next error
        | inr signedUrl =>
            let fileUrl :=
              "https://" +:+ bucket config +:+ ".s3." +:+ region config
              +:+ ".amazonaws.com/" +:+ uniqueFileName in
            Signed signedUrl fileUrl uniqueFileName
        end
    | _ => Next (JsError "fileName.split is not a function")
    end.

End with_s3.

End UploadController.

(** ** Tokens for the examples *)

Module Tokens.
Import Js DynamoDb AuthMiddleware.

(** A verification that accepts the tokens of [Fixtures.sign] and
    rejects every other as malformed. *)
Definition verify (token : option string) : JwtError + obj :=
  match token with
  | Some token =>
      if String.prefix "token." token
      then inr {[ "id" := Str (String.substring 6 (String.length token - 6) token) ]}
      else inl {| name := "JsonWebTokenError"; message := "jwt malformed" |}
  | None =>
      inl {| name := "JsonWebTokenError"; message := "jwt must be provided" |}
  end.

End Tokens.

(** ** A bucket for the examples *)

Module Bucket.
Import Js DynamoDb UploadController.

Definition config : Config :=
  {| bucket := "files"; region := "eu-west-1";
     signedUrlExpiration := 300; acl := "private" |}.

(** A signing that answers with the key it was asked for. *)
Definition getSignedUrl (params : Params) : Error + string :=
  inr ("signed:" +:+ Key params).

End Bucket.

(** ** A table of two products for the examples *)

Module Catalogue.
Import Js DynamoDb Fixtures.


End Catalogue.

(** ** Regular expressions

    The patterns of [utils/validators.js] are anchored at both ends and
    use neither groups nor references: [regex.test(s)] says whether the
    whole of [s] is in the language of the pattern.  A string is here
    the sequence of its UTF-16 code units, as the patterns see it. *)

Module Regex.
Local Open Scope N_scope.

Abbreviation text := (list N).

Inductive re : Type :=
| Void
| Eps
| Class (p : N → bool)
| Cat (r1 r2 : re)
| Alt (r1 r2 : re)
| Star (r : re).

(** [r+] and [r{n}]. *)
Definition Plus (r : re) : re := Cat r (Star r).

Fixpoint Times (n : nat) (r : re) : re :=
  match n with
  | O => Eps
  | S n => Cat r (Times n r)
  end.

Fixpoint nullable (r : re) : bool :=
  match r with
  | Void => false
  | Eps => true
  | Class _ => false
  | Cat r1 r2 => nullable r1 && nullable r2
  | Alt r1 r2 => nullable r1 || nullable r2
  | Star _ => true
  end.

(** What is left of [r] after the code unit [c]. *)
Fixpoint deriv (c : N) (r : re) : re :=
  match r with
  | Void => Void
  | Eps => Void
  | Class p => if p c then Eps else Void
  | Cat r1 r2 =>
      Alt (Cat (deriv c r1) r2) (if nullable r1 then deriv c r2 else Void)
  | Alt r1 r2 => Alt (deriv c r1) (deriv c r2)
  | Star r => Cat (deriv c r) (Star r)
  end.

(** [/^r$/.test(s)]. *)
Fixpoint test (r : re) (s : text) : bool :=
  match s with
  | [] => nullable r
  | c :: s => test (deriv c r) s
  end.

(** The language of a pattern. *)
Fixpoint lang (r : re) (s : text) : Prop :=
  match r with
  | Void => False
  | Eps => s = []
  | Class p => ∃ c, s = [c] ∧ p c = true
  | Cat r1 r2 => ∃ s1 s2, s = s1 ++ s2 ∧ lang r1 s1 ∧ lang r2 s2
  | Alt r1 r2 => lang r1 s ∨ lang r2 s
  | Star r => ∃ ss, s = List.concat ss ∧ Forall (lang r) ss
  end.

(** [\s]: white space and line terminators. *)
Definition is_space (c : N) : bool :=
  ((9 <=? c) && (c <=? 13)) || (c =? 32) || (c =? 160) || (c =? 5760)
  || ((8192 <=? c) && (c <=? 8202)) || (c =? 8232) || (c =? 8233)
  || (c =? 8239) || (c =? 8287) || (c =? 12288) || (c =? 65279).

(** A class under the flag [i], for classes of ASCII characters. *)
Definition ignore_case (p : N → bool) (c : N) : bool :=
  p c
  || ((65 <=? c) && (c <=? 90) && p (c + 32))
  || ((97 <=? c) && (c <=? 122) && p (c - 32)).

(** The code units of a text of ASCII characters. *)
Definition units (s : string) : text :=
  N_of_ascii <$> list_ascii_of_string s.

End Regex.

(** ** [utils/validators.js]: the checks of strings *)

Module StringValidators.
Import Regex.
Local Open Scope N_scope.

(** [[^\s@]]. *)
Definition local_char (c : N) : bool := negb (is_space c) && negb (c =? 64).

(** [/^[^\s@]+@[^\s@]+\.[^\s@]+$/]. *)
Definition emailRegex : re :=
  Cat (Plus (Class local_char))
    (Cat (Class (N.eqb 64))
       (Cat (Plus (Class local_char))
          (Cat (Class (N.eqb 46)) (Plus (Class local_char))))).

Definition isValidEmail (email : text) : bool := test emailRegex email.

(** [[0-9a-f]], [[1-5]] and [[89ab]], under the flag [i]. *)
Definition hex : N → bool :=
  ignore_case (λ c, ((48 <=? c) && (c <=? 57)) || ((97 <=? c) && (c <=? 102))).
Definition version : N → bool :=
  ignore_case (λ c, (49 <=? c) && (c <=? 53)).
Definition variant : N → bool :=
  ignore_case (λ c, (c =? 56) || (c =? 57) || (c =? 97) || (c =? 98)).
Definition dash : N → bool := N.eqb 45.

(** [/^[0-9a-f]{8}-[0-9a-f]{4}-[1-5][0-9a-f]{3}-[89ab][0-9a-f]{3}-[0-9a-f]{12}$/i]. *)
Definition uuidRegex : re :=
  Cat (Times 8 (Class hex))
    (Cat (Class dash)
       (Cat (Times 4 (Class hex))
          (Cat (Class dash)
             (Cat (Class version)
                (Cat (Times 3 (Class hex))
                   (Cat (Class dash)
                      (Cat (Class variant)
                         (Cat (Times 3 (Class hex))
                            (Cat (Class dash)
                               (Times 12 (Class hex))))))))))).

Definition isValidUUID (uuid : text) : bool := test uuidRegex uuid.

(** The classes of the 36 positions of [uuidRegex], in order. *)
Definition uuid_shape : list (N → bool) :=
  replicate 8 hex ++ [dash] ++ replicate 4 hex ++ [dash] ++ [version]
  ++ replicate 3 hex ++ [dash] ++ [variant] ++ replicate 3 hex ++ [dash]
  ++ replicate 12 hex.

(** [str.replace(/<[^>]*>/g, "")].  A match starts at a [<] that a [>]
    follows somewhere, and ends at the first such [>]; the search goes on
    behind it.  [in_tag] says that the text read lies inside a match. *)
Fixpoint has_gt (s : text) : bool :=
  match s with
  | [] => false
  | c :: s => (c =? 62) || has_gt s
  end.

Fixpoint strip (in_tag : bool) (s : text) : text :=
  match s with
  | [] => []
  | c :: s =>
      if in_tag then strip (negb (c =? 62)) s
      else if (c =? 60) && has_gt s then strip true s
      else c :: strip false s
  end.

Definition strip_tags (s : text) : text := strip false s.

(** [s.trim()]. *)
Fixpoint trim_start (s : text) : text :=
  match s with
  | [] => []
  | c :: rest => if is_space c then trim_start rest else s
  end.

Definition trim (s : text) : text :=
  reverse (trim_start (reverse (trim_start s))).

(** [str] is [None] for [undefined] and [null]. *)
Definition sanitizeString (str : option text) : text :=
  match str with
  | None | Some [] => []
  | Some str => trim (strip_tags str)
  end.

(** No [<] of the text has a [>] behind it. *)
Fixpoint tag_free (s : text) : bool :=
  match s with
  | [] => true
  | c :: s => negb ((c =? 60) && has_gt s) && tag_free s
  end.

End StringValidators.

(** * Properties *)

(** ** Running programs *)

Section running.
Import Js DynamoDb.
Context (eng : Engine).

Lemma run_bind {A B} (p : Prog A) (f : A → Prog B) t :
  run eng (p ≫= f) t
  = match run eng p t with
    | (inr a, t') => run eng (f a) t'
    | (inl e, t') => (inl e, t')
    end.
Proof.
  revert t. induction p as [a|e|R req k IH]; intros t; try done.
  cbn. destruct (exec eng req t) as [r t']. apply IH.
Qed.

Lemma trace_bind {A B} (p : Prog A) (f : A → Prog B) t :
  trace eng (p ≫= f) t
  = trace eng p t
    ++ match run eng p t with
       | (inr a, t') => trace eng (f a) t'
       | (inl _, _) => []
       end.
Proof.
  revert t. induction p as [a|e|R req k IH]; intros t; try done.
  cbn. destruct (exec eng req t) as [r t']. cbn. f_equal. apply IH.
Qed.

Lemma run_try_catch {A} (p : Prog A) (h : Error → Prog A) t :
  run eng (try_catch p h) t
  = match run eng p t with
    | (inr a, t') => (inr a, t')
    | (inl e, t') => run eng (h e) t'
    end.
Proof.
  revert t. induction p as [a|e|R req k IH]; intros t; try done.
  cbn. destruct (exec eng req t) as [r t']. apply IH.
Qed.

Lemma trace_try_catch {A} (p : Prog A) (h : Error → Prog A) t :
  trace eng (try_catch p h) t
  = trace eng p t
    ++ match run eng p t with
       | (inr _, _) => []
       | (inl e, t') => trace eng (h e) t'
       end.
Proof.
  revert t. induction p as [a|e|R req k IH]; intros t; cbn.
  - done.
  - done.
  - destruct (exec eng req t) as [r t']. cbn. f_equal. apply IH.
Qed.

Lemma run_call {R} (req : Request R) t : run eng (call req) t = exec eng req t.
Proof. cbn. by destruct (exec eng req t) as [[e|r] t']. Qed.

Lemma trace_call {R} (req : Request R) t :
  trace eng (call req) t = [Ev req (exec eng req t).2].
Proof. cbn. by destruct (exec eng req t) as [[e|r] t']. Qed.

(** Reads leave the table alone. *)
Lemma exec_get pk sk t :
  exec eng (Get pk (SkStr sk)) t = (inr (t !! (pk, sk)), t).
Proof. done. Qed.

End running.

(** ** Strings and keys *)

Section keys.
Import Js DynamoDb.

Lemma append_cons c (s t : string) : String c s +:+ t = String c (s +:+ t).
Proof. reflexivity. Qed.

Lemma append_nil (t : string) : "" +:+ t = t.
Proof. reflexivity. Qed.

Lemma append_assoc (a b c : string) : (a +:+ b) +:+ c = a +:+ (b +:+ c).
Proof. induction a as [|x a IH]; [done|]. by rewrite !append_cons, IH. Qed.

Lemma prefix_append (p s : string) : String.prefix p (p +:+ s) = true.
Proof.
  induction p as [|c p IH]; [by destruct s|].
  rewrite append_cons. cbn. by destruct (ascii_dec c c).
Qed.

Lemma literal_lookup props k : literal props !! k = assoc k props.
Proof.
  unfold literal. induction props as [|[k' [v|]] props IH]; cbn.
  - done.
  - destruct (String.eqb_spec k' k) as [->|Hne].
    + by rewrite lookup_insert_eq.
    + by rewrite lookup_insert_ne.
  - destruct (String.eqb_spec k' k) as [->|Hne]; apply IH.
Qed.

Lemma key_of_literal pk sk rest :
  key_of (literal (("pk", Some (Str pk)) :: ("sk", Some (Str sk)) :: rest))
  = Some (pk, sk).
Proof. unfold key_of. by rewrite !literal_lookup. Qed.

End keys.

(** ** Transactions *)

Section transactions.
Import Js DynamoDb.

Lemma mapM_item_key_deletes (keys : list Key) :
  mapM item_key (TDelete <$> keys) = Some keys.
Proof. induction keys as [|k keys IH]; [done|]. cbn. by rewrite IH. Qed.

Lemma check_deletes (t : Table) (keys : list Key) :
  forallb (check t) (TDelete <$> keys) = true.
Proof. by induction keys. Qed.

Lemma foldl_apply_deletes (t : Table) (keys : list Key) :
  foldl apply_item t (TDelete <$> keys) = foldl (λ t k, delete k t) t keys.
Proof. revert t. induction keys as [|k keys IH]; intros t; [done|]. apply IH. Qed.

(** A transaction of deletes on distinct keys always commits. *)
Lemma transact_write_deletes (t : Table) (keys : list Key) :
  NoDup keys →
  transact_write (TDelete <$> keys) t
  = (inr (), foldl (λ t k, delete k t) t keys).
Proof.
  intros Hnd. unfold transact_write.
  rewrite mapM_item_key_deletes, bool_decide_eq_true_2 by done.
  cbn [negb]. by rewrite check_deletes, foldl_apply_deletes.
Qed.

(** A transaction leaves the table as it is, or applies all its items. *)
Lemma transact_write_all_or_nothing (items : list TransactItem) (t : Table) :
  transact_write items t = (inr (), foldl apply_item t items)
  ∨ ∃ e, transact_write items t = (inl e, t).
Proof.
  unfold transact_write. destruct (mapM item_key items); [|by eauto].
  destruct (negb _); [by eauto|].
  destruct (forallb _ items); by eauto.
Qed.

End transactions.

(** Two keys of different record families differ. *)
Ltac family_neq :=
  let H := fresh in
  intros H; inversion H; try (rewrite ?append_cons in *; discriminate).

(** ** Deleting a product *)

Section product_delete.
Import Js DynamoDb.
Context (eng : Engine).

Lemma delete_keys_distinct (productId userId category : string) :
  NoDup [ ("PRODUCT#" +:+ productId, "DETAILS#" +:+ productId);
          ("USER#" +:+ userId, "PRODUCT#" +:+ productId);
          ("CATEGORY#" +:+ category, "PRODUCT#" +:+ productId) ].
Proof.
  repeat (apply NoDup_cons; split); try apply NoDup_nil_2;
    rewrite ?not_elem_of_cons; repeat split;
    try apply not_elem_of_nil; family_neq.
Qed.

(** How [delete] ends. *)
Lemma product_delete_result (t : Table) (productId userId : string) :
  (run eng (ProductModel.delete productId userId) t).1
  = match t !! Invariant.primary productId with
    | None => inl (JsError "Product not found")
    | Some product =>
        if bool_decide (product !! "userId" = Some (Str userId))
        then inr true
        else inl (JsError "Unauthorized to delete this product")
    end.
Proof.
  unfold ProductModel.delete, ProductModel.findById, Invariant.primary.
  rewrite !run_bind, run_call, exec_get.
  destruct (t !! (_, _)) as [product|]; cbn [run mret Prog_ret fst]; [|done].
  destruct (decide (product !! "userId" = Some (Str userId))) as [Hu|Hu].
  2:{ by rewrite bool_decide_eq_true_2, bool_decide_eq_false_2. }
  rewrite bool_decide_eq_false_2 by (intros Hne; apply Hne, Hu).
  rewrite bool_decide_eq_true_2 by done.
  rewrite run_bind, run_call. cbn [exec].
  pose proof (delete_keys_distinct productId userId
                (to_str (product !! "category"))) as Hnd.
  destruct (truthy (product !! "category")); cbn [app].
  - pose proof (transact_write_deletes t _ Hnd) as Htw.
    cbn [fmap list_fmap] in Htw. by rewrite Htw.
  - assert (NoDup [ ("PRODUCT#" +:+ productId, "DETAILS#" +:+ productId);
                    ("USER#" +:+ userId, "PRODUCT#" +:+ productId) ]) as Hnd2.
    { apply NoDup_cons in Hnd as [Hx _].
      apply NoDup_cons. split; [|apply NoDup_singleton].
      intros Hin%list_elem_of_singleton. apply Hx, elem_of_cons. by left. }
    pose proof (transact_write_deletes t _ Hnd2) as Htw.
    cbn [fmap list_fmap] in Htw. by rewrite Htw.
Qed.

(** The handler does not reach [delete]: the object it holds as
    [ProductModel] has no member of that name. *)
Lemma deleteProduct_throws (t : Table) (productId userId : string) :
  run eng (Controllers.deleteProduct productId userId) t
  = (inr (Controllers.Next (JsError "ProductModel.delete is not a function")),
     t)
  ∧ trace eng (Controllers.deleteProduct productId userId) t = [].
Proof. split; reflexivity. Qed.

(** C5.  [ProductModel.delete] answers "Product not found" when the
    primary record is absent and "Unauthorized to delete this product"
    when the caller is not the owner; in both cases no write request is
    issued and the table is the one it started from.  Otherwise it
    succeeds, with one transaction that removes the primary record, the
    owner index record and, when the product has a category, the category
    index record, and nothing else. *)
Theorem product_delete_checks_then_removes
    (t : Table) (productId userId : string) :
  let primary := ("PRODUCT#" +:+ productId, "DETAILS#" +:+ productId) in
  let owner := ("USER#" +:+ userId, "PRODUCT#" +:+ productId) in
  let p := ProductModel.delete productId userId in
  match t !! primary with
  | None =>
      run eng p t = (inl (JsError "Product not found"), t)
      ∧ filter is_write (trace eng p t) = []
  | Some product =>
      let category :=
        ("CATEGORY#" +:+ to_str (product !! "category"),
         "PRODUCT#" +:+ productId) in
      if bool_decide (product !! "userId" = Some (Str userId))
      then
        let t' :=
          if truthy (product !! "category")
          then delete category (delete owner (delete primary t))
          else delete owner (delete primary t) in
        run eng p t = (inr true, t')
        ∧ t' !! primary = None
        ∧ t' !! owner = None
        ∧ (if truthy (product !! "category")
           then t' !! category = None else True)
        ∧ (∀ k, k ∉ [primary; owner; category] → t' !! k = t !! k)
        ∧ List.length (filter is_write (trace eng p t)) = 1%nat
      else
        run eng p t
        = (inl (JsError "Unauthorized to delete this product"), t)
        ∧ filter is_write (trace eng p t) = []
  end.
Proof.
  intros primary owner p. subst p.
  unfold ProductModel.delete, ProductModel.findById.
  rewrite !run_bind, !trace_bind, !run_bind, run_call, trace_call, exec_get.
  fold primary.
  destruct (t !! primary) as [product|] eqn:Hp;
    cbn [run trace mret Prog_ret snd app]; [|done].
  case_bool_decide as Hu; [|by rewrite bool_decide_eq_true_2].
  rewrite bool_decide_eq_false_2 by (intros Hne; apply Hne, Hu).
  rewrite run_bind, trace_bind, run_call, trace_call. cbn [exec].
  pose proof (delete_keys_distinct productId userId
                (to_str (product !! "category"))) as Hnd.
  assert (NoDup [primary; owner]) as Hnd2.
  { apply NoDup_cons in Hnd as [Hx _].
    apply NoDup_cons. split; [|apply NoDup_singleton].
    intros Hin%list_elem_of_singleton. apply Hx, elem_of_cons. by left. }
  pose proof (transact_write_deletes t _ Hnd) as Htw.
  pose proof (transact_write_deletes t _ Hnd2) as Htw2.
  apply NoDup_cons in Hnd as [Hp1 [Hp2 _]%NoDup_cons].
  repeat rewrite not_elem_of_cons in Hp1.
  repeat rewrite not_elem_of_cons in Hp2.
  destruct Hp1 as (? & ? & _), Hp2 as (? & _).
  subst primary owner. cbn [fmap list_fmap foldl] in Htw, Htw2.
  destruct (truthy (product !! "category")) eqn:Hc; cbn [app].
  - rewrite Htw. cbn. split_and!; try done.
    + by rewrite lookup_delete_ne, lookup_delete_ne, lookup_delete_eq.
    + by rewrite lookup_delete_ne, lookup_delete_eq.
    + apply lookup_delete_eq.
    + intros k Hk. rewrite !not_elem_of_cons in Hk.
      destruct Hk as (? & ? & ? & _). by rewrite !lookup_delete_ne.
  - rewrite Htw2. cbn. split_and!; try done.
    + by rewrite lookup_delete_ne, lookup_delete_eq.
    + apply lookup_delete_eq.
    + intros k Hk. rewrite !not_elem_of_cons in Hk.
      destruct Hk as (? & ? & ? & _). by rewrite !lookup_delete_ne.
Qed.

End product_delete.

(** ** The patch loop and the update expression *)

Section patching.
Import Js DynamoDb.
Context (g : string → bool).

Lemma fold_add_field_sets (l : list (string * value)) sets vals :
  (foldl (add_field g) (sets, vals) l).1
  = sets ++ (clause <$> filter (λ e, g e.1 = true) l).
Proof.
  revert sets vals. induction l as [|e l IH]; intros sets vals.
  - by rewrite app_nil_r.
  - cbn [foldl]. unfold add_field at 2. destruct (g e.1) eqn:Hg.
    + rewrite IH, filter_cons_True by done. cbn. by rewrite <- app_assoc.
    + rewrite filter_cons_False; [apply IH|]. cbn. congruence.
Qed.

Lemma fold_add_field_other (l : list (string * value)) sets vals ph :
  (∀ e, e ∈ l → g e.1 = true → ph ≠ ":" +:+ e.1) →
  (foldl (add_field g) (sets, vals) l).2 !! ph = vals !! ph.
Proof.
  revert sets vals. induction l as [|e l IH]; intros sets vals Hph; [done|].
  cbn [foldl]. unfold add_field at 2. destruct (g e.1) eqn:Hg.
  - rewrite IH by (intros; apply Hph; [by apply elem_of_cons; right|done]).
    cbn. apply lookup_insert_ne. intros Heq. eapply Hph; [|done..].
    apply list_elem_of_here.
  - apply IH. intros; apply Hph; [by apply elem_of_cons; right|done].
Qed.

Lemma fold_add_field_bound (l : list (string * value)) sets vals k v :
  NoDup l.*1 → (k, v) ∈ l → g k = true →
  (foldl (add_field g) (sets, vals) l).2 !! (":" +:+ k) = Some v.
Proof.
  revert sets vals. induction l as [|e l IH]; intros sets vals Hnd Hin Hg.
  - by apply elem_of_nil in Hin.
  - cbn [fmap list_fmap] in Hnd. apply NoDup_cons in Hnd as [Hfresh Hnd].
    apply elem_of_cons in Hin as [<-|Hin].
    + cbn [foldl]. unfold add_field at 2. cbn [fst snd]. rewrite Hg.
      rewrite fold_add_field_other; [apply lookup_insert_eq|].
      intros e He _ Heq. apply String.app_inj in Heq. apply Hfresh.
      cbn [fst]. rewrite Heq. by apply (list_elem_of_fmap_2 fst).
    + cbn [foldl]. unfold add_field at 2. destruct (g e.1); by apply IH.
Qed.

(** The expression the loop builds from a patch. *)
Lemma patch_sets now updates :
  (patch g now updates).1
  = ("updatedAt", ":updatedAt")
    :: (clause <$> filter (λ e, g e.1 = true) (entries updates)).
Proof. unfold patch. by rewrite fold_add_field_sets. Qed.

Lemma patch_targets now updates a :
  a ∈ (patch g now updates).1.*1 ↔
  a = "updatedAt" ∨ (g a = true ∧ is_Some (updates !! a)).
Proof.
  rewrite patch_sets. cbn [fmap list_fmap fst]. rewrite elem_of_cons.
  apply or_iff_compat_l. rewrite <- list_fmap_compose. split.
  - intros ([k v] & -> & [Hg Hin]%list_elem_of_filter)%list_elem_of_fmap.
    split; [done|]. apply elem_of_map_to_list in Hin. by exists v.
  - intros [Hg [v Hv]]. apply list_elem_of_fmap. exists (a, v).
    split; [done|]. apply list_elem_of_filter. split; [done|].
    by apply elem_of_map_to_list.
Qed.

Lemma patch_values now updates k v :
  updates !! k = Some v → g k = true →
  (patch g now updates).2 !! (":" +:+ k) = Some v.
Proof.
  intros Hk Hg. unfold patch. apply fold_add_field_bound; [|by apply elem_of_map_to_list|done].
  apply NoDup_fst_map_to_list.
Qed.

Lemma patch_updatedAt now updates :
  is_Some ((patch g now updates).2 !! ":updatedAt").
Proof.
  destruct (updates !! "updatedAt") as [v|] eqn:Hu;
    destruct (g "updatedAt") eqn:Hg.
  - exists v. by apply (patch_values now updates "updatedAt").
  - exists (Str now). unfold patch. rewrite fold_add_field_other; [done|].
    intros e He Hge Heq. apply (String.app_inj ":" "updatedAt") in Heq.
    congruence.
  - exists (Str now). unfold patch. rewrite fold_add_field_other; [done|].
    intros [k w] He Hge Heq. apply (String.app_inj ":" "updatedAt") in Heq.
    cbn in Heq. subst k. apply elem_of_map_to_list in He. congruence.
  - exists (Str now). unfold patch. rewrite fold_add_field_other; [done|].
    intros e He Hge Heq. apply (String.app_inj ":" "updatedAt") in Heq.
    congruence.
Qed.

Lemma patch_well_formed now updates a ph :
  (a, ph) ∈ (patch g now updates).1 →
  ph = ":" +:+ a ∧ is_Some ((patch g now updates).2 !! ph).
Proof.
  rewrite patch_sets. intros [Heq|Hin]%elem_of_cons.
  - injection Heq as -> ->. split; [done|apply patch_updatedAt].
  - apply list_elem_of_fmap in Hin as ([k v] & Heq & [Hg Hin]%list_elem_of_filter).
    injection Heq as -> ->. split; [done|]. exists v.
    apply patch_values; [by apply elem_of_map_to_list|done].
Qed.

End patching.

Section applying.
Import Js DynamoDb.

Lemma apply_sets_is_Some sets vals (it : Item) :
  (∀ a ph, (a, ph) ∈ sets → is_Some (vals !! ph)) →
  is_Some (apply_sets sets vals it).
Proof.
  revert it. induction sets as [|[a ph] sets IH]; intros it Hb; [by eexists|].
  cbn. destruct (Hb a ph) as [v ->]; [apply list_elem_of_here|].
  apply IH. intros a' ph' Hin. eapply Hb. by apply elem_of_cons; right.
Qed.

Lemma apply_sets_lookup sets vals (it it' : Item) a :
  (∀ a ph, (a, ph) ∈ sets → ph = ":" +:+ a) →
  apply_sets sets vals it = Some it' →
  it' !! a = if bool_decide (a ∈ sets.*1) then vals !! (":" +:+ a)
             else it !! a.
Proof.
  revert it. induction sets as [|[a0 ph0] sets IH]; intros it Hwf Happ.
  - cbn in Happ. by injection Happ as ->.
  - cbn in Happ. destruct (vals !! ph0) as [v|] eqn:Hv; [|done].
    rewrite (IH _ (λ a ph Hin, Hwf a ph (proj2 (elem_of_cons _ _ _) (or_intror Hin))) Happ).
    pose proof (Hwf a0 ph0 (list_elem_of_here _ _)) as ->.
    cbn [fmap list_fmap fst]. destruct (decide (a = a0)) as [->|Hne].
    + rewrite (bool_decide_eq_true_2 (a0 ∈ a0 :: _)) by apply list_elem_of_here.
      case_bool_decide; [done|]. by rewrite lookup_insert_eq.
    + rewrite lookup_insert_ne by done.
      destruct (decide (a ∈ sets.*1)) as [Hin|Hnin].
      * rewrite !bool_decide_eq_true_2; [done|by apply elem_of_cons; right|done].
      * rewrite !bool_decide_eq_false_2; [done| |done].
        by intros [?|?]%elem_of_cons.
Qed.

End applying.

(** ** Reading through an index *)

Section reading.
Import Js DynamoDb Invariant.
Context (eng : Engine).

Lemma elem_of_in_order (t : Table) (k : Key) (it : Item) :
  (k, it) ∈ in_order t ↔ t !! k = Some it.
Proof.
  unfold in_order. rewrite merge_sort_Permutation.
  apply elem_of_map_to_list.
Qed.

Lemma elem_of_query (pk : string) (pre : option string) (t : Table) (it : Item) :
  it ∈ query pk pre t ↔ ∃ k, t !! k = Some it ∧ key_matches pk pre k = true.
Proof.
  unfold query. rewrite list_elem_of_fmap. split.
  - intros ([k it'] & -> & [Hm Hin]%list_elem_of_filter).
    exists k. split; [by apply elem_of_in_order|done].
  - intros (k & Hk & Hm). exists (k, it). split; [done|].
    apply list_elem_of_filter. split; [done|by apply elem_of_in_order].
Qed.

Lemma run_product_findById (productId : string) (t : Table) :
  run eng (ProductModel.findById productId) t = (inr (t !! primary productId), t).
Proof.
  unfold ProductModel.findById. rewrite run_bind, run_call, exec_get.
  fold (primary productId). by destruct (t !! primary productId).
Qed.

Lemma trace_product_findById (productId : string) (t : Table) :
  filter is_write (trace eng (ProductModel.findById productId) t) = [].
Proof.
  unfold ProductModel.findById. rewrite trace_bind, run_call, trace_call, exec_get.
  by destruct (t !! _).
Qed.

Lemma run_resolve (items acc : list Item) (t : Table) :
  run eng (ProductModel.resolve items acc) t
  = (inr (acc ++ omap (referenced_product t) items), t).
Proof.
  revert acc. induction items as [|item items IH]; intros acc.
  - cbn. by rewrite app_nil_r.
  - cbn [ProductModel.resolve]. rewrite run_bind, run_product_findById.
    cbn [omap list_omap]. unfold referenced_product at 1.
    destruct (t !! primary _) as [p|]; rewrite IH; [|done].
    by rewrite <- app_assoc.
Qed.

Lemma run_findByUserId (userId : string) (t : Table) :
  run eng (ProductModel.findByUserId userId) t
  = (inr (omap (referenced_product t)
            (query ("USER#" +:+ userId) (Some "PRODUCT#") t)), t).
Proof.
  unfold ProductModel.findByUserId. rewrite run_bind, run_call. cbn [exec].
  destruct (query _ _ t) as [|i items]; [done|]. apply run_resolve.
Qed.

Lemma run_findByCategory (category : string) (t : Table) :
  run eng (ProductModel.findByCategory category) t
  = (inr (omap (referenced_product t)
            (query ("CATEGORY#" +:+ category) (Some "PRODUCT#") t)), t).
Proof.
  unfold ProductModel.findByCategory. rewrite run_bind, run_call. cbn [exec].
  destruct (query _ _ t) as [|i items]; [done|]. apply run_resolve.
Qed.

Context (bcrypt : Bcrypt.Impl).

Lemma run_user_findById (userId : string) (t : Table) :
  run eng (UserModel.findById userId) t
  = (inr (without "password" <$> t !! profile userId), t).
Proof.
  unfold UserModel.findById. rewrite run_bind, run_call, exec_get.
  fold (profile userId). by destruct (t !! profile userId).
Qed.

Lemma run_findByEmail (email : string) (t : Table) :
  run eng (UserModel.findByEmail email) t
  = (match get_begins_with eng t ("EMAIL#" +:+ email) "USER#" with
     | inl e => inl e
     | inr None => inr None
     | inr (Some index) => inr (without "password" <$> referenced_user t index)
     end, t).
Proof.
  unfold UserModel.findByEmail. rewrite run_bind, run_call. cbn [exec].
  destruct (get_begins_with eng t _ _) as [e|[index|]]; [done| |done].
  apply run_user_findById.
Qed.

(** C4.  A lookup by owner or by category returns, for every index
    record the query yields, the primary record it points to when that
    record is stored, and nothing when it is missing: what they return
    is always a stored primary record.  The lookup by email is written
    to do the same, but its request is a [get] whose sort key is the
    object [{ begins_with: "USER#" }].  The sort key of the table is a
    string, and a store that holds the key of a [get] to the schema of
    the table refuses the request: [findByEmail] then raises
    [ValidationException] for every address on every table, whether the
    index record and the profile are stored or not, and returns [null]
    for none. *)
Theorem email_lookup_of_a_dangling_record_raises (t : Table) :
  (∀ (t : Table) (pk p : string),
     get_begins_with eng t pk p = inl ValidationException) →
  (∀ userId : string,
     run eng (ProductModel.findByUserId userId) t
     = (inr (omap (referenced_product t)
               (query ("USER#" +:+ userId) (Some "PRODUCT#") t)), t))
  ∧ (∀ category : string,
       run eng (ProductModel.findByCategory category) t
       = (inr (omap (referenced_product t)
                 (query ("CATEGORY#" +:+ category) (Some "PRODUCT#") t)), t))
  ∧ (∀ email : string,
       run eng (UserModel.findByEmail email) t = (inl ValidationException, t)).
Proof.
  intros Hrefused. split_and!.
  - intros userId. apply run_findByUserId.
  - intros category. apply run_findByCategory.
  - intros email. by rewrite run_findByEmail, Hrefused.
Qed.

End reading.

Section reading_examples.
Import Js DynamoDb Invariant Fixtures.

(** In [orphaned] the index record of [a@x.com] is stored and the
    profile it names is not; the lookup of that address raises. *)
Lemma email_lookup_of_a_dangling_record_raises_witness :
  (orphaned !! ("EMAIL#a@x.com", "USER#u1") ≫= (.!! "id")) = Some (Str "u1")
  ∧ orphaned !! profile "u1" = None
  ∧ run strict (UserModel.findByEmail "a@x.com") orphaned
    = (inl ValidationException, orphaned).
Proof.
  split; [compute_done|]. split; [compute_done|].
  destruct (email_lookup_of_a_dangling_record_raises strict orphaned
              (λ _ _ _, eq_refl)) as (_ & _ & Hemail).
  exact (Hemail "a@x.com").
Defined.

End reading_examples.

(** ** Updating a product *)

Section product_update.
Import Js DynamoDb Invariant.
Context (eng : Engine).

Lemma product_patchable_category : ProductModel.patchable "category" = true.
Proof. reflexivity. Qed.

(** The request that patches the primary record. *)
Lemma exec_patch (g : string → bool) (now : string) (updates : obj)
    (k : Key) (t : Table) :
  let sets := (patch g now updates).1 in
  let vals := (patch g now updates).2 in
  exec eng (Update k sets vals) t = (inl ValidationException, t)
  ∨ ∃ it, exec eng (Update k sets vals) t = (inr it, <[k := it]> t)
          ∧ apply_sets sets vals (default (key_item k) (t !! k)) = Some it.
Proof.
  intros sets vals. cbn [exec].
  destruct (refuses_update eng k sets vals); [by left|].
  destruct (apply_sets_is_Some sets vals (default (key_item k) (t !! k)))
    as [it Hit].
  { intros a ph Hin. by apply (patch_well_formed g now updates a ph). }
  right. exists it. by rewrite Hit.
Qed.

Lemma run_update_found (t : Table) (productId userId now : string)
    (updates : obj) (product : Item) :
  t !! primary productId = Some product →
  product !! "userId" = Some (Str userId) →
  run eng (ProductModel.update productId updates userId now) t
  = match run eng (ProductModel.handle_category productId updates product) t with
    | (inr _, t1) =>
        exec eng (Update (primary productId)
                    (patch ProductModel.patchable now updates).1
                    (patch ProductModel.patchable now updates).2) t1
    | (inl e, t1) => (inl e, t1)
    end.
Proof.
  intros Hp Hu. unfold ProductModel.update.
  rewrite run_bind, run_product_findById, Hp.
  rewrite bool_decide_eq_false_2 by (intros Hne; apply Hne, Hu).
  destruct (patch ProductModel.patchable now updates) as [sets vals].
  rewrite run_bind. cbn [fst snd].
  destruct (run eng (ProductModel.handle_category _ _ _) t) as [[e|[]] t1];
    [done|]. apply run_call.
Qed.

Lemma trace_update_found (t : Table) (productId userId now : string)
    (updates : obj) (product : Item) :
  t !! primary productId = Some product →
  product !! "userId" = Some (Str userId) →
  trace eng (ProductModel.update productId updates userId now) t
  = trace eng (ProductModel.findById productId) t
    ++ trace eng (ProductModel.handle_category productId updates product) t
    ++ match run eng (ProductModel.handle_category productId updates product) t with
       | (inr _, t1) =>
           [Ev (Update (primary productId)
                  (patch ProductModel.patchable now updates).1
                  (patch ProductModel.patchable now updates).2)
               (exec eng (Update (primary productId)
                  (patch ProductModel.patchable now updates).1
                  (patch ProductModel.patchable now updates).2) t1).2]
       | (inl e, t1) => []
       end.
Proof.
  intros Hp Hu. unfold ProductModel.update.
  rewrite trace_bind, run_product_findById, Hp.
  rewrite bool_decide_eq_false_2 by (intros Hne; apply Hne, Hu).
  destruct (patch ProductModel.patchable now updates) as [sets vals].
  rewrite trace_bind. cbn [fst snd].
  destruct (run eng (ProductModel.handle_category _ _ _) t) as [[e|[]] t1];
    [done|]. by rewrite trace_call.
Qed.

Lemma run_update_rejected (t : Table) (productId userId now : string)
    (updates : obj) :
  match t !! primary productId with
  | Some product => product !! "userId" ≠ Some (Str userId)
  | None => True
  end →
  (run eng (ProductModel.update productId updates userId now) t).2 = t
  ∧ (∃ e, (run eng (ProductModel.update productId updates userId now) t).1 = inl e)
  ∧ filter is_write
      (trace eng (ProductModel.update productId updates userId now) t) = [].
Proof.
  intros Hrej. unfold ProductModel.update.
  rewrite run_bind, trace_bind, run_product_findById, filter_app,
    trace_product_findById.
  destruct (t !! primary productId) as [product|]; [|by eauto].
  rewrite bool_decide_eq_true_2 by done. by eauto.
Qed.

(** C10.  When the patch carries no category, or [null], or the empty
    string, [update] issues no write besides the patch of the primary
    record, so every other record, the category index records
    included, stays as it was; the patch itself still writes the
    category it is given.  After a successful update the product is
    therefore still returned by [findByCategory] under every category
    it was indexed under. *)
Theorem clearing_category_keeps_index_record (t : Table)
    (productId userId now : string) (updates : obj) :
  let p := ProductModel.update productId updates userId now in
  truthy (updates !! "category") = false →
  (∀ k, k ≠ primary productId → (run eng p t).2 !! k = t !! k)
  ∧ (∀ w, w ∈ filter is_write (trace eng p t) →
       ∃ sets vals t1, w = Ev (Update (primary productId) sets vals) t1)
  ∧ (∀ item, (run eng p t).1 = inr item →
       (run eng p t).2 !! primary productId = Some item
       ∧ (∀ v, updates !! "category" = Some v → item !! "category" = Some v)
       ∧ (∀ (C : string) (index : Item),
            t !! ("CATEGORY#" +:+ C, "PRODUCT#" +:+ productId) = Some index →
            index !! "id" = Some (Str productId) →
            ∃ products,
              run eng (ProductModel.findByCategory C) (run eng p t).2
              = (inr products, (run eng p t).2)
              ∧ item ∈ products)).
Proof.
  intros p Hc. subst p.
  destruct (t !! primary productId) as [product|] eqn:Hp.
  2:{ destruct (run_update_rejected t productId userId now updates)
        as (Ht & [e He] & Hw); [by rewrite Hp|].
      rewrite Ht, He, Hw. split_and!; [done|by intros w ?%elem_of_nil|done]. }
  destruct (decide (product !! "userId" = Some (Str userId))) as [Hu|Hu].
  2:{ destruct (run_update_rejected t productId userId now updates)
        as (Ht & [e He] & Hw); [by rewrite Hp|].
      rewrite Ht, He, Hw. split_and!; [done|by intros w ?%elem_of_nil|done]. }
  rewrite (run_update_found t _ _ _ _ product Hp Hu),
    (trace_update_found t _ _ _ _ product Hp Hu).
  unfold ProductModel.handle_category. rewrite Hc.
  cbn [andb run trace app mret Prog_ret].
  rewrite !filter_app, trace_product_findById. cbn [app].
  pose proof (exec_patch ProductModel.patchable now updates
                (primary productId) t) as Hex.
  cbv zeta in Hex.
  destruct Hex as [Hex|(it & Hex & Hit)]; rewrite Hex; cbn [fst snd filter].
  - split_and!; [done| |done].
    intros w [->|[]%elem_of_nil]%elem_of_cons. by eauto.
  - split_and!.
    + intros k Hk. by rewrite lookup_insert_ne.
    + intros w [->|[]%elem_of_nil]%elem_of_cons. by eauto.
    + intros item [= <-]. split_and!.
      * apply lookup_insert_eq.
      * intros v Hv.
        rewrite (apply_sets_lookup _ _ _ _ "category"
                   (λ a ph Hin, proj1 (patch_well_formed _ _ _ a ph Hin)) Hit).
        rewrite bool_decide_eq_true_2.
        -- by apply patch_values.
        -- apply patch_targets. right. split; [done|by eexists].
      * intros C index Hidx Hid. eexists. split; [apply run_findByCategory|].
        apply list_elem_of_omap. exists index. split.
        -- apply elem_of_query. eexists. split.
           ++ rewrite lookup_insert_ne; [done|]. unfold primary. family_neq.
           ++ unfold key_matches. cbn [fst snd].
              by rewrite String.eqb_refl, prefix_append.
        -- unfold referenced_product. rewrite Hid. cbn [to_str].
           apply lookup_insert_eq.
Qed.

End product_update.

(** ** The two writes of a category change *)

Section category_change.
Import Js DynamoDb Invariant Fixtures.

(** The index records are changed by at most one request. *)
Lemma handle_category_one_request (eng : Engine) (t : Table)
    (productId : string) (updates product : obj) :
  (List.length (trace eng (ProductModel.handle_category productId updates product) t)
   ≤ 1)%nat.
Proof.
  unfold ProductModel.handle_category.
  destruct (_ && _); [|cbn; lia].
  destruct (truthy (product !! "category")); rewrite trace_call; cbn; lia.
Qed.

(** The table between the two writes of an update that moves a product
    from one category to another: the index records have moved, under
    a primary record that is still the one found. *)
Lemma category_change_first_write (eng : Engine) (t : Table)
    (productId userId now : string) (updates : obj) (product : Item) :
  t !! primary productId = Some product →
  product !! "userId" = Some (Str userId) →
  truthy (updates !! "category") = true →
  truthy (product !! "category") = true →
  to_str (updates !! "category") ≠ to_str (product !! "category") →
  ∃ t1,
    states eng (ProductModel.update productId updates userId now) t !! 1%nat
    = Some t1
    ∧ t1 !! primary productId = Some product
    ∧ t1 !! category_key (product !! "category") productId = None
    ∧ is_Some (t1 !! category_key (updates !! "category") productId).
Proof.
  intros Hp Hu Hnew Hold Hne. unfold states.
  rewrite (trace_update_found eng t _ _ _ _ product Hp Hu).
  unfold ProductModel.findById. rewrite trace_bind, trace_call, run_call, exec_get.
  fold (primary productId). rewrite Hp. cbn [trace mret Prog_ret app snd].
  unfold ProductModel.handle_category. rewrite Hnew, Hold.
  rewrite bool_decide_eq_true_2 by congruence. cbn [andb].
  rewrite trace_call. cbn [exec app fmap list_fmap lookup list_lookup after].
  unfold transact_write. cbn [mapM item_key]. rewrite key_of_literal.
  cbn [mbind option_bind mret option_ret].
  fold (category_key (product !! "category") productId).
  fold (category_key (updates !! "category") productId).
  assert (category_key (product !! "category") productId
          ≠ category_key (updates !! "category") productId) as Hkeys.
  { unfold category_key. intros [= Heq]. by apply String.app_inj in Heq. }
  rewrite bool_decide_eq_true_2.
  2:{ apply NoDup_cons. split; [|apply NoDup_singleton].
      by intros ?%list_elem_of_singleton. }
  cbn [negb forallb check holds andb foldl apply_item snd].
  rewrite key_of_literal. fold (category_key (updates !! "category") productId).
  eexists. split; [done|]. split_and!.
  - rewrite lookup_insert_ne, lookup_delete_ne; [done|..];
      unfold primary, category_key; family_neq.
  - rewrite lookup_insert_ne by (by apply not_eq_sym). apply lookup_delete_eq.
  - rewrite lookup_insert_eq. by eexists.
Qed.

(** C1, at the update of product [p1] from category [A] to category
    [B] by its owner.  The table before the update has the primary
    record and the category index in agreement.  The update issues the
    transaction on the index records first and the patch of the primary
    record as a second, later request: the table after the first of the
    two has [p1] indexed under [B] only, while its primary record is
    untouched and still says [A]. *)
Theorem category_change_is_not_one_atomic_unit (eng : Engine) :
  let p := ProductModel.update "p1" {[ "category" := Str "B" ]} "u1" "T1" in
  agrees "p1" shop = true
  ∧ states eng p shop !! 1%nat = Some shop_moving
  ∧ shop_moving !! primary "p1" = shop !! primary "p1"
  ∧ (shop_moving !! primary "p1" ≫= (.!! "category")) = Some (Str "A")
  ∧ category_index "p1" shop_moving = [("CATEGORY#B", "PRODUCT#p1")]
  ∧ agrees "p1" shop_moving = false.
Proof.
  split_and!; [compute_done| |compute_done..].
  pose (product := default ∅ (shop !! primary "p1")).
  assert (shop !! primary "p1" = Some product) as Hp by compute_done.
  assert (product !! "userId" = Some (Str "u1")) as Hu by compute_done.
  unfold states.
  rewrite (trace_update_found eng shop "p1" "u1" "T1" _ product Hp Hu).
  unfold ProductModel.findById. rewrite trace_bind, trace_call, run_call, exec_get.
  fold (primary "p1"). rewrite Hp. cbn [trace mret Prog_ret app snd].
  unfold ProductModel.handle_category.
  replace (truthy (_ !! "category") && bool_decide (_ ≠ product !! "category"))
    with true by compute_done.
  replace (truthy (product !! "category")) with true by compute_done.
  rewrite trace_call. cbn [exec app fmap list_fmap lookup list_lookup after].
  compute_done.
Qed.

End category_change.

(** ** Examples *)

Section examples.
Import Js DynamoDb Invariant Fixtures.

(** After [p1] has had its category cleared, the lookup under its old
    category [A] still finds it. *)
Lemma clearing_category_keeps_index_record_witness :
  truthy (({[ "category" := Null ]} : obj) !! "category") = false
  ∧ ∀ item,
      (run strict (ProductModel.update "p1" {[ "category" := Null ]} "u1" "T1")
         shop).1 = inr item →
      item !! "category" = Some Null
      ∧ ∃ products,
          run strict (ProductModel.findByCategory "A")
            (run strict
               (ProductModel.update "p1" {[ "category" := Null ]} "u1" "T1")
               shop).2
          = (inr products,
             (run strict
                (ProductModel.update "p1" {[ "category" := Null ]} "u1" "T1")
                shop).2)
          ∧ item ∈ products.
Proof.
  assert (truthy (({[ "category" := Null ]} : obj) !! "category") = false)
    as Hc by (vm_compute; reflexivity).
  split; [exact Hc|]. intros item Hitem.
  destruct (clearing_category_keeps_index_record strict shop "p1" "u1" "T1"
              {[ "category" := Null ]} Hc) as (_ & _ & H).
  destruct (H item Hitem) as (_ & Hcat & Hfind).
  split; [by apply Hcat|].
  apply (Hfind "A" {[ "pk" := Str "CATEGORY#A"; "sk" := Str "PRODUCT#p1";
                      "id" := Str "p1" ]}); compute_done.
Defined.

(** The update of the example does succeed. *)
Lemma clearing_category_succeeds :
  is_Some (returned (run strict
     (ProductModel.update "p1" {[ "category" := Null ]} "u1" "T1") shop)).
Proof. compute_done. Qed.

End examples.


(** ** What the user adapter returns *)

Section user_adapter.
Import Js DynamoDb Invariant.
Context (eng : Engine) (bcrypt : Bcrypt.Impl).

Lemma without_password (it : Item) : without "password" it !! "password" = None.
Proof. apply lookup_delete_eq. Qed.

Lemma user_keys_distinct (userId email : string) :
  NoDup [ profile userId; ("EMAIL#" +:+ email, "USER#" +:+ userId) ].
Proof.
  apply NoDup_cons. split; [|apply NoDup_singleton].
  intros Hin%list_elem_of_singleton. revert Hin. unfold profile. family_neq.
Qed.

(** What [create] does once the password is a string. *)
Lemma run_user_create (t : Table) (userData : obj)
    (userId now salt password : string) :
  userData !! "password" = Some (Str password) →
  ∃ item index,
    key_of item = Some (profile userId)
    ∧ key_of index
      = Some ("EMAIL#" +:+ to_str (userData !! "email"), "USER#" +:+ userId)
    ∧ item !! "password" = Some (Str (Bcrypt.hash bcrypt password salt))
    ∧ (∀ a, a ≠ "id" → a ≠ "pk" → a ≠ "sk" → index !! a = None)
    ∧ trace eng (UserModel.create bcrypt userData userId now salt) t
      = [Ev (TransactWrite [ TPut item (AttributeNotExists ["pk"]);
                             TPut index (AttributeNotExists ["pk"]) ])
            (run eng (UserModel.create bcrypt userData userId now salt) t).2]
    ∧ run eng (UserModel.create bcrypt userData userId now salt) t
      = if holds (AttributeNotExists ["pk"]) (t !! profile userId)
           && holds (AttributeNotExists ["pk"])
                (t !! ("EMAIL#" +:+ to_str (userData !! "email"),
                       "USER#" +:+ userId))
        then (inr (without "password" item),
              <[("EMAIL#" +:+ to_str (userData !! "email"), "USER#" +:+ userId)
                  := index]> (<[profile userId := item]> t))
        else (inl (JsError "User with this email already exists"), t).
Proof.
  intros Hpw. unfold UserModel.create. rewrite Hpw.
  set (item := literal (("pk", _) :: ("sk", _) :: _)).
  set (index := literal (("pk", Some (Str ("EMAIL#" +:+ _))) :: _)).
  assert (key_of item = Some (profile userId)) as Hki by apply key_of_literal.
  assert (key_of index
          = Some ("EMAIL#" +:+ to_str (userData !! "email"), "USER#" +:+ userId))
    as Hkx by apply key_of_literal.
  exists item, index. split_and!; [done|done| | | |].
  - subst item. by rewrite literal_lookup.
  - intros a Ha1 Ha2 Ha3. subst index. rewrite literal_lookup. cbn [assoc].
    destruct (String.eqb_spec "pk" a); [congruence|].
    destruct (String.eqb_spec "sk" a); [congruence|].
    destruct (String.eqb_spec "id" a); [congruence|done].
  - rewrite trace_try_catch, trace_bind, trace_call, run_try_catch, !run_bind, run_call.
    cbn [exec app]. unfold transact_write. cbn [mapM item_key].
    rewrite Hki, Hkx. cbn [mbind option_bind mret option_ret].
    rewrite bool_decide_eq_true_2 by apply user_keys_distinct.
    cbn [negb forallb check]. rewrite Hki, Hkx. cbn [mbind option_bind].
    destruct (holds _ (t !! profile userId)); [|done].
    cbn [andb]. by destruct (holds _ (t !! (_, _))).
  - rewrite run_try_catch, run_bind, run_call.
    cbn [exec]. unfold transact_write. cbn [mapM item_key].
    rewrite Hki, Hkx. cbn [mbind option_bind mret option_ret].
    rewrite bool_decide_eq_true_2 by apply user_keys_distinct.
    cbn [negb forallb check]. rewrite Hki, Hkx. cbn [mbind option_bind].
    destruct (holds _ (t !! profile userId)); [|done].
    cbn [andb]. destruct (holds _ (t !! (_, _))); [|done].
    cbn [foldl apply_item]. by rewrite Hki, Hkx.
Qed.

Lemma run_user_update_returns (t : Table) (userId now salt : string)
    (updates : obj) :
  match (run eng (UserModel.update bcrypt userId updates now salt) t).1 with
  | inr user => user !! "password" = None
  | inl _ => True
  end.
Proof.
  unfold UserModel.update. rewrite run_bind, run_user_findById.
  destruct (t !! profile userId) as [stored|]; [|done].
  cbn [fmap option_fmap option_map]. rewrite run_bind.
  destruct (run eng (if truthy (updates !! "password") then _ else _) t)
    as [[e|acc] t1]; [done|].
  rewrite run_bind, run_call.
  destruct (exec eng (Update _ _ _) t1) as [[e|result] t2]; [done|].
  apply without_password.
Qed.

Lemma run_validateCredentials_returns (t : Table) (email password : string) :
  match (run eng (UserModel.validateCredentials bcrypt email password) t).1 with
  | inr (Some user) => user !! "password" = None
  | _ => True
  end.
Proof.
  unfold UserModel.validateCredentials. rewrite run_bind, run_call.
  destruct (exec eng (Query _ _ _) t) as [[e|[|first rest]] t1]; [done..|].
  rewrite run_bind, run_call, exec_get.
  destruct (t1 !! _) as [user|]; [|done].
  destruct (user !! "password") as [[| | |hashed]|]; try done.
  destruct (Bcrypt.compare bcrypt password hashed); [|done].
  apply without_password.
Qed.

(** C6.  Whatever [create], [findById], [findByEmail], [update] and
    [validateCredentials] of the user adapter return carries no
    [password] property; the primary record that [create] has stored
    does carry the hash. *)
Theorem user_adapter_never_returns_password (t : Table) :
  (∀ (userData : obj) (userId now salt : string),
     match run eng (UserModel.create bcrypt userData userId now salt) t with
     | (inr user, t') =>
         user !! "password" = None
         ∧ ∃ hashed,
             (t' !! profile userId ≫= (.!! "password")) = Some (Str hashed)
     | (inl _, _) => True
     end)
  ∧ (∀ userId : string,
       match (run eng (UserModel.findById userId) t).1 with
       | inr (Some user) => user !! "password" = None
       | _ => True
       end)
  ∧ (∀ email : string,
       match (run eng (UserModel.findByEmail email) t).1 with
       | inr (Some user) => user !! "password" = None
       | _ => True
       end)
  ∧ (∀ (userId : string) (updates : obj) (now salt : string),
       match (run eng (UserModel.update bcrypt userId updates now salt) t).1 with
       | inr user => user !! "password" = None
       | inl _ => True
       end)
  ∧ (∀ email password : string,
       match (run eng (UserModel.validateCredentials bcrypt email password) t).1 with
       | inr (Some user) => user !! "password" = None
       | _ => True
       end).
Proof.
  split_and!.
  - intros userData userId now salt.
    destruct (userData !! "password") as [[| | |password]|] eqn:Hpw;
      try (by unfold UserModel.create; rewrite Hpw).
    destruct (run_user_create t userData userId now salt password Hpw)
      as (item & index & Hki & Hkx & Hpass & _ & _ & ->).
    destruct (_ && _); [|done]. split; [apply without_password|].
    exists (Bcrypt.hash bcrypt password salt).
    rewrite lookup_insert_ne, lookup_insert_eq; [done|].
    intros Heq. pose proof (user_keys_distinct userId (to_str (userData !! "email"))) as Hnd.
    apply NoDup_cons in Hnd as [Hnd _]. apply Hnd. rewrite <- Heq.
    apply list_elem_of_here.
  - intros userId. rewrite run_user_findById. cbn [fst].
    destruct (t !! profile userId); [apply without_password|done].
  - intros email. rewrite run_findByEmail. cbn [fst].
    destruct (get_begins_with eng t _ _) as [e|[index|]]; try done.
    destruct (referenced_user t index); [apply without_password|done].
  - intros userId updates now salt. apply run_user_update_returns.
  - intros email password. apply run_validateCredentials_returns.
Qed.

End user_adapter.

Section user_examples.
Import Js DynamoDb Invariant Fixtures.

(** The calls of the user adapter do return users: the table [users]
    holds the hash of the password of [u1], and [findById] and [update]
    return her record without it. *)
Lemma user_adapter_returns_users :
  (users !! profile "u1" ≫= (.!! "password")) = Some (Str "s1$Abcd1234")
  ∧ (mjoin (returned (run strict (UserModel.findById "u1") users))
       ≫= (.!! "email")) = Some (Str "a@x.com")
  ∧ (mjoin (returned (run strict (UserModel.findById "u1") users))
       ≫= (.!! "password")) = None
  ∧ (returned (run strict
                 (UserModel.update bcrypt "u1" {[ "firstName" := Str "Al" ]}
                    "T1" "s2") users)
       ≫= (.!! "firstName")) = Some (Str "Al").
Proof. split_and!; compute_done. Qed.

End user_examples.

(** ** Creating records *)

Section creating.
Import Js DynamoDb Invariant Fixtures.
Context (eng : Engine) (bcrypt : Bcrypt.Impl).

Lemma run_product_create (t : Table) (productData : obj)
    (userId productId now : string) :
  let owner := ("USER#" +:+ userId, "PRODUCT#" +:+ productId) in
  let category := category_key (productData !! "category") productId in
  ∃ item userIndex categoryItem,
    key_of item = Some (primary productId)
    ∧ key_of userIndex = Some owner
    ∧ key_of categoryItem = Some category
    ∧ trace eng (ProductModel.create productData userId productId now) t
      = [Ev (TransactWrite
               ([ TPut item (AttributeNotExists ["pk"]);
                  TPut userIndex (AttributeNotExists ["pk"; "sk"]) ]
                ++ if truthy (productData !! "category")
                   then [TPut categoryItem Unconditional] else []))
            (run eng (ProductModel.create productData userId productId now) t).2]
    ∧ run eng (ProductModel.create productData userId productId now) t
      = if holds (AttributeNotExists ["pk"]) (t !! primary productId)
           && holds (AttributeNotExists ["pk"; "sk"]) (t !! owner)
        then (inr item,
              if truthy (productData !! "category")
              then <[category := categoryItem]>
                     (<[owner := userIndex]> (<[primary productId := item]> t))
              else <[owner := userIndex]> (<[primary productId := item]> t))
        else (inl TransactionCanceledException, t).
Proof.
  intros owner category. unfold ProductModel.create.
  set (item := literal (("pk", Some (Str ("PRODUCT#" +:+ _))) :: _)).
  set (userIndex := literal (("pk", Some (Str ("USER#" +:+ _))) :: _)).
  set (categoryItem := literal (("pk", Some (Str ("CATEGORY#" +:+ _))) :: _)).
  assert (key_of item = Some (primary productId)) as Hki by apply key_of_literal.
  assert (key_of userIndex = Some owner) as Hku by apply key_of_literal.
  assert (key_of categoryItem = Some category) as Hkc by apply key_of_literal.
  exists item, userIndex, categoryItem. split_and!; [done..| |].
  - rewrite trace_bind, trace_call, run_bind, run_call. cbn [exec snd].
    destruct (truthy (productData !! "category")); cbn [app];
      by destruct (transact_write _ t) as [[e|[]] t'].
  - rewrite run_bind, run_call. cbn [exec]. unfold transact_write.
    pose proof (delete_keys_distinct productId userId
                  (to_str (productData !! "category"))) as Hnd.
    assert (NoDup [primary productId; owner]) as Hnd2.
    { apply NoDup_cons in Hnd as [Hx _].
      apply NoDup_cons. split; [|apply NoDup_singleton].
      intros Hin%list_elem_of_singleton. apply Hx, elem_of_cons. by left. }
    destruct (truthy (productData !! "category")); cbn [app mapM item_key];
      rewrite ?Hki, ?Hku, ?Hkc; cbn [mbind option_bind mret option_ret].
    + rewrite bool_decide_eq_true_2 by done.
      cbn [negb forallb check]. rewrite Hki, Hku. cbn [mbind option_bind].
      rewrite andb_true_r.
      destruct (holds _ (t !! primary productId)); [|done]. cbn [andb].
      destruct (holds _ (t !! owner)); [|done].
      cbn [foldl apply_item]. by rewrite Hki, Hku, Hkc.
    + rewrite bool_decide_eq_true_2 by done.
      cbn [negb forallb check]. rewrite Hki, Hku. cbn [mbind option_bind].
      rewrite andb_true_r.
      destruct (holds _ (t !! primary productId)); [|done]. cbn [andb].
      destruct (holds _ (t !! owner)); [|done].
      cbn [foldl apply_item]. by rewrite Hki, Hku.
Qed.

(** Each of the two [create]s issues exactly
    one request, a transaction that holds the primary record and every
    index record.  The primary record and the owner (email) index record
    carry [attribute_not_exists(pk)]; the category index record of a
    product is put without a condition.  When a condition fails nothing
    is written: the user adapter then reports "User with this email
    already exists", the product adapter passes the cancellation of the
    transaction on.  Otherwise all records are written. *)
Lemma create_is_one_transaction (t : Table) :
  (∀ (productData : obj) (userId productId now : string),
     let owner := ("USER#" +:+ userId, "PRODUCT#" +:+ productId) in
     let category := category_key (productData !! "category") productId in
     let p := ProductModel.create productData userId productId now in
     ∃ item userIndex categoryItem,
       key_of item = Some (primary productId)
       ∧ key_of userIndex = Some owner
       ∧ key_of categoryItem = Some category
       ∧ trace eng p t
         = [Ev (TransactWrite
                  ([ TPut item (AttributeNotExists ["pk"]);
                     TPut userIndex (AttributeNotExists ["pk"; "sk"]) ]
                   ++ if truthy (productData !! "category")
                      then [TPut categoryItem Unconditional] else []))
               (run eng p t).2]
       ∧ run eng p t
         = if holds (AttributeNotExists ["pk"]) (t !! primary productId)
              && holds (AttributeNotExists ["pk"; "sk"]) (t !! owner)
           then (inr item,
                 if truthy (productData !! "category")
                 then <[category := categoryItem]>
                        (<[owner := userIndex]> (<[primary productId := item]> t))
                 else <[owner := userIndex]> (<[primary productId := item]> t))
           else (inl TransactionCanceledException, t))
  ∧ (∀ (userData : obj) (password userId now salt : string),
       let userData := <["password" := Str password]> userData in
       let email := ("EMAIL#" +:+ to_str (userData !! "email"), "USER#" +:+ userId) in
       let p := UserModel.create bcrypt userData userId now salt in
       ∃ item index,
         key_of item = Some (profile userId)
         ∧ key_of index = Some email
         ∧ trace eng p t
           = [Ev (TransactWrite [ TPut item (AttributeNotExists ["pk"]);
                                  TPut index (AttributeNotExists ["pk"]) ])
                 (run eng p t).2]
         ∧ run eng p t
           = if holds (AttributeNotExists ["pk"]) (t !! profile userId)
                && holds (AttributeNotExists ["pk"]) (t !! email)
             then (inr (without "password" item),
                   <[email := index]> (<[profile userId := item]> t))
             else (inl (JsError "User with this email already exists"), t)).
Proof.
  split.
  - intros productData userId productId now. apply run_product_create.
  - intros userData0 password userId now salt userData email p.
    destruct (run_user_create eng bcrypt t userData userId now salt password)
      as (item & index & Hki & Hkx & _ & _ & Htr & Hrun).
    { apply lookup_insert_eq. }
    by exists item, index.
Qed.

End creating.

Section creating_examples.
Import Js DynamoDb Invariant Fixtures.

(** At the creation of a product with a category, the third item of
    the transaction, the category index record, carries no condition. *)
Lemma category_index_record_is_put_unguarded :
  ¬ (∀ (productData : obj) (userId productId now : string) (t : Table)
       (e : Event) (ti : TransactItem),
       e ∈ trace strict (ProductModel.create productData userId productId now) t →
       ti ∈ written e → guarded ti = true).
Proof.
  intros H.
  pose (tr := trace strict (ProductModel.create widget "u1" "p1" "T0") ∅).
  assert (∃ e ti, tr !! 0%nat = Some e ∧ written e !! 2%nat = Some ti
                  ∧ guarded ti = false) as (e & ti & He & Hti & Hg).
  { destruct (run_product_create strict ∅ widget "u1" "p1" "T0")
      as (item & userIndex & categoryItem & _ & _ & _ & Htr & _).
    subst tr. rewrite Htr. eexists _, _. split; [done|].
    replace (truthy (widget !! "category")) with true by compute_done.
    split; done. }
  rewrite (H widget "u1" "p1" "T0" ∅ e ti) in Hg; [done| |].
  - by eapply list_elem_of_lookup_2.
  - by eapply list_elem_of_lookup_2.
Qed.

(** The creation of the example succeeds on a table that already holds
    a record under the key of the category index record, and replaces
    that record. *)
Lemma stale_category_index_record_is_replaced :
  let stale : Table :=
    {[ ("CATEGORY#A", "PRODUCT#p1") :=
         {[ "pk" := Str "CATEGORY#A"; "sk" := Str "PRODUCT#p1";
            "id" := Str "p0" ]} ]} in
  let r := run strict (ProductModel.create widget "u1" "p1" "T0") stale in
  is_Some (returned r)
  ∧ (r.2 !! ("CATEGORY#A", "PRODUCT#p1") ≫= (.!! "id")) = Some (Str "p1").
Proof. split; compute_done. Qed.

(** C2.  The creation of a second user under an address that a stored
    user has.  [users] holds [u1] with [a@x.com].  [create] of the same
    data under the id [u2] sends one transaction whose two items carry
    [attribute_not_exists(pk)]; the store evaluates each condition on
    the record under the key of the new item, [USER#u2/PROFILE#u2] and
    [EMAIL#a@x.com/USER#u2], finds none, and writes both: the call
    returns the new user, and two index records are stored under the one
    address.  The catch branch of the same function names the failure
    of a condition "User with this email already exists"; it is reached
    when the id is taken, as for [u1] here, and not when the email is. *)
Theorem create_accepts_a_taken_email (eng : Engine) :
  let second := UserModel.create bcrypt alice "u2" "T1" "s2" in
  let r := run eng second users in
  (users !! ("EMAIL#a@x.com", "USER#u1") ≫= (.!! "id")) = Some (Str "u1")
  ∧ (∀ (e : Event) (ti : TransactItem),
       e ∈ trace eng second users → ti ∈ written e → guarded ti = true)
  ∧ (returned r ≫= (.!! "email")) = Some (Str "a@x.com")
  ∧ (returned r ≫= (.!! "id")) = Some (Str "u2")
  ∧ (r.2 !! ("EMAIL#a@x.com", "USER#u1") ≫= (.!! "id")) = Some (Str "u1")
  ∧ (r.2 !! ("EMAIL#a@x.com", "USER#u2") ≫= (.!! "id")) = Some (Str "u2")
  ∧ run eng (UserModel.create bcrypt alice "u1" "T1" "s2") users
    = (inl (JsError "User with this email already exists"), users).
Proof.
  intros second r. split_and!.
  - compute_done.
  - intros e ti He Hti.
    destruct (run_user_create eng bcrypt users alice "u2" "T1" "s2" "Abcd1234")
      as (item & index & _ & _ & _ & _ & Htr & _); [reflexivity|].
    subst second. rewrite Htr in He.
    apply list_elem_of_singleton in He as ->. cbn [written] in Hti.
    apply elem_of_cons in Hti as [->|Hti]; [reflexivity|].
    apply list_elem_of_singleton in Hti as ->. reflexivity.
  - subst r second. vm_compute. reflexivity.
  - subst r second. vm_compute. reflexivity.
  - subst r second. vm_compute. reflexivity.
  - subst r second. vm_compute. reflexivity.
  - vm_compute. reflexivity.
Qed.

End creating_examples.

(** ** The fields a patch cannot reach *)

Section protected_fields.
Import Js DynamoDb Invariant Fixtures.

(** The category block only touches category index records. *)
Lemma handle_category_frame (eng : Engine) (t : Table) (productId : string)
    (updates product : obj) (k : Key) :
  String.prefix "CATEGORY#" k.1 = false →
  (run eng (ProductModel.handle_category productId updates product) t).2 !! k
  = t !! k.
Proof.
  intros Hk. unfold ProductModel.handle_category.
  assert (∀ c : string, k ≠ ("CATEGORY#" +:+ c, "PRODUCT#" +:+ productId)) as Hne.
  { intros c ->. cbn [fst] in Hk. by rewrite prefix_append in Hk. }
  destruct (_ && _); [|done].
  destruct (truthy (product !! "category")); rewrite run_call; cbn [exec].
  - destruct (transact_write_all_or_nothing
                [TDelete ("CATEGORY#" +:+ to_str (product !! "category"),
                          "PRODUCT#" +:+ productId);
                 TPut (literal
                   [("pk", Some (Str ("CATEGORY#" +:+ to_str (updates !! "category"))));
                    ("sk", Some (Str ("PRODUCT#" +:+ productId)));
                    ("id", Some (Str productId))]) Unconditional] t)
      as [->|[e ->]]; [|done].
    cbn [foldl apply_item snd]. rewrite key_of_literal.
    rewrite lookup_insert_ne, lookup_delete_ne; [done|..]; by apply not_eq_sym.
  - rewrite key_of_literal. cbn [snd].
    rewrite lookup_insert_ne; [done|]. by apply not_eq_sym.
Qed.

(** The product adapter: a successful update leaves [id], [userId],
    [createdAt] and the key attributes as they were stored, whatever the
    patch supplies for them. *)
Lemma product_update_protects (eng : Engine) (t : Table)
    (productId userId now : string) (updates : obj) (product item : Item)
    (a : string) :
  t !! primary productId = Some product →
  a ∈ ["id"; "userId"; "createdAt"; "pk"; "sk"] →
  (run eng (ProductModel.update productId updates userId now) t).1 = inr item →
  item !! a = product !! a.
Proof.
  intros Hp Ha Hrun.
  destruct (decide (product !! "userId" = Some (Str userId))) as [Hu|Hu].
  2:{ destruct (run_update_rejected eng t productId userId now updates)
        as (_ & [e He] & _); [by rewrite Hp|]. congruence. }
  rewrite (run_update_found eng t _ _ _ _ product Hp Hu) in Hrun.
  pose proof (handle_category_frame eng t productId updates product
                (primary productId) eq_refl) as Hframe.
  destruct (run eng (ProductModel.handle_category _ _ _) t) as [[e|[]] t1];
    [done|]. cbn [snd] in Hframe.
  pose proof (exec_patch eng ProductModel.patchable now updates
                (primary productId) t1) as Hex.
  cbv zeta in Hex. destruct Hex as [Hex|(it & Hex & Hit)];
    rewrite Hex in Hrun; [done|]. injection Hrun as ->.
  rewrite (apply_sets_lookup _ _ _ _ a
             (λ a ph Hin, proj1 (patch_well_formed _ _ _ a ph Hin)) Hit).
  rewrite Hframe, Hp. cbn [default]. rewrite bool_decide_eq_false_2; [done|].
  rewrite patch_targets.
  repeat (apply elem_of_cons in Ha as [->|Ha]);
    [..|by apply elem_of_nil in Ha]; by intros [?|[? _]].
Qed.

(** The user adapter: the loop writes no clause for [id], [email] or
    [password], and it does write one for [createdAt] when the patch
    names it. *)
Lemma user_patch_targets (now : string) (updates : obj) (a : string) :
  a ∈ ["id"; "email"; "password"] →
  a ∉ (patch UserModel.patchable now updates).1.*1.
Proof.
  intros Ha. rewrite patch_targets.
  repeat (apply elem_of_cons in Ha as [->|Ha]);
    [..|by apply elem_of_nil in Ha]; by intros [?|[? _]].
Qed.

Lemma user_patch_reaches_createdAt (now : string) (updates : obj) :
  is_Some (updates !! "createdAt") →
  "createdAt" ∈ (patch UserModel.patchable now updates).1.*1.
Proof. intros H. apply patch_targets. by right. Qed.

(** C3, at a patch of the user [u1] that names [createdAt].  The guard
    of the user adapter excludes [id], [email] and [password] only, so
    the patch replaces the creation timestamp, in the stored record and
    in the returned one.  The same patch through the product adapter,
    whose guard names [createdAt], leaves the creation timestamp of a
    product alone. *)
Theorem user_update_overwrites_createdAt :
  let updates : obj := {[ "createdAt" := Str "1970-01-01T00:00:00.000Z" ]} in
  let r := run strict (UserModel.update bcrypt "u1" updates "T1" "s2") users in
  let r' := run strict (ProductModel.update "p1" updates "u1" "T1") shop in
  UserModel.patchable "createdAt" = true
  ∧ (users !! profile "u1" ≫= (.!! "createdAt")) = Some (Str "T0")
  ∧ (returned r ≫= (.!! "createdAt")) = Some (Str "1970-01-01T00:00:00.000Z")
  ∧ (r.2 !! profile "u1" ≫= (.!! "createdAt"))
    = Some (Str "1970-01-01T00:00:00.000Z")
  ∧ ProductModel.patchable "createdAt" = false
  ∧ (returned r' ≫= (.!! "createdAt")) = Some (Str "T0").
Proof. split_and!; compute_done. Qed.

End protected_fields.

(** ** The pagination cursor *)

Section base64.
Import Buffer.

Lemma N_forall_below (P : N → bool) (n : nat) :
  forallb P (N.of_nat <$> seq 0 n) = true →
  ∀ v, (v < N.of_nat n)%N → P v = true.
Proof.
  intros H v Hv. rewrite forallb_forall in H. apply H.
  apply in_map_iff. exists (N.to_nat v). split; [lia|].
  apply in_seq. lia.
Qed.

Lemma sextet_digit v :
  (v < 64)%N → sextet (digit v) = Some v ∧ Ascii.eqb (digit v) "="%char = false.
Proof.
  intros Hv.
  pose proof (N_forall_below
    (λ v, bool_decide (sextet (digit v) = Some v) && negb (Ascii.eqb (digit v) "="%char)) 64) as H.
  specialize (H ltac:(vm_compute; reflexivity) v Hv).
  apply andb_true_iff in H as [H1 H2].
  apply bool_decide_eq_true in H1. by destruct (Ascii.eqb _ _).
Qed.

Section arith.
Local Open Scope N_scope.
Lemma split_div hi lo k : lo < k → (hi * k + lo) / k = hi.
Proof.
  intros H. rewrite N.add_comm, N.div_add by lia. rewrite N.div_small by done. lia.
Qed.
Lemma split_mod hi lo k : lo < k → (hi * k + lo) mod k = lo.
Proof.
  intros H. rewrite N.add_comm, N.Div0.mod_add. by apply N.mod_small.
Qed.
Lemma join k n : 0 < k → n / k * k + n mod k = n.
Proof. intros H. rewrite (N.div_mod n k) at 3 by lia. lia. Qed.
Lemma byte_div a k q : N_of_ascii a / k < q ↔ N_of_ascii a < k * q.
Proof. Abort.

Lemma regroup a b c :
  a < 256 → b < 256 → c < 256 →
  (a / 4) * 4 + (a mod 4 * 16 + b / 16) / 16 = a ∧
  (a mod 4 * 16 + b / 16) mod 16 * 16 + (b mod 16 * 4 + c / 64) / 4 = b ∧
  (b mod 16 * 4 + c / 64) mod 4 * 64 + c mod 64 = c.
Proof.
  intros Ha Hb Hc.
  assert (b / 16 < 16) by (apply N.Div0.div_lt_upper_bound; lia).
  assert (c / 64 < 4) by (apply N.Div0.div_lt_upper_bound; lia).
  rewrite !split_div, !split_mod by done.
  rewrite !join by lia. done.
Qed.
Lemma in_range a b c :
  a < 256 → b < 256 → c < 256 →
  a / 4 < 64 ∧ a mod 4 * 16 + b / 16 < 64 ∧ b mod 16 * 4 + c / 64 < 64 ∧ c mod 64 < 64.
Proof.
  intros Ha Hb Hc.
  assert (a / 4 < 64) by (apply N.Div0.div_lt_upper_bound; lia).
  assert (b / 16 < 16) by (apply N.Div0.div_lt_upper_bound; lia).
  assert (c / 64 < 4) by (apply N.Div0.div_lt_upper_bound; lia).
  pose proof (N.mod_lt a 4). pose proof (N.mod_lt b 16). pose proof (N.mod_lt c 64).
  lia.
Qed.
End arith.

Lemma triples_ind (P : string → Prop) :
  P "" → (∀ a, P (String a "")) → (∀ a b, P (String a (String b ""))) →
  (∀ a b c rest, P rest → P (String a (String b (String c rest)))) →
  ∀ s, P s.
Proof.
  intros H0 H1 H2 H3 s.
  cut (P s ∧ (∀ a, P (String a s)) ∧ (∀ a b, P (String a (String b s)))).
  { by intros [? _]. }
  induction s as [|c s (IH0 & IH1 & IH2)]; [by auto|].
  split; [apply IH1|]. split; [intros a; apply IH2|]. intros a b. by apply H3.
Qed.

Lemma sextets_digit v rest :
  (v < 64)%N → sextets (String (digit v) rest) = v :: sextets rest.
Proof.
  intros [Hs He]%sextet_digit. cbn [sextets]. by rewrite He, Hs.
Qed.

Lemma from_to_base64 buf : from_base64 (to_base64 buf) = buf.
Proof.
  unfold from_base64.
  induction buf as [|a|a b|a b c rest IH] using triples_ind; [done| | |].
  - pose proof (N_ascii_bounded a) as Ha.
    destruct (in_range _ 0 0 Ha eq_refl eq_refl) as (? & ? & _).
    destruct (regroup _ 0 0 Ha eq_refl eq_refl) as (Hr & _).
    cbn [to_base64]. rewrite !sextets_digit by (by rewrite ?N.add_0_r in *).
    cbn [sextets Ascii.eqb Bool.eqb unpack].
    rewrite N.add_0_r in Hr. by rewrite Hr, ascii_N_embedding.
  - pose proof (N_ascii_bounded a) as Ha. pose proof (N_ascii_bounded b) as Hb.
    destruct (in_range _ _ 0 Ha Hb eq_refl) as (? & ? & ? & _).
    destruct (regroup _ _ 0 Ha Hb eq_refl) as (Hr1 & Hr2 & _).
    cbn [to_base64]. rewrite !sextets_digit by (by rewrite ?N.add_0_r in *).
    cbn [sextets Ascii.eqb Bool.eqb unpack].
    rewrite N.add_0_r in Hr2. by rewrite Hr1, Hr2, !ascii_N_embedding.
  - pose proof (N_ascii_bounded a) as Ha. pose proof (N_ascii_bounded b) as Hb.
    pose proof (N_ascii_bounded c) as Hc.
    destruct (in_range _ _ _ Ha Hb Hc) as (? & ? & ? & ?).
    destruct (regroup _ _ _ Ha Hb Hc) as (Hr1 & Hr2 & Hr3).
    cbn [to_base64]. rewrite !sextets_digit by done.
    cbn [unpack]. by rewrite Hr1, Hr2, Hr3, !ascii_N_embedding, IH.
Qed.

Lemma to_base64_nonempty buf : buf ≠ "" → to_base64 buf ≠ "".
Proof. by destruct buf as [|a [|b [|c rest]]]. Qed.

End base64.

Section json.
Import Json.

Lemma read_escape c tail :
  read_string (escape c +:+ tail) = r ← read_string tail; Some (String c r.1, r.2).
Proof.
  destruct c as [[] [] [] [] [] [] [] []]; reflexivity.
Qed.

Lemma read_escape_all s tail :
  read_string (escape_all s +:+ String dquote tail) = Some (s, tail).
Proof.
  induction s as [|c s IH]; [done|].
  cbn [escape_all]. rewrite append_assoc, read_escape, IH. done.
Qed.

Lemma expect_quote s tail :
  expect dquote (quote s +:+ tail) = Some (escape_all s +:+ String dquote tail).
Proof.
  unfold quote. by rewrite append_cons, append_assoc, append_cons, append_nil.
Qed.

Lemma read_member_quote name val tail :
  read_member (quote name +:+ String ":"%char (quote val +:+ tail))
  = Some ((name, val), tail).
Proof.
  unfold read_member.
  rewrite expect_quote. cbn [mbind option_bind]. rewrite read_escape_all.
  cbn [mbind option_bind snd fst].
  change (expect ":" (String ":"%char ?x)) with (Some x). cbn [mbind option_bind].
  rewrite expect_quote. cbn [mbind option_bind]. by rewrite read_escape_all.
Qed.

Lemma parse_stringify_key k : parse_key (stringify_key k) = Some k.
Proof.
  destruct k as [pk sk]. unfold parse_key, parse_object, stringify_key.
  cbn [fst snd]. rewrite !append_cons, !append_nil.
  change (expect "{"%char (String "{"%char ?x)) with (Some x).
  cbn [mbind option_bind].
  set (body := quote "pk" +:+ _).
  assert (∃ n, String.length body = S (S n) ∧ skip_ws body = body
                       ∧ ∃ rest, body = String dquote rest) as (n & Hlen & Hws & rest & Hq).
  { subst body. unfold quote. rewrite !append_cons. cbn. eauto 6. }
  rewrite Hws. rewrite Hq at 1. change (Ascii.eqb dquote "}"%char) with false.
  cbv iota. rewrite Hlen. subst body.
  cbn [read_members]. rewrite read_member_quote. cbn [mbind option_bind snd fst].
  change (skip_ws (String ","%char ?x)) with (String ","%char x).
  change (Ascii.eqb ","%char "}"%char) with false.
  change (Ascii.eqb ","%char ","%char) with true.
  cbv iota. rewrite read_member_quote. cbn [mbind option_bind snd fst].
  reflexivity.
Qed.

End json.

Section cursor.
Import Js DynamoDb.
Context (eng : Engine).

Lemma start_key_cursor_of (k : Key) :
  ProductModel.start_key (ProductModel.cursor_of k) = inr k.
Proof.
  unfold ProductModel.start_key, ProductModel.cursor_of, Buffer.from,
    Buffer.toString.
  rewrite from_to_base64.
  pose proof (parse_stringify_key k) as Hk. unfold Json.parse_key in Hk.
  destruct (Json.parse_object _) as [members|]; [|done].
  cbn [mbind option_bind] in Hk. by rewrite Hk.
Qed.

Lemma cursor_of_nonempty (k : Key) : ProductModel.cursor_of k ≠ "".
Proof.
  unfold ProductModel.cursor_of, Buffer.from. apply to_base64_nonempty.
  unfold Json.stringify_key. by rewrite append_cons.
Qed.

Lemma exec_scan_table (pkPrefix skPrefix : string) (limit : nat)
    (start : option Key) (t : Table) :
  (exec eng (Scan pkPrefix skPrefix limit start) t).2 = t.
Proof. cbn [exec]. by destruct (bool_decide (limit = 0%nat)). Qed.

(** C7.  The cursor [list] hands out is the encoding of the key at which
    the scan stopped, and decoding it gives that key back.  A call of
    [list] with this cursor therefore is the scan that starts after that
    key, for every table and limit, so the same cursor on the same table
    gives the same page. *)
Theorem list_cursor_round_trip (t : Table) (limit : nat) :
  (∀ k : Key,
     ProductModel.start_key (ProductModel.cursor_of k) = inr k
     ∧ ProductModel.cursor_of k ≠ "")
  ∧ (∀ lastEvaluatedKey : option string,
       match run eng (ProductModel.list limit lastEvaluatedKey) t with
       | (inr (products, cursor), _) =>
           ∃ (start last : option Key),
             exec eng (Scan "PRODUCT#" "DETAILS#" limit start) t
             = (inr (products, last), t)
             ∧ cursor = ProductModel.cursor_of <$> last
       | (inl _, _) => True
       end)
  ∧ (∀ k : Key,
       run eng (ProductModel.list limit (Some (ProductModel.cursor_of k))) t
       = run eng
           (result ← call (Scan "PRODUCT#" "DETAILS#" limit (Some k));
            mret (result.1, ProductModel.cursor_of <$> (result.2 : option Key)))
           t).
Proof.
  split_and!.
  - intros k. split; [apply start_key_cursor_of|apply cursor_of_nonempty].
  - intros lastEvaluatedKey. unfold ProductModel.list. rewrite run_bind.
    destruct (run eng (match lastEvaluatedKey with Some _ => _ | None => _ end) t)
      as [[e|start] t1] eqn:Hstart; [done|].
    assert (t1 = t) as ->.
    { destruct lastEvaluatedKey as [c|]; [|by injection Hstart].
      destruct (String.eqb c ""); [by injection Hstart|].
      destruct (ProductModel.start_key c); [done|by injection Hstart]. }
    rewrite run_bind, run_call.
    destruct (exec eng (Scan _ _ _ _) t) as [[e|[products last]] t2] eqn:Hscan;
      [done|]. cbn [run mret Prog_ret fst snd].
    exists start, last. split; [|done].
    pose proof (exec_scan_table "PRODUCT#" "DETAILS#" limit start t) as Ht.
    rewrite Hscan in Ht. cbn [snd] in Ht. by subst t2.
  - intros k. unfold ProductModel.list.
    destruct (String.eqb_spec (ProductModel.cursor_of k) "") as [Heq|_];
      [by apply cursor_of_nonempty in Heq|].
    by rewrite start_key_cursor_of.
Qed.

End cursor.

(** ** Starting the process *)

Section startup.
Import DynamoDb Init Fixtures.

(** C8.  With a backend flag that is neither "rds" nor "dynamodb",
    [initializeDatabase] raises "Invalid database type specified in
    configuration.", logs the failure and exits with code 1.  This
    happens inside the call of [dbInit()], before the code hands control
    back: no adapter is bound and the listening server takes no
    request. *)
Theorem unsupported_backend_exits_at_startup
    (config : Config) (services : Services) :
  databaseType config ≠ "rds" →
  databaseType config ≠ "dynamodb" →
  let failure :=
    [ LogError "Database initialization failed:"
        (JsError "Invalid database type specified in configuration.");
      Exit 1 ] in
  initializeDatabase config services = failure
  ∧ app config services = Listen (port config) :: failure
  ∧ bound (app config services) = []
  ∧ serves false (app config services) = false.
Proof.
  intros Hrds Hdynamo failure.
  assert (initializeDatabase config services = failure) as Hinit.
  { unfold initializeDatabase, try_block.
    destruct (String.eqb_spec (databaseType config) "rds"); [done|].
    by destruct (String.eqb_spec (databaseType config) "dynamodb"). }
  unfold app. rewrite Hinit. by split_and!.
Qed.

Lemma unsupported_backend_exits_at_startup_witness :
  databaseType mongo ≠ "rds"
  ∧ databaseType mongo ≠ "dynamodb"
  ∧ app mongo reachable
    = [ Listen 3000;
        LogError "Database initialization failed:"
          (JsError "Invalid database type specified in configuration.");
        Exit 1 ]
  ∧ serves false (app mongo reachable) = false.
Proof.
  assert (databaseType mongo ≠ "rds") as H1 by discriminate.
  assert (databaseType mongo ≠ "dynamodb") as H2 by discriminate.
  destruct (unsupported_backend_exits_at_startup mongo reachable H1 H2)
    as (_ & Happ & _ & Hserves).
  split_and!; [exact H1|exact H2|exact Happ|exact Hserves].
Defined.

(** A supported backend whose service answers is bound and served. *)
Lemma supported_backend_is_served :
  bound (app dynamo reachable) = [DocumentClient]
  ∧ serves false (app dynamo reachable) = true.
Proof. split; reflexivity. Qed.

End startup.

(** ** Registering a user *)

Section register_path.
Import Js DynamoDb Controllers Validators.
Context (eng : Engine) (rds : RdsUser) (bcrypt : Bcrypt.Impl).
Context (sign : option value → string).

(** C9, as the code has it.  A registration with a non-empty email and a
    non-empty password is answered from the lookup of the email and the
    creation of the user alone: 409 when the lookup finds a user, and
    nothing is created; when it finds none, 201 with the created user,
    or the error of the creation; the error of the lookup when that
    fails.  The content of the password plays no part, and
    [validatePassword] none either. *)
Theorem register_applies_no_strength_check (t : Table) (body : obj)
    (userId now salt : string) :
  truthy (body !! "email") = true →
  truthy (body !! "password") = true →
  let userData :=
    literal [ ("email", body !! "email"); ("password", body !! "password");
              ("firstName", body !! "firstName");
              ("lastName", body !! "lastName") ] in
  (∀ databaseType : string,
     databaseType ≠ "rds" →
     run eng (register databaseType rds bcrypt sign body userId now salt) t
     = match run eng (UserModel.findByEmail (to_str (body !! "email"))) t with
       | (inl error, t') => (inr (Next error), t')
       | (inr (Some _), t') =>
           (inr (Json 409 "User with this email already exists" None None),
            t')
       | (inr None, t') =>
           match run eng (UserModel.create bcrypt userData userId now salt) t'
           with
           | (inr newUser, t'') =>
               (inr (Json 201 "User registered successfully" (Some newUser)
                       (Some (sign (newUser !! "id")))), t'')
           | (inl error, t'') => (inr (Next error), t'')
           end
       end)
  ∧ run eng (register "rds" rds bcrypt sign body userId now salt) t
    = (inr match findOne rds (body !! "email") with
           | inl error => Next error
           | inr (Some _) =>
               Json 409 "User with this email already exists" None None
           | inr None =>
               match rdsCreate rds userData with
               | inr row =>
                   Json 201 "User registered successfully"
                     (Some (without "password" row))
                     (Some (sign (without "password" row !! "id")))
               | inl error => Next error
               end
           end, t).
Proof.
  intros Hemail Hpassword userData. split.
  - intros databaseType Hkv. unfold register.
    rewrite Hemail, Hpassword. cbn [negb orb].
    destruct (String.eqb_spec databaseType "rds") as [|_]; [done|].
    rewrite run_try_catch, run_bind.
    destruct (run eng (UserModel.findByEmail (to_str (body !! "email"))) t)
      as [[error|[existingUser|]] t']; [done|done|].
    rewrite run_bind. fold userData.
    by destruct (run eng (UserModel.create bcrypt userData userId now salt) t')
      as [[error|newUser] t''].
  - unfold register.
    rewrite Hemail, Hpassword. cbn [negb orb String.eqb Ascii.eqb Bool.eqb].
    rewrite run_try_catch, run_bind.
    destruct (findOne rds (body !! "email")) as [error|[existingUser|]];
      cbn [lift run]; [done|done|].
    rewrite run_bind, run_bind. fold userData.
    by destruct (rdsCreate rds userData) as [error|row].
Qed.

(** On the key-value backend the lookup is [findByEmail], and a store
    that refuses its request ends every registration there: the handler
    passes the error on and sends no write. *)
Lemma register_stops_at_the_email_lookup (t : Table) (body : obj)
    (userId now salt : string) :
  (∀ (t : Table) (pk p : string),
     get_begins_with eng t pk p = inl ValidationException) →
  truthy (body !! "email") = true →
  truthy (body !! "password") = true →
  run eng (register "dynamodb" rds bcrypt sign body userId now salt) t
  = (inr (Next ValidationException), t)
  ∧ filter is_write
      (trace eng (register "dynamodb" rds bcrypt sign body userId now salt) t)
    = [].
Proof.
  intros Hrefused Hemail Hpassword.
  assert (run eng (UserModel.findByEmail (to_str (body !! "email"))) t
          = (inl ValidationException, t)) as Hrun
    by (by rewrite run_findByEmail, Hrefused).
  assert (filter is_write
            (trace eng (UserModel.findByEmail (to_str (body !! "email"))) t)
          = []) as Htr.
  { unfold UserModel.findByEmail.
    rewrite trace_bind, trace_call, run_call. simpl exec.
    by rewrite Hrefused. }
  unfold register.
  rewrite Hemail, Hpassword. cbn [negb orb String.eqb Ascii.eqb Bool.eqb].
  rewrite run_try_catch, trace_try_catch, run_bind, trace_bind, Hrun.
  by rewrite !filter_app, Htr.
Qed.

End register_path.

Section register_examples.
Import Js DynamoDb Controllers Validators Fixtures.

(** C9, as stated, at a registration on the relational backend under an
    address that is taken: the handler answers 409, where the creation
    of the user would have answered 201. *)
Lemma register_with_a_taken_email_creates_nothing :
  ¬ (∀ (eng : Engine) (rds : RdsUser) (t : Table) (body : obj)
       (userId now salt : string),
       truthy (body !! "email") = true →
       truthy (body !! "password") = true →
       let userData :=
         literal [ ("email", body !! "email");
                   ("password", body !! "password");
                   ("firstName", body !! "firstName");
                   ("lastName", body !! "lastName") ] in
       (run eng (register "rds" rds bcrypt sign body userId now salt) t).1
       = inr match rdsCreate rds userData with
             | inr row =>
                 Json 201 "User registered successfully"
                   (Some (without "password" row))
                   (Some (sign (without "password" row !! "id")))
             | inl error => Next error
             end).
Proof.
  intros H.
  specialize (H strict rds_taken ∅ alice "u2" "T1" "s2").
  assert (status <$> returned
            (run strict (register "rds" rds_taken bcrypt sign alice "u2" "T1"
                           "s2") ∅)
          = Some 409%nat) as H409 by compute_done.
  unfold returned in H409. rewrite H in H409 by compute_done.
  vm_compute in H409. discriminate H409.
Qed.

(** The answer in that case is 409, and the creation is not asked. *)
Lemma register_with_a_taken_email_replies_409 :
  run strict (register "rds" rds_taken bcrypt sign alice "u2" "T1" "s2") ∅
  = (inr (Json 409 "User with this email already exists" None None), ∅).
Proof. reflexivity. Qed.

(** The password "abc" fails the strength validator and is registered on
    the relational backend; on the key-value backend the lookup of the
    email is refused and the registration ends there. *)
Lemma register_applies_no_strength_check_witness :
  isValid (validatePassword (bob !! "password")) = false
  ∧ truthy (bob !! "email") = true
  ∧ truthy (bob !! "password") = true
  ∧ (status <$> returned
       (run strict (register "rds" rds bcrypt sign bob "u2" "T1" "s2")
          users)) = Some 201%nat
  ∧ (returned
       (run strict (register "dynamodb" rds bcrypt sign bob "u2" "T1" "s2")
          users)) = Some (Next ValidationException).
Proof.
  assert (truthy (bob !! "email") = true) as He by compute_done.
  assert (truthy (bob !! "password") = true) as Hp by compute_done.
  destruct (register_applies_no_strength_check strict rds bcrypt sign users
              bob "u2" "T1" "s2" He Hp) as [Hkv Hrds].
  split_and!; [compute_done|exact He|exact Hp| |].
  - rewrite Hrds. compute_done.
  - rewrite (Hkv "dynamodb"); [compute_done|discriminate].
Defined.

End register_examples.

(** ** A created product and the lookups *)

Section created_product.
Import Js DynamoDb Invariant Records.
Context (eng : Engine).

Lemma product_create_unfold (productData : obj) (userId productId now : string) :
  ProductModel.create productData userId productId now
  = (_ ← call (TransactWrite
                 ([ TPut (product productData userId productId now)
                      (AttributeNotExists ["pk"]);
                    TPut (owner_index userId productId)
                      (AttributeNotExists ["pk"; "sk"]) ]
                  ++ if truthy (productData !! "category")
                     then [TPut (category_record (productData !! "category")
                                   productId) Unconditional]
                     else []));
     mret (product productData userId productId now)).
Proof.
  unfold ProductModel.create. by destruct (truthy (productData !! "category")).
Qed.

Lemma product_keys_distinct (productId userId category : string) :
  primary productId ≠ owner_key userId productId
  ∧ primary productId ≠ ("CATEGORY#" +:+ category, "PRODUCT#" +:+ productId)
  ∧ owner_key userId productId
    ≠ ("CATEGORY#" +:+ category, "PRODUCT#" +:+ productId).
Proof. split_and!; family_neq. Qed.

Lemma run_product_create_records (t : Table) (productData : obj)
    (userId productId now : string) :
  let item := product productData userId productId now in
  let owner := owner_key userId productId in
  let category := category_key (productData !! "category") productId in
  run eng (ProductModel.create productData userId productId now) t
  = if holds (AttributeNotExists ["pk"]) (t !! primary productId)
       && holds (AttributeNotExists ["pk"; "sk"]) (t !! owner)
    then (inr item,
          if truthy (productData !! "category")
          then <[category := category_record (productData !! "category") productId]>
                 (<[owner := owner_index userId productId]>
                    (<[primary productId := item]> t))
          else <[owner := owner_index userId productId]>
                 (<[primary productId := item]> t))
    else (inl TransactionCanceledException, t).
Proof.
  intros item owner category. rewrite product_create_unfold.
  assert (key_of item = Some (primary productId)) as Hki by apply key_of_literal.
  assert (key_of (owner_index userId productId) = Some owner) as Hku
    by apply key_of_literal.
  assert (key_of (category_record (productData !! "category") productId)
          = Some category) as Hkc by apply key_of_literal.
  fold item. rewrite run_bind, run_call. cbn [exec]. unfold transact_write.
  destruct (product_keys_distinct productId userId
              (to_str (productData !! "category"))) as (Hpo & Hpc & Hoc).
  pose proof (delete_keys_distinct productId userId
                (to_str (productData !! "category"))) as Hnd.
  assert (NoDup [primary productId; owner]) as Hnd2.
  { apply NoDup_cons. split; [|apply NoDup_singleton].
    intros Hin%list_elem_of_singleton. by apply Hpo. }
  destruct (truthy (productData !! "category")); cbn [app mapM item_key];
    rewrite ?Hki, ?Hku, ?Hkc; cbn [mbind option_bind mret option_ret].
  + rewrite bool_decide_eq_true_2 by done.
    cbn [negb forallb check]. rewrite Hki, Hku. cbn [mbind option_bind].
    rewrite andb_true_r.
    destruct (holds _ (t !! primary productId)); [|done]. cbn [andb].
    destruct (holds _ (t !! owner)); [|done].
    cbn [foldl apply_item]. by rewrite Hki, Hku, Hkc.
  + rewrite bool_decide_eq_true_2 by done.
    cbn [negb forallb check]. rewrite Hki, Hku. cbn [mbind option_bind].
    rewrite andb_true_r.
    destruct (holds _ (t !! primary productId)); [|done]. cbn [andb].
    destruct (holds _ (t !! owner)); [|done].
    cbn [foldl apply_item]. by rewrite Hki, Hku.
Qed.

(** What [create] leaves in the table when it succeeds. *)
Lemma product_create_table (t t' : Table) (productData : obj)
    (userId productId now : string) (item : Item) :
  run eng (ProductModel.create productData userId productId now) t
  = (inr item, t') →
  item = product productData userId productId now
  ∧ t' !! primary productId = Some item
  ∧ t' !! owner_key userId productId = Some (owner_index userId productId)
  ∧ (truthy (productData !! "category") = true →
     t' !! category_key (productData !! "category") productId
     = Some (category_record (productData !! "category") productId))
  ∧ (∀ k, k ≠ primary productId → k ≠ owner_key userId productId →
          k ≠ category_key (productData !! "category") productId →
          t' !! k = t !! k)
  ∧ (truthy (productData !! "category") = false →
     t' !! category_key (productData !! "category") productId
     = t !! category_key (productData !! "category") productId).
Proof.
  rewrite run_product_create_records.
  destruct (product_keys_distinct productId userId
              (to_str (productData !! "category"))) as (Hpo & Hpc & Hoc).
  fold (category_key (productData !! "category") productId) in Hpc, Hoc.
  destruct (holds (AttributeNotExists ["pk"]) (t !! primary productId)) eqn:Hh;
    [|done].
  destruct (holds _ (t !! owner_key userId productId)); [|done].
  cbn [andb]. intros [= <- <-].
  destruct (truthy (productData !! "category")); split_and!; try done.
  - by rewrite lookup_insert_ne, lookup_insert_ne, lookup_insert_eq.
  - by rewrite lookup_insert_ne, lookup_insert_eq.
  - intros _. by rewrite lookup_insert_eq.
  - intros k ???. by rewrite !lookup_insert_ne.
  - by rewrite lookup_insert_ne, lookup_insert_eq.
  - by rewrite lookup_insert_eq.
  - intros k ???. by rewrite !lookup_insert_ne.
  - intros _. by rewrite !lookup_insert_ne.
Qed.


Lemma index_record_resolves (t : Table) (pk productId : string)
    (index item : Item) :
  t !! (pk, "PRODUCT#" +:+ productId) = Some index →
  index !! "id" = Some (Str productId) →
  t !! primary productId = Some item →
  item ∈ omap (referenced_product t) (query pk (Some "PRODUCT#") t).
Proof.
  intros Hindex Hid Hitem. apply list_elem_of_omap. exists index. split.
  - apply elem_of_query. eexists. split; [exact Hindex|].
    unfold key_matches. cbn [fst snd].
    by rewrite String.eqb_refl, prefix_append.
  - unfold referenced_product. by rewrite Hid.
Qed.

(** X1.  A product that [create] has returned is the record stored under
    its id: [findById] returns it, [findByUserId] of its creator lists
    it, and so does [findByCategory] of its category when it has one.
    It carries the id it was given and the id of its creator. *)
Theorem created_product_is_found (t t' : Table) (productData : obj)
    (userId productId now : string) (item : Item) :
  run eng (ProductModel.create productData userId productId now) t
  = (inr item, t') →
  item !! "id" = Some (Str productId)
  ∧ item !! "userId" = Some (Str userId)
  ∧ run eng (ProductModel.findById productId) t' = (inr (Some item), t')
  ∧ (∃ products,
       run eng (ProductModel.findByUserId userId) t' = (inr products, t')
       ∧ item ∈ products)
  ∧ (truthy (productData !! "category") = true →
     ∃ products,
       run eng (ProductModel.findByCategory
                  (to_str (productData !! "category"))) t'
       = (inr products, t')
       ∧ item ∈ products).
Proof.
  intros (-> & Hp & Ho & Hc & _)%product_create_table.
  split_and!.
  - unfold product. by rewrite literal_lookup.
  - unfold product. by rewrite literal_lookup.
  - by rewrite run_product_findById, Hp.
  - eexists. split; [apply run_findByUserId|].
    eapply index_record_resolves; [exact Ho| |exact Hp].
    unfold owner_index. by rewrite literal_lookup.
  - intros Hcat. eexists. split; [apply run_findByCategory|].
    eapply index_record_resolves; [exact (Hc Hcat)| |exact Hp].
    unfold category_record. by rewrite literal_lookup.
Qed.

End created_product.

Section created_product_examples.
Import Js DynamoDb Invariant Records Fixtures.

(** The product [p1] of [shop] is found under its id, its owner [u1]
    and its category [A]. *)
Lemma created_product_is_found_witness :
  run strict (ProductModel.create widget "u1" "p1" "T0") ∅
  = (inr (product widget "u1" "p1" "T0"), shop)
  ∧ ∃ products,
      run strict (ProductModel.findByCategory "A") shop = (inr products, shop)
      ∧ product widget "u1" "p1" "T0" ∈ products.
Proof.
  assert (run strict (ProductModel.create widget "u1" "p1" "T0") ∅
          = (inr (product widget "u1" "p1" "T0"), shop)) as Hrun.
  { unfold shop. rewrite run_product_create_records. reflexivity. }
  split; [exact Hrun|].
  apply (created_product_is_found strict ∅ shop widget "u1" "p1" "T0" _ Hrun).
  reflexivity.
Defined.

End created_product_examples.

(** ** Updating a product: refusals, the records touched, the index *)

Section product_updating.
Import Js DynamoDb Invariant Records.
Context (eng : Engine).

Lemma append_inj_l (p a b : string) : p +:+ a = p +:+ b → a = b.
Proof.
  induction p as [|c p IH]; [done|]. rewrite !append_cons. intros [= H].
  by apply IH.
Qed.

Lemma category_key_inj (c c' : option value) (productId : string) :
  category_key c productId = category_key c' productId ↔ to_str c = to_str c'.
Proof.
  unfold category_key. split; [|by intros ->].
  intros [= H]. by apply append_inj_l in H.
Qed.

(** The outcome of the block [// Handle category update]. *)
Lemma run_handle_category (t : Table) (productId : string)
    (updates product : obj) :
  let old := category_key (product !! "category") productId in
  let new := category_key (updates !! "category") productId in
  let record := category_record (updates !! "category") productId in
  run eng (ProductModel.handle_category productId updates product) t
  = if truthy (updates !! "category")
       && bool_decide (updates !! "category" ≠ product !! "category")
    then if truthy (product !! "category")
         then if bool_decide (to_str (updates !! "category")
                              = to_str (product !! "category"))
              then (inl ValidationException, t)
              else (inr (), <[new := record]> (delete old t))
         else (inr (), <[new := record]> t)
    else (inr (), t).
Proof.
  intros old new record. subst old new record.
  unfold ProductModel.handle_category, category_record.
  destruct (_ && _); [|done].
  destruct (truthy (product !! "category")); rewrite run_call; cbn [exec].
  - unfold transact_write. cbn [mapM item_key]. rewrite key_of_literal.
    cbn [mbind option_bind mret option_ret].
    fold (category_key (product !! "category") productId).
    fold (category_key (updates !! "category") productId).
    destruct (decide (to_str (updates !! "category")
                      = to_str (product !! "category"))) as [Heq|Hne].
    + rewrite (bool_decide_eq_true_2 _ Heq).
      rewrite bool_decide_eq_false_2; [done|].
      intros [Hnd _]%NoDup_cons. apply Hnd, list_elem_of_singleton.
      symmetry. by apply category_key_inj.
    + rewrite (bool_decide_eq_false_2 _ Hne).
      rewrite bool_decide_eq_true_2.
      2:{ apply NoDup_cons. split; [|apply NoDup_singleton].
          intros Hin%list_elem_of_singleton. apply Hne. symmetry.
          by apply (category_key_inj _ _ productId). }
      cbn [negb forallb check holds andb foldl apply_item].
      by rewrite key_of_literal.
  - by rewrite key_of_literal.
Qed.

Lemma run_update_refused (t : Table) (productId userId now : string)
    (updates : obj) :
  match t !! primary productId with
  | Some product => product !! "userId" ≠ Some (Str userId)
  | None => True
  end →
  run eng (ProductModel.update productId updates userId now) t
  = (inl (JsError match t !! primary productId with
                  | Some _ => "Unauthorized to update this product"
                  | None => "Product not found"
                  end), t).
Proof.
  intros Hrej. unfold ProductModel.update.
  rewrite run_bind, run_product_findById.
  destruct (t !! primary productId) as [product|]; [|done].
  by rewrite bool_decide_eq_true_2.
Qed.

(** X2.  An update of a product that is not stored, or that another
    user owns, is refused by the adapter before anything is written: it
    raises "Product not found" or "Unauthorized to update this product",
    and the table is as it was.  The handler of the key-value backend
    does not get that far.  The object it holds as [ProductModel] is the
    empty object that [require] yields for product.model.js, the call of
    its [update] raises a [TypeError], and the handler ends in
    [next(error)] without a request to the table, where it is written to
    answer 404 or 403. *)
Theorem update_of_another_users_product_is_refused (t : Table)
    (productId userId now : string) (body : obj) :
  match t !! primary productId with
  | Some product => product !! "userId" ≠ Some (Str userId)
  | None => True
  end →
  let refusal :=
    match t !! primary productId with
    | Some _ => "Unauthorized to update this product"
    | None => "Product not found"
    end in
  let p := ProductController.updateProduct productId body userId now in
  (∀ updates,
     run eng (ProductModel.update productId updates userId now) t
     = (inl (JsError refusal), t)
     ∧ filter is_write
         (trace eng (ProductModel.update productId updates userId now) t)
       = [])
  ∧ run eng p t
    = (inr (ProductController.Next
              (JsError "ProductModel.update is not a function")), t)
  ∧ trace eng p t = [].
Proof.
  intros Hrej refusal p. split; [|split; reflexivity].
  intros updates. split.
  - by rewrite run_update_refused.
  - by destruct (run_update_rejected eng t productId userId now updates Hrej)
      as (_ & _ & Hw).
Qed.

(** The category block leaves every record but the category index
    records of this product. *)
Lemma handle_category_touches (t : Table) (productId : string)
    (updates product : obj) (k : Key) :
  ¬ (String.prefix "CATEGORY#" k.1 = true ∧ k.2 = "PRODUCT#" +:+ productId) →
  (run eng (ProductModel.handle_category productId updates product) t).2 !! k
  = t !! k.
Proof.
  intros Hk. rewrite run_handle_category.
  assert (∀ c, k ≠ category_key c productId) as Hne.
  { intros c ->. apply Hk. split; [apply prefix_append|done]. }
  repeat case_match; cbn [snd]; try done.
  - rewrite lookup_insert_ne, lookup_delete_ne; [done|..]; by apply not_eq_sym.
  - rewrite lookup_insert_ne; [done|]. by apply not_eq_sym.
Qed.

(** X3.  Whatever the patch and whatever the outcome, an update of a
    product changes no record of the table other than the primary
    record of that product and the category index records that point to
    it: other products, the records of users, and the index records of
    other products stay as they are. *)
Theorem product_update_touches_only_its_records (t : Table)
    (productId userId now : string) (updates : obj) (k : Key) :
  k ≠ primary productId →
  ¬ (String.prefix "CATEGORY#" k.1 = true ∧ k.2 = "PRODUCT#" +:+ productId) →
  (run eng (ProductModel.update productId updates userId now) t).2 !! k
  = t !! k.
Proof.
  intros Hk Hc.
  destruct (t !! primary productId) as [product|] eqn:Hp.
  2:{ by rewrite run_update_refused by (by rewrite Hp). }
  destruct (decide (product !! "userId" = Some (Str userId))) as [Hu|Hu].
  2:{ by rewrite run_update_refused by (by rewrite Hp). }
  rewrite (run_update_found eng t _ _ _ _ product Hp Hu).
  pose proof (handle_category_touches t productId updates product k Hc)
    as Hframe.
  destruct (run eng (ProductModel.handle_category _ _ _) t) as [[e|[]] t1];
    [done|]. cbn [snd] in Hframe.
  pose proof (exec_patch eng ProductModel.patchable now updates
                (primary productId) t1) as Hex.
  cbv zeta in Hex. destruct Hex as [Hex|(it & Hex & Hit)]; rewrite Hex;
    cbn [snd]; [done|].
  by rewrite lookup_insert_ne.
Qed.

End product_updating.

Section product_updating_examples.
Import Js DynamoDb Invariant Records Fixtures.

(** In [shop], the product [p1] belongs to [u1]: the adapter refuses an
    update by [u2], and the handler ends in a [TypeError]. *)
Lemma update_of_another_users_product_is_refused_witness :
  match shop !! primary "p1" with
  | Some product => product !! "userId" ≠ Some (Str "u2")
  | None => True
  end
  ∧ run strict (ProductModel.update "p1" {[ "price" := Num 1 ]} "u2" "T1") shop
    = (inl (JsError "Unauthorized to update this product"), shop)
  ∧ run strict
      (ProductController.updateProduct "p1" {[ "price" := Num 1 ]} "u2" "T1")
      shop
    = (inr (ProductController.Next
              (JsError "ProductModel.update is not a function")), shop).
Proof.
  assert (match shop !! primary "p1" with
          | Some product => product !! "userId" ≠ Some (Str "u2")
          | None => True
          end) as H by (vm_compute; discriminate).
  split; [exact H|].
  destruct (update_of_another_users_product_is_refused strict shop "p1" "u2"
              "T1" {[ "price" := Num 1 ]} H) as (Hadapter & Hrun & _).
  split; [|exact Hrun].
  destruct (Hadapter {[ "price" := Num 1 ]}) as [Hrefused _].
  rewrite Hrefused. reflexivity.
Defined.

(** A record of another product, here the owner index record of [p1],
    is untouched by an update of [p2]. *)
Lemma product_update_touches_only_its_records_witness :
  owner_key "u1" "p1" ≠ primary "p2"
  ∧ (run strict (ProductModel.update "p2" {[ "price" := Num 1 ]} "u1" "T1")
       shop).2 !! owner_key "u1" "p1"
    = shop !! owner_key "u1" "p1".
Proof.
  assert (owner_key "u1" "p1" ≠ primary "p2") as Hne by discriminate.
  split; [exact Hne|].
  apply (product_update_touches_only_its_records strict shop "p2" "u1" "T1"
           {[ "price" := Num 1 ]} (owner_key "u1" "p1") Hne).
  intros [H _]. discriminate.
Defined.

End product_updating_examples.

(** ** The record a patch leaves *)

Section patched_record.
Import Js DynamoDb Invariant Records.
Context (g : string → bool).

Lemma patch_updatedAt_value (now : string) (updates : obj) :
  (patch g now updates).2 !! ":updatedAt"
  = match updates !! "updatedAt" with
    | Some v => if g "updatedAt" then Some v else Some (Str now)
    | None => Some (Str now)
    end.
Proof.
  destruct (updates !! "updatedAt") as [v|] eqn:Hu;
    [destruct (g "updatedAt") eqn:Hg|].
  - by apply (patch_values g now updates "updatedAt").
  - unfold patch. rewrite fold_add_field_other; [done|].
    intros e He Hge Heq. apply (String.app_inj ":" "updatedAt") in Heq.
    congruence.
  - unfold patch. rewrite fold_add_field_other; [done|].
    intros [k w] He Hge Heq. apply (String.app_inj ":" "updatedAt") in Heq.
    cbn in Heq. subst k. apply elem_of_map_to_list in He. congruence.
Qed.

(** What the expression of [patch] gives an attribute: a field of the
    patch that passes the guard gets the value of the patch, [updatedAt]
    otherwise the time of the update, and every other attribute stays. *)
Lemma patch_formula (now : string) (updates : obj) (it : Item) (a : string) :
  (if bool_decide (a ∈ (patch g now updates).1.*1)
   then (patch g now updates).2 !! (":" +:+ a) else it !! a)
  = match updates !! a with
    | Some v =>
        if g a then Some v
        else if String.eqb a "updatedAt" then Some (Str now) else it !! a
    | None => if String.eqb a "updatedAt" then Some (Str now) else it !! a
    end.
Proof.
  destruct (String.eqb_spec a "updatedAt") as [->|Hne].
  - rewrite bool_decide_eq_true_2 by (apply patch_targets; by left).
    rewrite patch_updatedAt_value.
    by destruct (updates !! "updatedAt"), (g "updatedAt").
  - destruct (updates !! a) as [v|] eqn:Hv; [destruct (g a) eqn:Hg|].
    + rewrite bool_decide_eq_true_2 by (apply patch_targets; right; eauto).
      by apply patch_values.
    + rewrite bool_decide_eq_false_2; [done|].
      rewrite patch_targets. intros [?|[? _]]; congruence.
    + rewrite bool_decide_eq_false_2; [done|].
      rewrite patch_targets. intros [?|[_ [? ?]]]; congruence.
Qed.

Lemma patch_applied (now : string) (updates : obj) (it it' : Item)
    (a : string) :
  apply_sets (patch g now updates).1 (patch g now updates).2 it = Some it' →
  it' !! a
  = match updates !! a with
    | Some v =>
        if g a then Some v
        else if String.eqb a "updatedAt" then Some (Str now) else it !! a
    | None => if String.eqb a "updatedAt" then Some (Str now) else it !! a
    end.
Proof.
  intros Hit.
  rewrite (apply_sets_lookup _ _ _ _ a
             (λ a ph Hin, proj1 (patch_well_formed g _ _ a ph Hin)) Hit).
  apply patch_formula.
Qed.

(** The same with the clause [password = :password] appended. *)
Lemma patch_with_password_applied (now : string) (updates : obj)
    (hashed : value) (it it' : Item) (a : string) :
  apply_sets ((patch g now updates).1 ++ [("password", ":password")])
    (<[":password" := hashed]> (patch g now updates).2) it = Some it' →
  it' !! a
  = if String.eqb a "password" then Some hashed
    else match updates !! a with
         | Some v =>
             if g a then Some v
             else if String.eqb a "updatedAt" then Some (Str now)
                  else it !! a
         | None =>
             if String.eqb a "updatedAt" then Some (Str now) else it !! a
         end.
Proof.
  intros Hit.
  assert (∀ a ph, (a, ph) ∈ (patch g now updates).1 ++ [("password", ":password")]
                  → ph = ":" +:+ a) as Hwf.
  { intros b ph [Hin|Hin%list_elem_of_singleton]%elem_of_app.
    - by apply (patch_well_formed g now updates).
    - by injection Hin as -> ->. }
  rewrite (apply_sets_lookup _ _ _ _ a Hwf Hit). rewrite fmap_app.
  destruct (String.eqb_spec a "password") as [->|Hne].
  - rewrite bool_decide_eq_true_2
      by (apply elem_of_app; right; apply list_elem_of_singleton; done).
    apply lookup_insert_eq.
  - rewrite <- patch_formula.
    rewrite lookup_insert_ne
      by (intros H%(String.app_inj ":"); congruence).
    destruct (decide (a ∈ (patch g now updates).1.*1)) as [Hin|Hnin].
    + rewrite !bool_decide_eq_true_2; [done|done|].
      apply elem_of_app. by left.
    + rewrite !bool_decide_eq_false_2; [done|done|].
      intros [?|Hin%list_elem_of_singleton]%elem_of_app; [done|].
      cbn in Hin. congruence.
Qed.

End patched_record.

Section product_patch.
Import Js DynamoDb Invariant Records.
Context (eng : Engine).

(** X4.  The record a successful update of a product returns is the
    record it has stored, and it is the stored record patched field by
    field: [id], [userId], [pk], [sk] and [createdAt] are as they were
    whatever the patch says, every other field of the patch has the
    value of the patch, [updatedAt] is the time of the update unless the
    patch names it, and the attributes the patch does not name are as
    they were. *)
Theorem product_update_patches_field_by_field (t t' : Table)
    (productId userId now : string) (updates : obj) (product item : Item) :
  t !! primary productId = Some product →
  run eng (ProductModel.update productId updates userId now) t
  = (inr item, t') →
  t' !! primary productId = Some item
  ∧ (∀ a, a ∈ ["id"; "userId"; "pk"; "sk"; "createdAt"] →
          item !! a = product !! a)
  ∧ (∀ a v, a ∉ ["id"; "userId"; "pk"; "sk"; "createdAt"] →
            updates !! a = Some v → item !! a = Some v)
  ∧ (updates !! "updatedAt" = None → item !! "updatedAt" = Some (Str now))
  ∧ (∀ a, updates !! a = None → a ≠ "updatedAt" → item !! a = product !! a).
Proof.
  intros Hp Hrun.
  destruct (decide (product !! "userId" = Some (Str userId))) as [Hu|Hu].
  2:{ rewrite run_update_refused in Hrun by (by rewrite Hp). done. }
  rewrite (run_update_found eng t _ _ _ _ product Hp Hu) in Hrun.
  pose proof (handle_category_frame eng t productId updates product
                (primary productId) eq_refl) as Hframe.
  destruct (run eng (ProductModel.handle_category _ _ _) t) as [[e|[]] t1];
    [done|]. cbn [snd] in Hframe.
  pose proof (exec_patch eng ProductModel.patchable now updates
                (primary productId) t1) as Hex.
  cbv zeta in Hex. destruct Hex as [Hex|(it & Hex & Hit)];
    rewrite Hex in Hrun; [done|]. injection Hrun as -> <-.
  rewrite Hframe, Hp in Hit. cbn [default] in Hit.
  pose proof (λ a, patch_applied ProductModel.patchable now updates
                     product item a Hit) as Hitem.
  split_and!.
  - apply lookup_insert_eq.
  - intros a Ha. rewrite Hitem.
    repeat (apply elem_of_cons in Ha as [->|Ha]);
      [..|by apply elem_of_nil in Ha]; by destruct (updates !! _).
  - intros a v Ha Hv. rewrite Hitem, Hv.
    assert (ProductModel.patchable a = true) as ->; [|done].
    unfold ProductModel.patchable.
    repeat (apply not_elem_of_cons in Ha as [? Ha]).
    repeat (apply andb_true_intro; split);
      by apply negb_true_iff, String.eqb_neq.
  - intros Hnone. by rewrite Hitem, Hnone.
  - intros a Hnone Hne. rewrite Hitem, Hnone.
    by apply String.eqb_neq in Hne as ->.
Qed.

End product_patch.

Section product_patch_examples.
Import Js DynamoDb Invariant Records Fixtures.

(** A patch of [p1] that names [id] and [price]: the price is taken,
    the id is not. *)
Lemma product_update_patches_field_by_field_witness :
  let updates : obj := {[ "id" := Str "p9"; "price" := Num 5 ]} in
  let r := run strict (ProductModel.update "p1" updates "u1" "T1") shop in
  shop !! primary "p1" = Some (product widget "u1" "p1" "T0")
  ∧ (returned r ≫= (.!! "id")) = Some (Str "p1")
  ∧ (returned r ≫= (.!! "price")) = Some (Num 5)
  ∧ (returned r ≫= (.!! "updatedAt")) = Some (Str "T1").
Proof.
  intros updates r.
  assert (shop !! primary "p1" = Some (product widget "u1" "p1" "T0")) as Hp.
  { unfold shop. rewrite run_product_create_records. reflexivity. }
  split; [exact Hp|].
  assert (is_Some (returned r)) as Hsome by compute_done.
  subst r.
  destruct (run strict (ProductModel.update "p1" updates "u1" "T1") shop)
    as [[e|item] t'] eqn:Hr; [by destruct Hsome|].
  destruct (product_update_patches_field_by_field strict shop t' "p1" "u1"
              "T1" updates _ item Hp Hr) as (_ & Hkept & Hset & Hat & _).
  cbn [returned fst mbind option_bind]. split_and!.
  - rewrite (Hkept "id") by (apply elem_of_cons; by left).
    unfold product. by rewrite literal_lookup.
  - apply Hset; [|done]. intros H.
    repeat (apply elem_of_cons in H as [H|H]; [discriminate|]).
    by apply elem_of_nil in H.
  - by apply Hat.
Defined.

End product_patch_examples.

(** ** The category index across the operations on a product *)

Section index_agreement.
Import Js DynamoDb Invariant Records Index.
Context (eng : Engine).

Lemma NoDup_in_order_keys (t : Table) : NoDup (fst <$> in_order t).
Proof.
  unfold in_order. rewrite merge_sort_Permutation.
  apply NoDup_fst_map_to_list.
Qed.

Lemma elem_of_category_index (productId : string) (t : Table) (k : Key) :
  k ∈ category_index productId t ↔ indexes productId k ∧ is_Some (t !! k).
Proof.
  unfold category_index. rewrite list_elem_of_filter, list_elem_of_fmap.
  split.
  - intros [Hk ([k' it] & -> & Hin)]. split; [done|].
    apply elem_of_in_order in Hin. by exists it.
  - intros [Hk [it Hit]]. split; [done|]. exists (k, it).
    split; [done|]. by apply elem_of_in_order.
Qed.

Lemma NoDup_category_index (productId : string) (t : Table) :
  NoDup (category_index productId t).
Proof. apply NoDup_filter, NoDup_in_order_keys. Qed.

Lemma list_is_singleton {A} (l : list A) (a : A) :
  NoDup l → (∀ x, x ∈ l ↔ x = a) → l = [a].
Proof.
  intros Hnd Hl. destruct l as [|x l].
  { exfalso. eapply not_elem_of_nil. apply Hl. reflexivity. }
  assert (x = a) as -> by (apply Hl; left).
  f_equal. destruct l as [|y l]; [done|]. exfalso.
  apply NoDup_cons in Hnd as [Hx _]. apply Hx.
  assert (y = a) as -> by (apply Hl; right; left). left.
Qed.

Lemma list_is_nil {A} (l : list A) : (∀ x, x ∉ l) → l = [].
Proof. destruct l as [|x l]; [done|]. intros H. destruct (H x). left. Qed.

(** What [agrees] says, key by key. *)
Lemma agrees_spec (productId : string) (t : Table) :
  agrees productId t = true ↔
  ∀ k, indexes productId k →
       (is_Some (t !! k) ↔
        match t !! primary productId with
        | Some product =>
            truthy (product !! "category") = true
            ∧ k = category_key (product !! "category") productId
        | None => False
        end).
Proof.
  unfold agrees.
  assert (∀ c, indexes productId (category_key c productId)) as Hshape.
  { intros c. split; [apply prefix_append|done]. }
  destruct (t !! primary productId) as [product|];
    [destruct (truthy (product !! "category")) eqn:Hc|];
    rewrite bool_decide_eq_true; split.
  - intros Hl k Hk. split.
    + intros Hs. split; [done|].
      assert (k ∈ category_index productId t) as Hin
        by by apply elem_of_category_index.
      rewrite Hl in Hin. by apply list_elem_of_singleton in Hin.
    + intros [_ ->].
      assert (category_key (product !! "category") productId
              ∈ category_index productId t) as Hin
        by (rewrite Hl; left).
      by apply elem_of_category_index in Hin as [_ ?].
  - intros H. apply list_is_singleton; [apply NoDup_category_index|].
    intros k. rewrite elem_of_category_index. split.
    + intros [Hk Hs]. by apply (H k Hk) in Hs as [_ ?].
    + intros ->. split; [done|]. by apply H.
  - intros Hl k Hk. split; [|by intros [? _]].
    intros Hs. assert (k ∈ category_index productId t) as Hin
      by by apply elem_of_category_index.
    rewrite Hl in Hin. by apply elem_of_nil in Hin.
  - intros H. apply list_is_nil. intros k [Hk Hs]%elem_of_category_index.
    by apply (H k Hk) in Hs as [? _].
  - intros Hl k Hk. split; [|done].
    intros Hs. assert (k ∈ category_index productId t) as Hin
      by by apply elem_of_category_index.
    rewrite Hl in Hin. by apply elem_of_nil in Hin.
  - intros H. apply list_is_nil. intros k [Hk Hs]%elem_of_category_index.
    by apply (H k Hk) in Hs.
Qed.

Lemma indexes_category_key (c : option value) (productId : string) :
  indexes productId (category_key c productId).
Proof. split; [apply prefix_append|done]. Qed.

Lemma indexes_not_primary (productId productId' : string) (k : Key) :
  indexes productId k → k ≠ primary productId'.
Proof. intros [Hk _] ->. cbn [fst primary] in Hk. discriminate. Qed.

Lemma indexes_not_owner (productId userId productId' : string) (k : Key) :
  indexes productId k → k ≠ owner_key userId productId'.
Proof. intros [Hk _] ->. cbn [fst owner_key] in Hk. discriminate. Qed.


Lemma product_update_success (t t' : Table) (productId userId now : string)
    (updates : obj) (item : Item) :
  run eng (ProductModel.update productId updates userId now) t
  = (inr item, t') →
  ∃ product t1,
    t !! primary productId = Some product
    ∧ product !! "userId" = Some (Str userId)
    ∧ run eng (ProductModel.handle_category productId updates product) t
      = (inr (), t1)
    ∧ t' = <[primary productId := item]> t1
    ∧ apply_sets (patch ProductModel.patchable now updates).1
        (patch ProductModel.patchable now updates).2 product = Some item.
Proof.
  intros Hrun.
  destruct (t !! primary productId) as [product|] eqn:Hp.
  2:{ rewrite run_update_refused in Hrun by (by rewrite Hp). done. }
  destruct (decide (product !! "userId" = Some (Str userId))) as [Hu|Hu].
  2:{ rewrite run_update_refused in Hrun by (by rewrite Hp). done. }
  rewrite (run_update_found eng t _ _ _ _ product Hp Hu) in Hrun.
  pose proof (handle_category_frame eng t productId updates product
                (primary productId) eq_refl) as Hframe.
  destruct (run eng (ProductModel.handle_category _ _ _) t)
    as [[e|[]] t1] eqn:Hhc; [done|]. cbn [snd] in Hframe.
  pose proof (exec_patch eng ProductModel.patchable now updates
                (primary productId) t1) as Hex.
  cbv zeta in Hex. destruct Hex as [Hex|(it & Hex & Hit)];
    rewrite Hex in Hrun; [done|]. injection Hrun as -> <-.
  rewrite Hframe, Hp in Hit. by exists product, t1.
Qed.

(** X5.  A successful update keeps the primary record and the category
    index in agreement when the patch leaves the category alone or names
    a category that is not empty.  When the patch names a category under
    another name than the stored one, the index record under the stored
    name is gone afterwards, and the lookup under the new name returns
    the updated product. *)
Theorem category_change_moves_the_index_record (t t' : Table)
    (productId userId now : string) (updates : obj) (product item : Item) :
  t !! primary productId = Some product →
  agrees productId t = true →
  (is_Some (updates !! "category") → truthy (updates !! "category") = true) →
  run eng (ProductModel.update productId updates userId now) t
  = (inr item, t') →
  agrees productId t' = true
  ∧ (truthy (updates !! "category") = true →
     to_str (updates !! "category") ≠ to_str (product !! "category") →
     t' !! category_key (product !! "category") productId = None
     ∧ ∃ products,
         run eng (ProductModel.findByCategory
                    (to_str (updates !! "category"))) t'
         = (inr products, t')
         ∧ item ∈ products).
Proof.
  intros Hp Hagree Hcat Hrun.
  destruct (product_update_success _ _ _ _ _ _ _ Hrun)
    as (product' & t1 & Hp' & Hu & Hhc & -> & Hit).
  rewrite Hp in Hp'. injection Hp' as <-.
  pose proof (patch_applied ProductModel.patchable now updates product item
                "category" Hit) as Hic.
  rewrite product_patchable_category in Hic. cbn [String.eqb] in Hic.
  rewrite run_handle_category in Hhc.
  pose proof (proj1 (agrees_spec productId t) Hagree) as Hold.
  rewrite Hp in Hold.
  assert (agrees productId (<[primary productId := item]> t1) = true
          ∧ (truthy (updates !! "category") = true →
             to_str (updates !! "category") ≠ to_str (product !! "category") →
             t1 !! category_key (updates !! "category") productId
             = Some (category_record (updates !! "category") productId)))
    as [Hnew Hrec].
  { rewrite agrees_spec, lookup_insert_eq.
    destruct (updates !! "category") as [v|] eqn:Hv.
    2:{ injection Hhc as <-. split; [|done]. intros k Hk.
        rewrite lookup_insert_ne by (symmetry; by eapply indexes_not_primary).
        rewrite Hic. by apply Hold. }
    rewrite (Hcat (mk_is_Some _ _ eq_refl)) in Hhc |- *. cbn [andb] in Hhc.
    destruct (decide (Some v = product !! "category")) as [Heq|Hne].
    { rewrite bool_decide_eq_false_2 in Hhc by (by intros ?).
      injection Hhc as <-. split; [|by rewrite Heq].
      intros k Hk.
      rewrite lookup_insert_ne by (symmetry; by eapply indexes_not_primary).
      rewrite Hic, Heq. by apply Hold. }
    rewrite (bool_decide_eq_true_2 _ Hne) in Hhc.
    destruct (truthy (product !! "category")) eqn:Hpc.
    - case_bool_decide as Hs; [done|]. injection Hhc as <-.
      split; [|intros _ _; apply lookup_insert_eq].
      intros k Hk.
      rewrite lookup_insert_ne by (symmetry; by eapply indexes_not_primary).
      rewrite Hic, (Hcat (mk_is_Some _ _ eq_refl)).
      destruct (decide (k = category_key (Some v) productId)) as [->|Hk'].
      { by rewrite lookup_insert_eq. }
      rewrite lookup_insert_ne by done.
      destruct (decide (k = category_key (product !! "category") productId))
        as [->|Hk''].
      { rewrite lookup_delete_eq. split; [by intros []|by intros [_ ?]]. }
      rewrite lookup_delete_ne by done. rewrite (Hold k Hk).
      split; [by intros [_ ?]|by intros [_ ?]].
    - injection Hhc as <-. split; [|intros _ _; apply lookup_insert_eq].
      intros k Hk.
      rewrite lookup_insert_ne by (symmetry; by eapply indexes_not_primary).
      rewrite Hic, (Hcat (mk_is_Some _ _ eq_refl)).
      destruct (decide (k = category_key (Some v) productId)) as [->|Hk'].
      { by rewrite lookup_insert_eq. }
      rewrite lookup_insert_ne by done. rewrite (Hold k Hk).
      split; [by intros [? _]|by intros [_ ?]]. }
  split; [exact Hnew|]. intros Htruthy Hdiff.
  pose proof (proj1 (agrees_spec _ _) Hnew) as Hspec.
  rewrite lookup_insert_eq in Hspec.
  assert (item !! "category" = updates !! "category") as Hic'.
  { rewrite Hic. destruct (updates !! "category"); [done|discriminate]. }
  split.
  - apply eq_None_not_Some.
    rewrite (Hspec _ (indexes_category_key _ _)), Hic'.
    intros [_ Heq%category_key_inj]. by apply Hdiff.
  - eexists. split; [apply run_findByCategory|].
    eapply index_record_resolves; [| |apply lookup_insert_eq].
    + rewrite lookup_insert_ne
        by (symmetry; eapply indexes_not_primary, indexes_category_key).
      by apply Hrec.
    + unfold category_record. by rewrite literal_lookup.
Qed.

Lemma product_delete_success (t t' : Table) (productId userId : string) :
  run eng (ProductModel.delete productId userId) t = (inr true, t') →
  ∃ product,
    t !! primary productId = Some product
    ∧ product !! "userId" = Some (Str userId)
    ∧ t' = if truthy (product !! "category")
           then delete (category_key (product !! "category") productId)
                  (delete (owner_key userId productId)
                     (delete (primary productId) t))
           else delete (owner_key userId productId)
                  (delete (primary productId) t).
Proof.
  unfold ProductModel.delete. rewrite run_bind, run_product_findById.
  destruct (t !! primary productId) as [product|] eqn:Hp; [|done].
  case_bool_decide as Hu; [done|].
  rewrite run_bind, run_call. cbn [exec].
  pose proof (delete_keys_distinct productId userId
                (to_str (product !! "category"))) as Hnd.
  assert (NoDup [primary productId; owner_key userId productId]) as Hnd2.
  { apply NoDup_cons in Hnd as [Hx _].
    apply NoDup_cons. split; [|apply NoDup_singleton].
    intros Hin%list_elem_of_singleton. apply Hx, elem_of_cons. by left. }
  pose proof (transact_write_deletes t _ Hnd) as Htw.
  pose proof (transact_write_deletes t _ Hnd2) as Htw2.
  unfold primary, owner_key in *. cbn [fmap list_fmap foldl] in Htw, Htw2.
  destruct (truthy (product !! "category")) eqn:Hc; cbn [app].
  - rewrite Htw. cbn. intros [= <-]. exists product. by rewrite Hc.
  - rewrite Htw2. cbn. intros [= <-]. exists product. by rewrite Hc.
Qed.

(** X7.  After a successful delete of a product whose index agreed with
    it, the product is not found under its id, its owner index record is
    gone, no category index record of it remains, and every product that
    a lookup by owner or by category still returns is one stored under
    another id. *)
Theorem deleted_product_is_gone (t t' : Table) (productId userId : string) :
  agrees productId t = true →
  run eng (ProductModel.delete productId userId) t = (inr true, t') →
  run eng (ProductModel.findById productId) t' = (inr None, t')
  ∧ t' !! owner_key userId productId = None
  ∧ category_index productId t' = []
  ∧ (∀ (pk : string) (found : Item),
       found ∈ omap (referenced_product t') (query pk (Some "PRODUCT#") t') →
       ∃ productId', productId' ≠ productId
                     ∧ t' !! primary productId' = Some found).
Proof.
  intros Hagree (product & Hp & Hu & ->)%product_delete_success.
  pose proof (proj1 (agrees_spec productId t) Hagree) as Hold.
  rewrite Hp in Hold.
  destruct (product_keys_distinct productId userId
              (to_str (product !! "category"))) as (Hpo & Hpc & Hoc).
  fold (category_key (product !! "category") productId) in Hpc, Hoc.
  set (t' := if truthy (product !! "category") then _ else _).
  assert (t' !! primary productId = None) as Hgone.
  { unfold t'. destruct (truthy _);
      by rewrite ?lookup_delete_ne, lookup_delete_eq by done. }
  assert (∀ k, indexes productId k → t' !! k = None) as Hidx.
  { intros k Hk. unfold t'. specialize (Hold k Hk).
    destruct (truthy (product !! "category")).
    - destruct (decide (k = category_key (product !! "category") productId))
        as [->|Hne]; [apply lookup_delete_eq|].
      rewrite !lookup_delete_ne
        by (first [done | symmetry; by eapply indexes_not_owner
                  | symmetry; by eapply indexes_not_primary]).
      apply eq_None_not_Some. rewrite Hold. by intros [_ ?].
    - rewrite !lookup_delete_ne
        by (first [symmetry; by eapply indexes_not_owner
                  | symmetry; by eapply indexes_not_primary]).
      apply eq_None_not_Some. rewrite Hold. by intros [? _]. }
  split_and!.
  - by rewrite run_product_findById, Hgone.
  - unfold t'. destruct (truthy _);
      by rewrite ?lookup_delete_ne, lookup_delete_eq by done.
  - apply list_is_nil. intros k [Hk Hs]%elem_of_category_index.
    rewrite (Hidx k Hk) in Hs. by destruct Hs.
  - intros pk found (index & _ & Hfound)%list_elem_of_omap.
    unfold referenced_product in Hfound.
    exists (to_str (index !! "id")). split; [|done].
    intros Heq. rewrite Heq in Hfound. congruence.
Qed.

Lemma or_truthy (a b : option value) :
  truthy a = true → or a b = a.
Proof. unfold or. by intros ->. Qed.

Lemma or_falsy (a b : option value) :
  truthy a = false → or a b = b.
Proof. unfold or. by intros ->. Qed.

(** X6.  A product that is created under an id no category index record
    points to yet agrees with its category index: it is indexed under
    its category and under nothing else, or not at all when it has
    none. *)
Theorem created_product_agrees_with_its_index (t t' : Table)
    (productData : obj) (userId productId now : string) (item : Item) :
  category_index productId t = [] →
  run eng (ProductModel.create productData userId productId now) t
  = (inr item, t') →
  agrees productId t' = true.
Proof.
  intros Hfresh (-> & Hp & Ho & Hc & Hother & Hnc)%product_create_table.
  assert (∀ k, indexes productId k → t !! k = None) as Hnone.
  { intros k Hk. apply eq_None_not_Some. intros Hs.
    assert (k ∈ category_index productId t) as Hin
      by by apply elem_of_category_index.
    rewrite Hfresh in Hin. by apply elem_of_nil in Hin. }
  apply agrees_spec. intros k Hk. rewrite Hp.
  unfold product at 1 2. rewrite !literal_lookup. cbn [assoc String.eqb Ascii.eqb Bool.eqb].
  destruct (truthy (productData !! "category")) eqn:Hcat.
  - rewrite (or_truthy _ _ Hcat).
    destruct (productData !! "category") as [v|] eqn:Hv; [|done].
    rewrite Hcat.
    destruct (decide (k = category_key (Some v) productId)) as [->|Hne].
    + by rewrite (Hc eq_refl).
    + rewrite Hother, (Hnone k Hk);
        [|by eapply indexes_not_primary|by eapply indexes_not_owner|done].
      split; [by intros []|by intros [_ ?]].
  - rewrite (or_falsy _ _ Hcat). cbn [truthy].
    destruct (decide (k = category_key (productData !! "category") productId))
      as [->|Hne].
    + rewrite (Hnc eq_refl), (Hnone _ Hk). split; [by intros []|by intros [? _]].
    + rewrite Hother, (Hnone k Hk);
        [|by eapply indexes_not_primary|by eapply indexes_not_owner|done].
      split; [by intros []|by intros [? _]].
Qed.

End index_agreement.

Section index_agreement_examples.
Import Js DynamoDb Invariant Records Index Fixtures.

(** [p1] moves from category [A] to [B]: afterwards it agrees with its
    index, the record under [A] is gone, and the lookup under [B] finds
    it. *)
Lemma category_change_moves_the_index_record_witness :
  let updates : obj := {[ "category" := Str "B" ]} in
  let r := run strict (ProductModel.update "p1" updates "u1" "T1") shop in
  agrees "p1" shop = true
  ∧ is_Some (returned r)
  ∧ agrees "p1" r.2 = true
  ∧ r.2 !! ("CATEGORY#A", "PRODUCT#p1") = None
  ∧ ∃ products,
      run strict (ProductModel.findByCategory "B") r.2 = (inr products, r.2)
      ∧ ∀ item, returned r = Some item → item ∈ products.
Proof.
  intros updates r.
  assert (shop !! primary "p1" = Some (product widget "u1" "p1" "T0")) as Hp.
  { unfold shop. rewrite run_product_create_records. reflexivity. }
  assert (agrees "p1" shop = true) as Hagree by compute_done.
  assert (is_Some (returned r)) as Hsome by compute_done.
  assert (is_Some (updates !! "category") →
          truthy (updates !! "category") = true) as Hcat
    by (intros _; reflexivity).
  split; [exact Hagree|]. split; [exact Hsome|]. subst r.
  destruct (run strict (ProductModel.update "p1" updates "u1" "T1") shop)
    as [[e|item] t'] eqn:Hr; [by destruct Hsome|].
  destruct (category_change_moves_the_index_record strict shop t' "p1" "u1"
              "T1" updates _ item Hp Hagree Hcat Hr) as [Hnew Hmoved].
  split; [exact Hnew|].
  destruct Hmoved as [Hgone (products & Hfind & Hin)]; [done|done|].
  split; [exact Hgone|]. exists products. split; [exact Hfind|].
  by intros ? [= <-].
Defined.

(** The product [p1] of [shop], created in an empty table, agrees with
    its index. *)
Lemma created_product_agrees_with_its_index_witness :
  category_index "p1" ∅ = [] ∧ agrees "p1" shop = true.
Proof.
  split; [reflexivity|].
  apply (created_product_agrees_with_its_index strict ∅ shop widget "u1" "p1"
           "T0" (product widget "u1" "p1" "T0")); [reflexivity|].
  unfold shop. rewrite run_product_create_records. reflexivity.
Defined.

(** [p1] is deleted from [shop] by its owner. *)
Lemma deleted_product_is_gone_witness :
  let r := run strict (ProductModel.delete "p1" "u1") shop in
  agrees "p1" shop = true
  ∧ returned r = Some true
  ∧ run strict (ProductModel.findById "p1") r.2 = (inr None, r.2)
  ∧ category_index "p1" r.2 = [].
Proof.
  intros r.
  assert (agrees "p1" shop = true) as Hagree by compute_done.
  assert (returned r = Some true) as Hsome by compute_done.
  split; [exact Hagree|]. split; [exact Hsome|]. subst r.
  destruct (run strict (ProductModel.delete "p1" "u1") shop)
    as [[e|[]] t'] eqn:Hr; [discriminate Hsome| |discriminate Hsome].
  destruct (deleted_product_is_gone strict shop t' "p1" "u1" Hagree Hr)
    as (Hfind & _ & Hindex & _).
  split; [exact Hfind|exact Hindex].
Defined.

End index_agreement_examples.

(** ** The user adapter: creation, deletion, patches *)

Section user_records.
Import Js DynamoDb Invariant Records.
Context (eng : Engine) (bcrypt : Bcrypt.Impl).

Lemma user_keys_apart (userId userId' : string) (email : option value) :
  profile userId ≠ email_key email userId'.
Proof. family_neq. Qed.

Lemma profile_inj (userId userId' : string) :
  profile userId = profile userId' → userId = userId'.
Proof. intros [= H _]. by apply append_inj_l in H. Qed.

Lemma email_key_inj (email : option value) (userId userId' : string) :
  email_key email userId = email_key email userId' → userId = userId'.
Proof. intros [= H]. by apply append_inj_l in H. Qed.

Lemma run_user_create_records (t : Table) (userData : obj)
    (userId now salt password : string) :
  userData !! "password" = Some (Str password) →
  let item := user (Bcrypt.hash bcrypt password salt) userData userId now in
  let email := email_key (userData !! "email") userId in
  run eng (UserModel.create bcrypt userData userId now salt) t
  = if holds (AttributeNotExists ["pk"]) (t !! profile userId)
       && holds (AttributeNotExists ["pk"]) (t !! email)
    then (inr (without "password" item),
          <[email := email_index (userData !! "email") userId]>
            (<[profile userId := item]> t))
    else (inl (JsError "User with this email already exists"), t).
Proof.
  intros Hpw item email. subst item email.
  unfold UserModel.create, user, email_index, email_key. rewrite Hpw.
  rewrite run_try_catch, run_bind, run_call.
  cbn [exec]. unfold transact_write. cbn [mapM item_key].
  rewrite !key_of_literal. cbn [mbind option_bind mret option_ret].
  rewrite bool_decide_eq_true_2 by apply user_keys_distinct.
  cbn [negb forallb check]. rewrite !key_of_literal. cbn [mbind option_bind].
  fold (profile userId).
  destruct (holds _ (t !! profile userId)); [|done].
  cbn [andb]. destruct (holds _ (t !! (_, _))); [|done].
  cbn [foldl apply_item]. by rewrite !key_of_literal.
Qed.

Lemma user_create_needs_a_string (t t' : Table) (userData : obj)
    (userId now salt : string) (created : Item) :
  run eng (UserModel.create bcrypt userData userId now salt) t
  = (inr created, t') →
  ∃ password, userData !! "password" = Some (Str password).
Proof.
  unfold UserModel.create.
  destruct (userData !! "password") as [[| | |password]|]; try done.
  by exists password.
Qed.

Lemma created_user_email (hashed : string) (userData : obj)
    (userId now : string) :
  without "password" (user hashed userData userId now) !! "email"
  = userData !! "email".
Proof.
  unfold without. rewrite lookup_delete_ne by done.
  unfold user. rewrite literal_lookup. cbn.
  by destruct (userData !! "email").
Qed.

(** X8.  A user that [create] has returned is stored under its id with
    the hash of the password, and [findById] returns the same user:
    with the id it was given, the email of the request, the active flag
    set, and no password. *)
Theorem created_user_is_found (t t' : Table) (userData : obj)
    (userId now salt : string) (created : Item) :
  run eng (UserModel.create bcrypt userData userId now salt) t
  = (inr created, t') →
  run eng (UserModel.findById userId) t' = (inr (Some created), t')
  ∧ created !! "id" = Some (Str userId)
  ∧ created !! "email" = userData !! "email"
  ∧ created !! "isActive" = Some (Bool true)
  ∧ created !! "password" = None
  ∧ ∃ password,
      userData !! "password" = Some (Str password)
      ∧ (t' !! profile userId ≫= (.!! "password"))
        = Some (Str (Bcrypt.hash bcrypt password salt)).
Proof.
  intros Hrun.
  destruct (user_create_needs_a_string _ _ _ _ _ _ _ Hrun) as [password Hpw].
  rewrite (run_user_create_records t _ _ _ _ _ Hpw) in Hrun.
  destruct (_ && _); [|done]. injection Hrun as <- <-.
  pose proof (user_keys_apart userId userId (userData !! "email")) as Hne.
  assert (∀ a, a ≠ "password" →
            without "password"
              (user (Bcrypt.hash bcrypt password salt) userData userId now)
              !! a
            = assoc a
                [ ("pk", Some (Str ("USER#" +:+ userId)));
                  ("sk", Some (Str ("PROFILE#" +:+ userId)));
                  ("id", Some (Str userId));
                  ("email", userData !! "email");
                  ("password", Some (Str (Bcrypt.hash bcrypt password salt)));
                  ("firstName", or (userData !! "firstName") (Some Null));
                  ("lastName", or (userData !! "lastName") (Some Null));
                  ("profileImage", or (userData !! "profileImage") (Some Null));
                  ("role", or (userData !! "role") (Some (Str "user")));
                  ("isActive", Some (Bool true));
                  ("createdAt", Some (Str now));
                  ("updatedAt", Some (Str now)) ]) as Hl.
  { intros a Ha. unfold without. rewrite lookup_delete_ne by done.
    apply literal_lookup. }
  split_and!.
  - rewrite run_user_findById, lookup_insert_ne, lookup_insert_eq by done.
    done.
  - by rewrite Hl.
  - rewrite Hl by done. cbn. by destruct (userData !! "email").
  - by rewrite Hl.
  - apply without_password.
  - exists password. split; [done|].
    rewrite lookup_insert_ne, lookup_insert_eq by done.
    cbn [mbind option_bind]. unfold user. by rewrite literal_lookup.
Qed.

(** X9.  The adapter does not keep an email to one user.  After a user
    has been created, a second [create] with the same data under another
    id succeeds as well, unless records are stored under the keys of
    that id already; both users and both index records under the one
    email are stored afterwards. *)
Theorem same_email_is_stored_for_two_users (t t1 : Table) (userData : obj)
    (userId1 userId2 now1 now2 salt1 salt2 : string) (first : Item) :
  userId1 ≠ userId2 →
  t !! profile userId2 = None →
  t !! email_key (userData !! "email") userId2 = None →
  run eng (UserModel.create bcrypt userData userId1 now1 salt1) t
  = (inr first, t1) →
  ∃ second t2,
    run eng (UserModel.create bcrypt userData userId2 now2 salt2) t1
    = (inr second, t2)
    ∧ second !! "email" = first !! "email"
    ∧ is_Some (t2 !! profile userId1)
    ∧ is_Some (t2 !! profile userId2)
    ∧ is_Some (t2 !! email_key (userData !! "email") userId1)
    ∧ is_Some (t2 !! email_key (userData !! "email") userId2).
Proof.
  intros Hne Hfree1 Hfree2 Hrun.
  destruct (user_create_needs_a_string _ _ _ _ _ _ _ Hrun) as [password Hpw].
  rewrite (run_user_create_records t _ _ _ _ _ Hpw) in Hrun.
  destruct (_ && _); [|done]. injection Hrun as <- <-.
  pose proof (user_keys_apart userId1 userId1 (userData !! "email")) as Hpe11.
  pose proof (user_keys_apart userId1 userId2 (userData !! "email")) as Hpe12.
  pose proof (user_keys_apart userId2 userId1 (userData !! "email")) as Hpe21.
  pose proof (user_keys_apart userId2 userId2 (userData !! "email")) as Hpe22.
  assert (profile userId1 ≠ profile userId2) as Hpp
    by (intros H%profile_inj; done).
  assert (email_key (userData !! "email") userId1
          ≠ email_key (userData !! "email") userId2) as Hee
    by (intros H%email_key_inj; done).
  eexists _, _. split_and!.
  - rewrite (run_user_create_records _ _ _ _ _ _ Hpw).
    rewrite !lookup_insert_ne by (first [assumption|by apply not_eq_sym]).
    by rewrite Hfree1, Hfree2.
  - by rewrite !created_user_email.
  - rewrite ?lookup_insert_ne by (first [assumption|by apply not_eq_sym]).
    by rewrite lookup_insert_eq.
  - rewrite ?lookup_insert_ne by (first [assumption|by apply not_eq_sym]).
    by rewrite lookup_insert_eq.
  - rewrite ?lookup_insert_ne by (first [assumption|by apply not_eq_sym]).
    by rewrite lookup_insert_eq.
  - by rewrite lookup_insert_eq.
Qed.

(** X10.  [delete] of a user that is not stored raises "User not found"
    and leaves the table as it is.  Of a stored user it removes, in one
    transaction, the profile and the index record under the stored
    email; the user is not found afterwards.  No other record is
    touched: the products of the user and their owner index records
    stay. *)
Theorem user_delete_removes_profile_and_index (t : Table) (userId : string) :
  match t !! profile userId with
  | None =>
      run eng (UserModel.delete userId) t
      = (inl (JsError "User not found"), t)
  | Some stored =>
      let email := email_key (stored !! "email") userId in
      let t' := delete email (delete (profile userId) t) in
      run eng (UserModel.delete userId) t = (inr true, t')
      ∧ run eng (UserModel.findById userId) t' = (inr None, t')
      ∧ (∀ productId,
           t' !! primary productId = t !! primary productId
           ∧ t' !! owner_key userId productId
             = t !! owner_key userId productId)
  end.
Proof.
  unfold UserModel.delete. rewrite run_bind, run_user_findById.
  destruct (t !! profile userId) as [stored|] eqn:Hs; [|done].
  cbn [fmap option_fmap option_map]. cbv zeta.
  assert (without "password" stored !! "email" = stored !! "email") as ->
    by (by apply lookup_delete_ne).
  pose proof (user_keys_apart userId userId (stored !! "email")) as Hne.
  split_and!.
  - rewrite run_bind, run_call. cbn [exec].
    pose proof (transact_write_deletes t _
                  (user_keys_distinct userId (to_str (stored !! "email"))))
      as Htw.
    unfold profile, email_key in *. cbn [fmap list_fmap foldl] in Htw.
    by rewrite Htw.
  - rewrite run_user_findById.
    by rewrite lookup_delete_ne, lookup_delete_eq by done.
  - intros productId. split; rewrite !lookup_delete_ne; try done; family_neq.
Qed.

End user_records.

Section user_records_examples.
Import Js DynamoDb Invariant Records Fixtures.

(** The user [u1] of [users] is found under her id. *)
Lemma created_user_is_found_witness :
  let created :=
    without "password" (user "s1$Abcd1234" alice "u1" "T0") in
  run strict (UserModel.create bcrypt alice "u1" "T0" "s1") ∅
  = (inr created, users)
  ∧ run strict (UserModel.findById "u1") users = (inr (Some created), users)
  ∧ created !! "email" = Some (Str "a@x.com").
Proof.
  intros created.
  assert (run strict (UserModel.create bcrypt alice "u1" "T0" "s1") ∅
          = (inr created, users)) as Hrun.
  { unfold users.
    rewrite (run_user_create_records strict bcrypt ∅ alice "u1" "T0" "s1"
               "Abcd1234" eq_refl).
    reflexivity. }
  split; [exact Hrun|].
  destruct (created_user_is_found strict bcrypt ∅ users alice "u1" "T0" "s1"
              created Hrun) as (Hfind & _ & Hemail & _).
  split; [exact Hfind|]. rewrite Hemail. reflexivity.
Defined.

(** A second user [u2] is created in [users] with the email of [u1]. *)
Lemma same_email_is_stored_for_two_users_witness :
  "u1" ≠ "u2"
  ∧ (∅ : Table) !! profile "u2" = None
  ∧ is_Some (returned
               (run strict (UserModel.create bcrypt alice "u2" "T1" "s2")
                  users)).
Proof.
  assert ("u1" ≠ "u2") as Hne by discriminate.
  assert ((∅ : Table) !! profile "u2" = None) as Hfree1
    by apply lookup_empty.
  assert ((∅ : Table) !! email_key (alice !! "email") "u2" = None) as Hfree2
    by apply lookup_empty.
  split; [exact Hne|]. split; [exact Hfree1|].
  assert (run strict (UserModel.create bcrypt alice "u1" "T0" "s1") ∅
          = (inr (without "password" (user "s1$Abcd1234" alice "u1" "T0")),
             users)) as Hrun.
  { unfold users.
    rewrite (run_user_create_records strict bcrypt ∅ alice "u1" "T0" "s1"
               "Abcd1234" eq_refl).
    reflexivity. }
  destruct (same_email_is_stored_for_two_users strict bcrypt ∅ users alice
              "u1" "u2" "T0" "T1" "s1" "s2" _ Hne Hfree1 Hfree2 Hrun)
    as (second & t2 & -> & _).
  by eexists.
Defined.

End user_records_examples.

Section user_patch.
Import Js DynamoDb Invariant Records.
Context (eng : Engine) (bcrypt : Bcrypt.Impl).

Lemma exec_update_success (k : Key) (sets : list (string * string))
    (vals : obj) (t t' : Table) (result : Item) :
  exec eng (Update k sets vals) t = (inr result, t') →
  t' = <[k := result]> t
  ∧ apply_sets sets vals (default (key_item k) (t !! k)) = Some result.
Proof.
  cbn [exec]. destruct (refuses_update eng k sets vals); [done|].
  destruct (apply_sets _ _ _) as [it|]; [|done]. by intros [= <- <-].
Qed.

Lemma exec_update_table (k k' : Key) (sets : list (string * string))
    (vals : obj) (t : Table) :
  k' ≠ k → (exec eng (Update k sets vals) t).2 !! k' = t !! k'.
Proof.
  intros Hne. cbn [exec]. destruct (refuses_update eng k sets vals); [done|].
  destruct (apply_sets _ _ _) as [it|]; [|done]. cbn [snd].
  by rewrite lookup_insert_ne.
Qed.

(** The clauses and values of [update], by the password of the patch. *)
Lemma run_user_update (t : Table) (userId now salt : string) (updates : obj) :
  let acc := patch UserModel.patchable now updates in
  let finish (r : (Error + Item) * Table) :=
    match r with
    | (inr result, t') => (inr (without "password" result), t')
    | (inl e, t') => (inl e, t')
    end in
  run eng (UserModel.update bcrypt userId updates now salt) t
  = match t !! profile userId with
    | None => (inl (JsError "User not found"), t)
    | Some _ =>
        if truthy (updates !! "password")
        then match updates !! "password" with
             | Some (Str password) =>
                 finish (exec eng
                   (Update (profile userId)
                      (acc.1 ++ [("password", ":password")])
                      (<[":password" :=
                           Str (Bcrypt.hash bcrypt password salt)]> acc.2)) t)
             | other => (inl (Bcrypt.illegal other (Some (Str salt))), t)
             end
        else finish (exec eng (Update (profile userId) acc.1 acc.2) t)
    end.
Proof.
  intros acc finish. unfold UserModel.update.
  rewrite run_bind, run_user_findById.
  destruct (t !! profile userId) as [stored|]; [|done].
  cbn [fmap option_fmap option_map]. rewrite run_bind. fold acc.
  destruct (truthy (updates !! "password")).
  - destruct (updates !! "password") as [[| | |password]|]; try done.
    cbn [run mret Prog_ret fst snd]. rewrite run_bind, run_call.
    unfold profile. by destruct (exec eng _ t) as [[e|result] t'].
  - cbn [run mret Prog_ret]. rewrite run_bind, run_call.
    unfold profile. by destruct (exec eng _ t) as [[e|result] t'].
Qed.

(** The record a successful update stores, attribute by attribute. *)
Lemma user_update_stored (t t' : Table)
    (userId now salt : string) (updates : obj) (stored updated : Item) :
  t !! profile userId = Some stored →
  run eng (UserModel.update bcrypt userId updates now salt) t
  = (inr updated, t') →
  ∃ item,
    t' = <[profile userId := item]> t
    ∧ updated = without "password" item
    ∧ item !! "id" = stored !! "id"
    ∧ item !! "email" = stored !! "email"
    ∧ (if truthy (updates !! "password")
       then ∃ password,
              updates !! "password" = Some (Str password)
              ∧ item !! "password"
                = Some (Str (Bcrypt.hash bcrypt password salt))
       else item !! "password" = stored !! "password")
    ∧ (∀ a v, a ∉ ["id"; "email"; "password"] →
              updates !! a = Some v → item !! a = Some v)
    ∧ (∀ a, a ∉ ["id"; "email"; "password"; "updatedAt"] →
            updates !! a = None → item !! a = stored !! a).
Proof.
  intros Hs Hrun. rewrite run_user_update, Hs in Hrun. cbv zeta in Hrun.
  assert (∀ a, a ∉ ["id"; "email"; "password"] →
               UserModel.patchable a = true) as Hg.
  { intros a Ha. unfold UserModel.patchable.
    repeat (apply not_elem_of_cons in Ha as [? Ha]).
    repeat (apply andb_true_intro; split);
      by apply negb_true_iff, String.eqb_neq. }
  destruct (truthy (updates !! "password")) eqn:Hpw.
  - destruct (updates !! "password") as [[| | |password]|] eqn:Hp; try done.
    destruct (exec eng _ t) as [[e|item] t1] eqn:Hex; [done|].
    injection Hrun as <- <-.
    apply exec_update_success in Hex as [-> Hit].
    rewrite Hs in Hit. cbn [default] in Hit.
    pose proof (λ a, patch_with_password_applied UserModel.patchable now
                       updates _ stored item a Hit) as Hitem.
    exists item. split_and!; try done.
    + rewrite Hitem. cbn. by destruct (updates !! "id").
    + rewrite Hitem. cbn. by destruct (updates !! "email").
    + exists password. split; [done|]. by rewrite Hitem.
    + intros a v Ha Hv. rewrite Hitem, Hv, (Hg a Ha).
      apply not_elem_of_cons in Ha as [_ Ha].
      apply not_elem_of_cons in Ha as [_ Ha].
      apply not_elem_of_cons in Ha as [Ha _].
      by apply String.eqb_neq in Ha as ->.
    + intros a Ha Hv. rewrite Hitem, Hv.
      repeat (apply not_elem_of_cons in Ha as [? Ha]).
      by do 2 (rewrite (proj2 (String.eqb_neq a _)) by done).
  - destruct (exec eng _ t) as [[e|item] t1] eqn:Hex; [done|].
    injection Hrun as <- <-.
    apply exec_update_success in Hex as [-> Hit].
    rewrite Hs in Hit. cbn [default] in Hit.
    pose proof (λ a, patch_applied UserModel.patchable now
                       updates stored item a Hit) as Hitem.
    exists item. split_and!; try done.
    + rewrite Hitem. cbn. by destruct (updates !! "id").
    + rewrite Hitem. cbn. by destruct (updates !! "email").
    + rewrite Hitem. cbn. by destruct (updates !! "password").
    + intros a v Ha Hv. by rewrite Hitem, Hv, (Hg a Ha).
    + intros a Ha Hv. rewrite Hitem, Hv.
      repeat (apply not_elem_of_cons in Ha as [? Ha]).
      by rewrite (proj2 (String.eqb_neq a _)) by done.
Qed.

(** X11.  A successful update of a user stores the record patched field
    by field and returns it without the password.  [id] and [email] are
    as they were whatever the patch says.  A password of the patch that
    is not empty is stored as its hash, never as it came; with an empty
    or no password the stored hash stays.  Every other field of the
    patch has the value of the patch, and what the patch does not name
    stays, but for [updatedAt]. *)
Theorem user_update_patches_and_hashes (t t' : Table)
    (userId now salt : string) (updates : obj) (stored updated : Item) :
  t !! profile userId = Some stored →
  run eng (UserModel.update bcrypt userId updates now salt) t
  = (inr updated, t') →
  ∃ item,
    t' = <[profile userId := item]> t
    ∧ updated = without "password" item
    ∧ item !! "id" = stored !! "id"
    ∧ item !! "email" = stored !! "email"
    ∧ (if truthy (updates !! "password")
       then ∃ password,
              updates !! "password" = Some (Str password)
              ∧ item !! "password"
                = Some (Str (Bcrypt.hash bcrypt password salt))
       else item !! "password" = stored !! "password")
    ∧ (∀ a v, a ∉ ["id"; "email"; "password"] →
              updates !! a = Some v → item !! a = Some v)
    ∧ (∀ a, a ∉ ["id"; "email"; "password"; "updatedAt"] →
            updates !! a = None → item !! a = stored !! a).
Proof. apply user_update_stored. Qed.

(** X12.  [updateLastLogin] writes one attribute: on a stored profile
    the record is as before but for [lastLogin].  The request is an
    update, which creates what it does not find: for an id without a
    profile a record of the key and [lastLogin] alone is stored, and
    [findById] returns it from then on as the user of that id. *)
Theorem updateLastLogin_sets_one_attribute (t : Table) (userId now : string) :
  refuses_update eng (profile userId) [("lastLogin", ":lastLogin")]
    {[ ":lastLogin" := Str now ]} = false →
  let before := default (key_item (profile userId)) (t !! profile userId) in
  let after := <["lastLogin" := Str now]> before in
  let t' := <[profile userId := after]> t in
  run eng (UserModel.updateLastLogin userId now) t = (inr true, t')
  ∧ run eng (UserModel.findById userId) t'
    = (inr (Some (without "password" after)), t')
  ∧ (t !! profile userId = None →
     after = {[ "pk" := Str ("USER#" +:+ userId);
                "sk" := Str ("PROFILE#" +:+ userId);
                "lastLogin" := Str now ]}).
Proof.
  intros Hok before after t'. split_and!.
  - unfold UserModel.updateLastLogin. rewrite run_bind, run_call.
    cbn [exec]. fold (profile userId). rewrite Hok.
    cbn [apply_sets]. rewrite lookup_singleton_eq. done.
  - rewrite run_user_findById. unfold t'. by rewrite lookup_insert_eq.
  - intros Hnone. unfold after, before. rewrite Hnone. cbn [default].
    unfold key_item, profile. cbn [fst snd].
    rewrite (insert_insert_ne _ "lastLogin" "pk") by done.
    by rewrite insert_singleton_ne.
Qed.

End user_patch.

Section user_patch_examples.
Import Js DynamoDb Invariant Records Fixtures.

(** A patch of [u1] with a new password and another id. *)
Lemma user_update_patches_and_hashes_witness :
  let updates : obj := {[ "id" := Str "u9"; "password" := Str "Efgh5678" ]} in
  let r := run strict (UserModel.update bcrypt "u1" updates "T1" "s2") users in
  is_Some (users !! profile "u1")
  ∧ (returned r ≫= (.!! "id")) = Some (Str "u1")
  ∧ (r.2 !! profile "u1" ≫= (.!! "password")) = Some (Str "s2$Efgh5678").
Proof.
  intros updates r.
  assert (is_Some (users !! profile "u1")) as [stored Hs] by compute_done.
  assert (is_Some (returned r)) as Hsome by compute_done.
  assert ((stored : Item) !! "id" = Some (Str "u1")) as Hid.
  { assert ((users !! profile "u1" ≫= (.!! "id")) = Some (Str "u1")) as H
      by compute_done.
    by rewrite Hs in H. }
  split; [by exists stored|]. subst r.
  destruct (run strict (UserModel.update bcrypt "u1" updates "T1" "s2") users)
    as [[e|updated] t'] eqn:Hr; [by destruct Hsome|].
  destruct (user_update_patches_and_hashes strict bcrypt users t' "u1" "T1"
              "s2" updates stored updated Hs Hr)
    as (item & -> & -> & Hkept & _ & (password & Hpw & Hhash) & _).
  cbn [returned fst snd mbind option_bind]. split.
  - unfold without. rewrite lookup_delete_ne by discriminate.
    by rewrite Hkept.
  - rewrite lookup_insert_eq. cbn [mbind option_bind].
    rewrite Hhash. by injection Hpw as <-.
Defined.

(** The last login of [u7], who has no profile in [users]. *)
Lemma updateLastLogin_sets_one_attribute_witness :
  refuses_update strict (profile "u7") [("lastLogin", ":lastLogin")]
    {[ ":lastLogin" := Str "T1" ]} = false
  ∧ users !! profile "u7" = None
  ∧ (mjoin (returned
       (run strict (UserModel.findById "u7")
          (run strict (UserModel.updateLastLogin "u7" "T1") users).2))
     ≫= (.!! "lastLogin")) = Some (Str "T1").
Proof.
  assert (refuses_update strict (profile "u7") [("lastLogin", ":lastLogin")]
            {[ ":lastLogin" := Str "T1" ]} = false) as Hok by reflexivity.
  assert (users !! profile "u7" = None) as Hnone by compute_done.
  split; [exact Hok|]. split; [exact Hnone|].
  destruct (updateLastLogin_sets_one_attribute strict users "u7" "T1" Hok)
    as (Hrun & Hfind & _).
  rewrite Hrun. cbn [snd]. rewrite Hfind.
  cbn [returned fst snd mjoin option_join mbind option_bind].
  unfold without. rewrite lookup_delete_ne by discriminate.
  apply lookup_insert_eq.
Defined.

End user_patch_examples.

(** ** The handlers of the profile, the login and the products *)

Section handlers.
Import Js DynamoDb Invariant Records Controllers.
Context (eng : Engine) (bcrypt : Bcrypt.Impl).
Context (sign : option value → string).

Lemma profile_updates_other (body : obj) (a : string) :
  a ∉ ["firstName"; "lastName"; "password"; "profileImage"] →
  AuthController.profile_updates body !! a = None.
Proof.
  intros Ha. repeat (apply not_elem_of_cons in Ha as [? Ha]).
  unfold AuthController.profile_updates. rewrite literal_lookup. cbn [assoc].
  by rewrite !(proj2 (String.eqb_neq _ a)) by done.
Qed.

Lemma profile_updates_password (body : obj) :
  truthy (body !! "password") = false →
  AuthController.profile_updates body !! "password" = None.
Proof.
  intros Hpw. unfold AuthController.profile_updates.
  rewrite literal_lookup. cbn. rewrite Hpw.
  by destruct (body !! "firstName"), (body !! "lastName").
Qed.

Lemma exec_update_failure (k : Key) (sets : list (string * string))
    (vals : obj) (t t' : Table) (e : Error) :
  exec eng (Update k sets vals) t = (inl e, t') → t' = t.
Proof.
  cbn [exec]. destruct (refuses_update eng k sets vals); [by intros [= _ <-]|].
  destruct (apply_sets _ _ _) as [it|]; [done|by intros [= _ <-]].
Qed.

Lemma user_update_failure (t t' : Table) (userId now salt : string)
    (updates : obj) (e : Error) :
  run eng (UserModel.update bcrypt userId updates now salt) t = (inl e, t') →
  t' = t.
Proof.
  rewrite run_user_update. cbv zeta.
  destruct (t !! profile userId); [|by intros [= _ <-]].
  destruct (truthy _).
  - destruct (_ !! "password") as [[| | |password]|];
      try (by intros [= _ <-]).
    destruct (exec eng _ t) as [[e'|result] t1] eqn:Hex; [|done].
    intros [= _ <-]. by eapply exec_update_failure.
  - destruct (exec eng _ t) as [[e'|result] t1] eqn:Hex; [|done].
    intros [= _ <-]. by eapply exec_update_failure.
Qed.

(** X13.  Through [updateProfile] a user reaches four attributes of the
    own profile and no other record: [firstName], [lastName],
    [profileImage] and the password, with [updatedAt].  Whatever the
    body holds, every other attribute of the profile is afterwards what
    it was, among them [role], [isActive], [email], [id] and
    [createdAt]; and without a password in the body the stored hash
    stays.  The handler always ends with a reply. *)
Theorem updateProfile_reaches_four_fields (t : Table) (user body : obj)
    (now salt : string) (a : string) :
  a ∉ ["firstName"; "lastName"; "password"; "profileImage"; "updatedAt"] →
  let userId := to_str (user !! "id") in
  let r := run eng (AuthController.updateProfile bcrypt user body now salt) t in
  is_Some (returned r)
  ∧ (r.2 !! profile userId ≫= (.!! a)) = (t !! profile userId ≫= (.!! a))
  ∧ (truthy (body !! "password") = false →
     (r.2 !! profile userId ≫= (.!! "password"))
     = (t !! profile userId ≫= (.!! "password")))
  ∧ (∀ k, k ≠ profile userId → r.2 !! k = t !! k).
Proof.
  intros Ha userId r. subst r. unfold AuthController.updateProfile.
  rewrite run_try_catch, run_bind. fold userId.
  destruct (run eng (UserModel.update bcrypt userId _ now salt) t)
    as [[e|updated] t'] eqn:Hrun.
  - assert (t' = t) as -> by (by eapply user_update_failure).
    cbn. split_and!; [by eexists|done..].
  - cbn [run mret Prog_ret returned fst snd].
    destruct (t !! profile userId) as [stored|] eqn:Hs.
    2:{ rewrite run_user_update, Hs in Hrun. done. }
    destruct (user_update_stored eng bcrypt _ _ _ _ _ _ _ _
                Hs Hrun) as (item & -> & _ & Hid & Hemail & Hpw & _ & Hkeep).
    split_and!; [by eexists| | |].
    + rewrite lookup_insert_eq. cbn [mbind option_bind].
      repeat (apply not_elem_of_cons in Ha as [? Ha]).
      destruct (decide (a = "id")) as [->|Hi]; [done|].
      destruct (decide (a = "email")) as [->|He]; [done|].
      apply Hkeep.
      * repeat (apply not_elem_of_cons; split; [done|]). apply not_elem_of_nil.
      * apply profile_updates_other.
        repeat (apply not_elem_of_cons; split; [done|]). apply not_elem_of_nil.
    + intros Hnone. rewrite lookup_insert_eq. cbn [mbind option_bind].
      destruct (truthy (AuthController.profile_updates body !! "password"))
        eqn:Ht; [|done].
      by rewrite (profile_updates_password body Hnone) in Ht.
    + intros k Hk. by rewrite lookup_insert_ne.
Qed.


Lemma run_validateCredentials (t : Table) (email password : string) :
  run eng (UserModel.validateCredentials bcrypt email password) t
  = (match query_index eng t "EmailIndex" ("EMAIL#" +:+ email) with
     | inl e => inl e
     | inr [] => inr None
     | inr (first :: _) =>
         match t !! profile (to_str (first !! "id")) with
         | None => inr None
         | Some user =>
             match user !! "password" with
             | Some (Str hashed) =>
                 if Bcrypt.compare bcrypt password hashed
                 then inr (Some (without "password" user))
                 else inr None
             | other => inl (Bcrypt.illegal (Some (Str password)) other)
             end
         end
     end, t).
Proof.
  unfold UserModel.validateCredentials. rewrite run_bind, run_call.
  cbn [exec]. destruct (query_index eng t _ _) as [e|[|first rest]]; [done..|].
  rewrite run_bind, run_call, exec_get. fold (profile (to_str (first !! "id"))).
  destruct (t !! profile _) as [user|]; [|done].
  destruct (user !! "password") as [[| | |hashed]|]; try done.
  by destruct (Bcrypt.compare bcrypt password hashed).
Qed.

(** What [validateCredentials] returns to [login], and when. *)
Lemma login_credentials (t t' : Table) (email : string)
    (password : option value) (found : Item) :
  run eng (AuthController.validateCredentials bcrypt email password) t
  = (inr (Some found), t') →
  t' = t
  ∧ ∃ (plain hashed : string) (stored : Item) (userId : string),
      password = Some (Str plain)
      ∧ t !! profile userId = Some stored
      ∧ stored !! "password" = Some (Str hashed)
      ∧ Bcrypt.compare bcrypt plain hashed = true
      ∧ found = without "password" stored.
Proof.
  unfold AuthController.validateCredentials.
  destruct password as [[| | |plain]|];
    try (rewrite run_bind, run_call; cbn [exec];
         destruct (query_index eng t _ _) as [e|[|first rest]]; [done..|];
         rewrite run_bind, run_call, exec_get; by destruct (t !! _)).
  rewrite run_validateCredentials.
  destruct (query_index eng t _ _) as [e|[|first rest]]; [done..|].
  destruct (t !! profile _) as [stored|] eqn:Hs; [|done].
  destruct (stored !! "password") as [[| | |hashed]|] eqn:Hh; try done.
  destruct (Bcrypt.compare bcrypt plain hashed) eqn:Hc; [|done].
  intros [= <- <-]. split; [done|].
  by exists plain, hashed, stored, (to_str (first !! "id")).
Qed.

Lemma login_credentials_table (t : Table) (email : string)
    (password : option value) :
  (run eng (AuthController.validateCredentials bcrypt email password) t).2 = t.
Proof.
  unfold AuthController.validateCredentials.
  destruct password as [[| | |plain]|];
    try (rewrite run_bind, run_call; cbn [exec];
         destruct (query_index eng t _ _) as [e|[|first rest]]; [done..|];
         rewrite run_bind, run_call, exec_get; by destruct (t !! _)).
  by rewrite run_validateCredentials.
Qed.

(** X14.  [login] always ends with a reply.  It answers 200 only when
    the password of the body is a string that [bcrypt.compare] accepts
    against the hash stored in a profile; the user of the reply is then
    that profile without the password, and the token is signed for its
    id.  Any other reply of the handler itself, 400 or 401, leaves the
    table as it is. *)
Theorem login_accepts_only_the_stored_password (t t' : Table) (body : obj)
    (now : string) (reply : Reply) :
  run eng (AuthController.login bcrypt sign body now) t = (inr reply, t') →
  match reply with
  | Json status message user token =>
      (status = 200%nat ∧
       ∃ (plain hashed : string) (stored : Item) (userId : string),
         body !! "password" = Some (Str plain)
         ∧ t !! profile userId = Some stored
         ∧ stored !! "password" = Some (Str hashed)
         ∧ Bcrypt.compare bcrypt plain hashed = true
         ∧ user = Some (without "password" stored)
         ∧ token = Some (sign (stored !! "id")))
      ∨ ((status = 400%nat ∨ status = 401%nat)
         ∧ user = None ∧ token = None ∧ t' = t)
  | Next _ => True
  end.
Proof.
  unfold AuthController.login. rewrite run_try_catch.
  destruct (negb (truthy (body !! "email")) || negb (truthy (body !! "password"))).
  { intros [= <- <-]. right. by split; [left|]. }
  rewrite run_bind.
  pose proof (login_credentials_table t (to_str (body !! "email"))
                (body !! "password")) as Htable.
  destruct (run eng (AuthController.validateCredentials _ _ _) t)
    as [[e|[found|]] t1] eqn:Hv; cbn [snd] in Htable; subst t1.
  - intros [= <- <-]. done.
  - apply login_credentials in Hv
      as (_ & plain & hashed & stored & userId & Hp & Hs & Hh & Hc & ->).
    rewrite run_bind.
    destruct (run eng (UserModel.updateLastLogin _ _) t) as [[e|ok] t2].
    + intros [= <- <-]. done.
    + intros [= <- <-]. left. split; [done|].
      exists plain, hashed, stored, userId. split_and!; try done.
      unfold without. by rewrite lookup_delete_ne.
  - intros [= <- <-]. right. by split; [right|].
Qed.


Lemma prefix_split (p s : string) :
  String.prefix p s = true → ∃ rest, s = p +:+ rest.
Proof.
  revert s. induction p as [|c p IH]; intros s; [by exists s|].
  destruct s as [|c' s]; [done|]. cbn [String.prefix].
  destruct (Ascii.eqb_spec c c') as [->|]; [|by destruct (ascii_dec c c')].
  destruct (ascii_dec c' c'); [|done].
  intros [rest ->]%IH. exists rest. by rewrite append_cons.
Qed.

Lemma split_bearer (rest : string) :
  JsString.split " " ("Bearer " +:+ rest) !! 1%nat
  = head (JsString.split " " rest).
Proof.
  rewrite !append_cons, append_nil. cbn [JsString.split Ascii.eqb Bool.eqb].
  by destruct (JsString.split " " rest).
Qed.

Section with_jwt.
Context (verify : option string → AuthMiddleware.JwtError + obj).

(** X15.  [authenticate] reads the table and never writes it.  It
    lets a request pass only when the header is [Bearer ] followed by a
    token, up to the next space, that [jwt.verify] accepts with a
    payload whose [id] is the id of a stored profile; the user the
    request carries from then on is that profile without the password.
    Every response it sends itself is a 401. *)
Theorem authenticate_passes_stored_users_only (t t' : Table)
    (authorization : option string) (outcome : AuthMiddleware.Outcome) :
  run eng (AuthMiddleware.authenticate verify authorization) t
  = (inr outcome, t') →
  t' = t
  ∧ match outcome with
    | AuthMiddleware.Respond status _ => status = 401%nat
    | AuthMiddleware.Continue user =>
        ∃ (rest : string) (decoded stored : obj),
          authorization = Some ("Bearer " +:+ rest)
          ∧ verify (head (JsString.split " " rest)) = inr decoded
          ∧ truthy (decoded !! "id") = true
          ∧ t !! profile (to_str (decoded !! "id")) = Some stored
          ∧ user = without "password" stored
    | AuthMiddleware.Forward _ => True
    end.
Proof.
  unfold AuthMiddleware.authenticate. rewrite run_try_catch.
  destruct authorization as [authHeader|]; [|by intros [= <- <-]].
  destruct (String.eqb authHeader ""); [by intros [= <- <-]|].
  destruct (String.prefix "Bearer " authHeader) eqn:Hpre;
    [|by intros [= <- <-]].
  apply prefix_split in Hpre as [rest ->]. cbn [negb orb].
  rewrite split_bearer.
  destruct (verify (head (JsString.split " " rest))) as [error|decoded] eqn:Hv.
  { destruct (AuthMiddleware.rejects _); by intros [= <- <-]. }
  destruct (truthy (decoded !! "id")) eqn:Hid; [|by intros [= <- <-]].
  cbn [negb]. rewrite run_bind, run_user_findById.
  destruct (t !! profile (to_str (decoded !! "id"))) as [stored|] eqn:Hs;
    [|by intros [= <- <-]].
  intros [= <- <-]. split; [done|]. by exists rest, decoded, stored.
Qed.

End with_jwt.

Lemma created_product_owner (productData : obj) (userId productId now : string) :
  product productData userId productId now !! "userId" = Some (Str userId)
  ∧ product productData userId productId now !! "id" = Some (Str productId)
  ∧ product productData userId productId now !! "isActive" = Some (Bool true).
Proof. unfold product. by rewrite !literal_lookup. Qed.

(** X16.  [createProduct] answers 400 "Name and price are required",
    without a request to the table, when the name or the price of the
    body is missing or falsy, a price of 0 included.  With both, the
    handler of the key-value backend calls [create] on the empty object
    that [require] yields for product.model.js: the call raises a
    [TypeError], the handler ends in [next(error)], and no request
    reaches the table, so that no product is stored. *)
Theorem createProduct_requires_name_and_price (t : Table) (body : obj)
    (userId productId now : string) :
  let p := ProductController.createProduct body userId productId now in
  run eng p t
  = (inr (if negb (truthy (body !! "name")) || negb (truthy (body !! "price"))
          then ProductController.Json 400
                 (Some "Name and price are required") None
          else ProductController.Next
                 (JsError "ProductModel.create is not a function")), t)
  ∧ trace eng p t = [].
Proof.
  intros p. subst p. unfold ProductController.createProduct.
  rewrite run_try_catch, trace_try_catch.
  by destruct (negb (truthy (body !! "name")) || negb (truthy (body !! "price"))).
Qed.

End handlers.

Section handlers_examples.
Import Js DynamoDb Invariant Records Controllers Fixtures.

(** [u1] asks for the role [admin] in a profile update: the first name
    is taken, the role stays. *)
Lemma updateProfile_reaches_four_fields_witness :
  let body : obj := {[ "firstName" := Str "Al"; "role" := Str "admin" ]} in
  let r := run strict
             (AuthController.updateProfile bcrypt {[ "id" := Str "u1" ]}
                body "T1" "s2") users in
  ("role" ∉ ["firstName"; "lastName"; "password"; "profileImage";
              "updatedAt"])
  ∧ (r.2 !! profile "u1" ≫= (.!! "firstName")) = Some (Str "Al")
  ∧ (r.2 !! profile "u1" ≫= (.!! "role")) = Some (Str "user").
Proof.
  intros body r.
  assert ("role" ∉ ["firstName"; "lastName"; "password"; "profileImage";
                    "updatedAt"]) as Ha by compute_done.
  split; [exact Ha|]. split; [compute_done|].
  destruct (updateProfile_reaches_four_fields strict bcrypt users
              {[ "id" := Str "u1" ]} body "T1" "s2" "role" Ha)
    as (_ & Hrole & _).
  etransitivity; [exact Hrole|]. compute_done.
Defined.

(** [u1] logs in with her password. *)
Lemma login_accepts_only_the_stored_password_witness :
  let r := run lenient (AuthController.login bcrypt sign alice "T1") users in
  (status <$> returned r) = Some 200%nat
  ∧ ∃ (userId : string) (stored : Item) (hashed : string),
      users !! profile userId = Some stored
      ∧ stored !! "password" = Some (Str hashed)
      ∧ Bcrypt.compare bcrypt "Abcd1234" hashed = true.
Proof.
  intros r.
  assert ((status <$> returned r) = Some 200%nat) as Hs by compute_done.
  split; [exact Hs|]. subst r.
  destruct (run lenient (AuthController.login bcrypt sign alice "T1") users)
    as [[e|reply] t'] eqn:Hr; [discriminate Hs|].
  pose proof (login_accepts_only_the_stored_password lenient bcrypt sign
                users t' alice "T1" reply Hr) as H.
  destruct reply as [st message user token|e]; [|discriminate Hs].
  injection Hs as ->.
  destruct H as [[_ (plain & hashed & stored & userId & Hp & Hst & Hh & Hc & _)]
                |[[H|H] _]]; [|discriminate H..].
  exists userId, stored, hashed. split_and!; [exact Hst|exact Hh|].
  assert (alice !! "password" = Some (Str "Abcd1234")) as Hpw by reflexivity.
  rewrite Hpw in Hp. by injection Hp as <-.
Defined.

(** A request with the token of [u1] passes with her profile. *)
Lemma authenticate_passes_stored_users_only_witness :
  let r := run strict
             (AuthMiddleware.authenticate Tokens.verify
                (Some "Bearer token.u1")) users in
  r.2 = users
  ∧ ∃ stored,
      users !! profile "u1" = Some stored
      ∧ returned r
        = Some (AuthMiddleware.Continue (without "password" stored)).
Proof.
  intros r.
  assert (match returned r with
          | Some (AuthMiddleware.Continue _) => True
          | _ => False
          end) as Hpass by compute_done.
  subst r.
  destruct (run strict (AuthMiddleware.authenticate Tokens.verify
                          (Some "Bearer token.u1")) users)
    as [[e|outcome] t'] eqn:Hr; [destruct Hpass|].
  destruct (authenticate_passes_stored_users_only strict Tokens.verify users
              t' _ outcome Hr) as [-> H].
  split; [reflexivity|].
  destruct outcome as [| user |]; [destruct Hpass| |destruct Hpass].
  destruct H as (rest & decoded & stored & Hh & Hv & _ & Hs & ->).
  injection Hh as Hh. rewrite append_nil in Hh. subst rest.
  assert (Tokens.verify (head (JsString.split " " "token.u1"))
          = inr {[ "id" := Str "u1" ]}) as Hv' by reflexivity.
  rewrite Hv' in Hv. injection Hv as <-.
  exists stored. split; [exact Hs|reflexivity].
Defined.

End handlers_examples.

(** ** The rate limiter *)

Section rate_limiter.
Import RateLimiter.
Local Open Scope Z_scope.

Lemma foldr_delete_lookup (l : list string) (counts : Counts) (ip : string) :
  foldr (λ ip counts, delete ip counts) counts l !! ip
  = if decide (ip ∈ l) then None else counts !! ip.
Proof.
  induction l as [|ip' l IH]; cbn [foldr].
  { rewrite decide_False; [done|]. apply not_elem_of_nil. }
  destruct (decide (ip = ip')) as [->|Hne].
  - rewrite lookup_delete_eq. rewrite decide_True; [done|]. left.
  - rewrite lookup_delete_ne by done. rewrite IH.
    destruct (decide (ip ∈ l)) as [Hin|Hnin].
    + rewrite decide_True; [done|]. by right.
    + rewrite decide_False; [done|].
      intros [?|?]%elem_of_cons; done.
Qed.

(** The timer empties the table of counters. *)
Lemma cleanup_empty (counts : Counts) : cleanup counts = ∅.
Proof.
  apply map_eq. intros ip. unfold cleanup.
  rewrite foldr_delete_lookup, lookup_empty.
  destruct (decide (ip ∈ (map_to_list counts).*1)) as [Hin|Hnin]; [done|].
  apply eq_None_not_Some. intros [entry Hentry]. apply Hnin.
  apply list_elem_of_fmap. exists (ip, entry). split; [done|].
  by apply elem_of_map_to_list.
Qed.

Lemma limit_counts (ip : string) (now : Z) (counts : Counts) :
  (limit ip now counts).2
  = match member counts ip with
    | None => <[ip := {| count := 1; resetTime := now + windowMs |}]> counts
    | Some (Own entry) =>
        <[ip := {| count := count entry + 1; resetTime := resetTime entry |}]>
          counts
    | Some Inherited => counts
    end.
Proof.
  unfold limit. destruct (member counts ip) as [[entry|]|] eqn:Hm.
  - unfold member. rewrite lookup_insert_eq. cbn [count].
    by destruct (maxRequests <? _).
  - by rewrite Hm.
  - unfold member. by rewrite lookup_insert_eq.
Qed.

Lemma limit_verdict (ip : string) (now : Z) (counts : Counts) :
  (limit ip now counts).1 = Next
  ↔ match member counts ip with
    | Some (Own entry) => count entry < maxRequests
    | Some Inherited | None => True
    end.
Proof.
  unfold limit, maxRequests.
  destruct (member counts ip) as [[entry|]|] eqn:Hm.
  - unfold member. rewrite lookup_insert_eq. simpl.
    destruct (Z.ltb_spec 100 (count entry + 1)); simpl;
      split; first [done|lia].
  - by rewrite Hm.
  - unfold member. by rewrite lookup_insert_eq.
Qed.

Lemma counts_after_snoc (history : list Input) (i : Input) :
  counts_after (history ++ [i]) = (step (counts_after history) i).2.
Proof. unfold counts_after. by rewrite foldl_app. Qed.

Lemma recent_snoc (ip : string) (history : list Input) (i : Input) :
  recent ip (history ++ [i])
  = match i with
    | Request ip' _ =>
        if String.eqb ip' ip then recent ip history + 1 else recent ip history
    | Tick => 0
    end.
Proof. unfold recent. by rewrite foldl_app. Qed.

(** The counter of an address is the number of its requests since the
    last tick; under a name of the prototype no counter is ever
    stored. *)
Lemma counts_after_recent (history : list Input) (ip : string) :
  0 ≤ recent ip history
  ∧ count <$> counts_after history !! ip
    = if bool_decide (ip ∈ inherited) then None
      else if decide (recent ip history = 0) then None
      else Some (recent ip history).
Proof.
  induction history as [|i history IH] using rev_ind.
  { split; [done|]. unfold counts_after. cbn. rewrite lookup_empty.
    by case_bool_decide. }
  destruct IH as [Hpos IH]. rewrite counts_after_snoc, recent_snoc.
  destruct i as [ip' now|]; cbn [step].
  - destruct (limit ip' now (counts_after history)) as [v counts] eqn:Hl.
    cbn [snd]. assert (counts = (limit ip' now (counts_after history)).2)
      as -> by by rewrite Hl.
    rewrite limit_counts. unfold member.
    destruct (String.eqb_spec ip' ip) as [->|Hne].
    + split; [lia|].
      destruct (counts_after history !! ip) as [entry|] eqn:He;
        cbn [fmap option_fmap option_map count] in *.
      * rewrite lookup_insert_eq. cbn [fmap option_fmap option_map count].
        case_bool_decide; [done|].
        rewrite decide_False by lia.
        destruct (decide (recent ip history = 0)); [done|].
        by injection IH as ->.
      * case_bool_decide; [by rewrite He|].
        rewrite lookup_insert_eq. cbn [fmap option_fmap option_map count].
        rewrite decide_False by lia.
        destruct (decide (recent ip history = 0)) as [->|]; done.
    + split; [done|].
      destruct (counts_after history !! ip') as [entry|];
        [by rewrite lookup_insert_ne by done|].
      destruct (bool_decide (ip' ∈ inherited)); [done|].
      by rewrite lookup_insert_ne by done.
  - split; [done|]. cbn [snd]. rewrite cleanup_empty, lookup_empty.
    by case_bool_decide.
Qed.

(** X17.  The limiter lets a request pass exactly when the address has
    made fewer than 100 requests since the timer last ran, this one not
    counted, or when the text it is given as address is the name of a
    member that the plain object [requestCounts] inherits, such as
    [constructor], [toString] or [__proto__].  The first hundred of an
    address in a window pass, every further one is answered with 429
    until the next tick, and the requests of other addresses and the
    times of the requests play no part.  The first request after a tick
    always passes.  Under an inherited name nothing is counted: the
    middleware finds the member in place of an entry, its count is not a
    number, and every request passes. *)
Theorem limiter_passes_the_first_hundred (history : list Input)
    (ip : string) (now : Z) :
  (verdict history ip now = Next ↔ ip ∈ inherited ∨ recent ip history < 100)
  ∧ verdict (history ++ [Tick]) ip now = Next
  ∧ (ip ∉ inherited →
     recent ip history = 100 →
     ∀ (later : list Input) (now' : Z),
       Forall (λ i, i ≠ Tick) later →
       ∃ retryAfter,
         verdict (history ++ later) ip now'
         = TooMany "Too many requests, please try again later" retryAfter).
Proof.
  assert (∀ h, verdict h ip now = Next
               ↔ ip ∈ inherited ∨ recent ip h < 100) as Hv.
  { intros h. unfold verdict. rewrite limit_verdict. unfold member.
    destruct (counts_after_recent h ip) as [Hpos Hc].
    unfold maxRequests.
    destruct (counts_after h !! ip) as [entry|];
      cbn [fmap option_fmap option_map] in Hc.
    - case_bool_decide as Hin; [done|].
      destruct (decide (recent ip h = 0)); [done|].
      injection Hc as ->. split; [by right|]. by intros [?|?].
    - case_bool_decide as Hin; [by split; [left|]|].
      destruct (decide (recent ip h = 0)) as [Hz|]; [|done].
      split; [|done]. intros _. right. lia. }
  split_and!.
  - apply Hv.
  - apply Hv. right. by rewrite recent_snoc.
  - intros Hown Hfull later now' Hlater.
    assert (100 ≤ recent ip (history ++ later)) as Hmore.
    { induction later as [|i later IH] using rev_ind.
      - rewrite app_nil_r. lia.
      - apply Forall_app in Hlater as [Hl Hi].
        apply Forall_cons in Hi as [Hi _]. specialize (IH Hl).
        rewrite app_assoc, recent_snoc.
        destruct i as [ip' t'|]; [|by destruct Hi].
        destruct (String.eqb ip' ip); lia. }
    unfold verdict, limit, member.
    destruct (counts_after_recent (history ++ later) ip) as [_ Hc].
    rewrite bool_decide_eq_false_2 in Hc by done.
    rewrite decide_False in Hc by lia.
    destruct (counts_after (history ++ later) !! ip) as [entry|]; [|done].
    injection Hc as Hc. rewrite lookup_insert_eq. cbn [count].
    destruct (Z.ltb_spec maxRequests (count entry + 1)) as [_|Hle];
      [by eexists|]. unfold maxRequests in Hle. lia.
Qed.

End rate_limiter.

Section rate_limiter_examples.
Import RateLimiter.
Local Open Scope Z_scope.

(** After a hundred requests of one address, its next request is
    refused, while one of another address passes; after a hundred
    requests under the name [constructor], the next one passes. *)
Lemma limiter_passes_the_first_hundred_witness :
  let history := replicate 100 (Request "10.0.0.1" 0) in
  let named := replicate 100 (Request "constructor" 0) in
  recent "10.0.0.1" history = 100
  ∧ ("10.0.0.1" ∉ inherited)
  ∧ (∃ retryAfter,
       verdict history "10.0.0.1" 60001
       = TooMany "Too many requests, please try again later" retryAfter)
  ∧ verdict history "10.0.0.2" 60001 = Next
  ∧ recent "constructor" named = 100
  ∧ verdict named "constructor" 60001 = Next.
Proof.
  intros history named.
  assert ("10.0.0.1" ∉ inherited) as Hown by compute_done.
  assert (recent "10.0.0.1" history = 100) as Hfull by reflexivity.
  split; [exact Hfull|]. split; [exact Hown|].
  destruct (limiter_passes_the_first_hundred history "10.0.0.1" 60001)
    as (_ & _ & Hrefused).
  split; [|split; [|split; [reflexivity|]]].
  - rewrite <- (app_nil_r history). by apply Hrefused.
  - destruct (limiter_passes_the_first_hundred history "10.0.0.2" 60001)
      as ([_ Hpass] & _).
    apply Hpass. right. reflexivity.
  - destruct (limiter_passes_the_first_hundred named "constructor" 60001)
      as ([_ Hpass] & _).
    apply Hpass. left. compute_done.
Defined.

End rate_limiter_examples.

(** ** Patterns and the checks of strings *)

Section regex.
Import Regex.
Local Open Scope N_scope.

Lemma nullable_lang (r : re) : nullable r = true ↔ lang r [].
Proof.
  induction r as [| |p|r1 IH1 r2 IH2|r1 IH1 r2 IH2|r IH]; cbn [nullable lang].
  - done.
  - done.
  - split; [done|]. by intros (c & ? & _).
  - rewrite andb_true_iff, IH1, IH2. split.
    + intros [H1 H2]. by exists [], [].
    + intros (s1 & s2 & Hs & H1 & H2).
      symmetry in Hs. apply app_eq_nil in Hs as [-> ->]. done.
  - by rewrite orb_true_iff, IH1, IH2.
  - split; [|done]. intros _. by exists [].
Qed.

Lemma lang_star_cons (r : re) (c : N) (s : text) :
  lang (Star r) (c :: s)
  ↔ ∃ s1 s2, s = s1 ++ s2 ∧ lang r (c :: s1) ∧ lang (Star r) s2.
Proof.
  split.
  - intros (ss & Hs & Hall). induction ss as [|w ss IH]; [done|].
    apply Forall_cons in Hall as [Hw Hall]. cbn [List.concat] in Hs.
    destruct w as [|c' w]; [by apply IH|].
    injection Hs as <- ->. exists w, (List.concat ss). split; [done|].
    split; [done|]. by exists ss.
  - intros (s1 & s2 & -> & H1 & ss & -> & Hall).
    exists ((c :: s1) :: ss). split; [done|]. by apply Forall_cons.
Qed.

Lemma deriv_lang (r : re) (c : N) (s : text) :
  lang (deriv c r) s ↔ lang r (c :: s).
Proof.
  revert s.
  induction r as [| |p|r1 IH1 r2 IH2|r1 IH1 r2 IH2|r IH]; intros s;
    cbn [deriv].
  - done.
  - done.
  - cbn [lang]. destruct (p c) eqn:Hp; cbn [lang]; split.
    + intros ->. by exists c.
    + by intros (c' & [= <- ->] & _).
    + done.
    + intros (c' & Heq & ?). injection Heq as ? ?. congruence.
  - cbn [lang]. split.
    + intros [(s1 & s2 & -> & H1 & H2)|H].
      * exists (c :: s1), s2. split; [done|]. by split; [apply IH1|].
      * destruct (nullable r1) eqn:Hn; [|done].
        exists [], (c :: s). split; [done|].
        by split; [apply nullable_lang|apply IH2].
    + intros (s1 & s2 & Hs & H1 & H2). destruct s1 as [|c' s1].
      * right. cbn in Hs. subst s2.
        apply nullable_lang in H1 as ->. by apply IH2.
      * injection Hs as <- ->. left. exists s1, s2.
        split; [done|]. by split; [apply IH1|].
  - cbn [lang]. by rewrite IH1, IH2.
  - rewrite lang_star_cons. cbn [lang]. split.
    + intros (s1 & s2 & -> & H1 & H2). exists s1, s2.
      split; [done|]. by split; [apply IH|].
    + intros (s1 & s2 & -> & H1 & H2). exists s1, s2.
      split; [done|]. by split; [apply IH|].
Qed.

(** The test by derivatives decides the language. *)
Lemma test_lang (r : re) (s : text) : test r s = true ↔ lang r s.
Proof.
  revert r. induction s as [|c s IH]; intros r; cbn [test].
  - apply nullable_lang.
  - by rewrite IH, deriv_lang.
Qed.

Lemma lang_star_class (p : N → bool) (s : text) :
  lang (Star (Class p)) s ↔ Forall (λ c, p c = true) s.
Proof.
  induction s as [|c s IH].
  - split; [done|]. intros _. by exists [].
  - rewrite lang_star_cons, Forall_cons. split.
    + intros (s1 & s2 & -> & (c' & [= <- ->] & Hc) & H2).
      split; [done|]. by apply IH.
    + intros [Hc Hs]. exists [], s. split; [done|].
      split; [by exists c|]. by apply IH.
Qed.

Lemma lang_plus_class (p : N → bool) (s : text) :
  lang (Plus (Class p)) s ↔ s ≠ [] ∧ Forall (λ c, p c = true) s.
Proof.
  unfold Plus. cbn [lang]. split.
  - intros (s1 & s2 & -> & (c & -> & Hc) & Hs%lang_star_class).
    split; [done|]. by apply Forall_cons.
  - intros [Hne Hall]. destruct s as [|c s]; [done|].
    apply Forall_cons in Hall as [Hc Hs].
    exists [c], s. split; [done|]. split; [by exists c|].
    cbn [lang] in *. by apply lang_star_class.
Qed.

Lemma lang_times_class (n : nat) (p : N → bool) (r : re) (s : text) :
  lang (Cat (Times n (Class p)) r) s
  ↔ ∃ s1 s2, s = s1 ++ s2
             ∧ Forall2 (λ q c, q c = true) (replicate n p) s1 ∧ lang r s2.
Proof.
  revert s. induction n as [|n IH]; intros s.
  - cbn [Times lang replicate]. split.
    + intros (s1 & s2 & -> & -> & H). exists [], s2. by split_and!.
    + intros (s1 & s2 & -> & ->%Forall2_nil_inv_l & H). by exists [], s2.
  - cbn [Times replicate]. split.
    + intros (s1 & s2 & -> & (w1 & w2 & -> & (c & -> & Hc) & Hw) & H).
      destruct (proj1 (IH (w2 ++ s2))) as (u1 & u2 & Hu & Hall & Hr).
      { exists w2, s2. by split_and!. }
      exists (c :: u1), u2. split_and!; [|by apply Forall2_cons|done].
      cbn. by rewrite Hu.
    + intros (s1 & s2 & -> & Hall & H).
      apply Forall2_cons_inv_l in Hall as (c & u1 & Hc & Hall & ->).
      destruct (proj2 (IH (u1 ++ s2))) as (w1 & w2 & Hw & H1 & H2).
      { by exists u1, s2. }
      exists (c :: w1), w2. split_and!; [by rewrite <- app_comm_cons, Hw| |done].
      exists [c], w1. split_and!; [done| |done]. by exists c.
Qed.

Lemma lang_times_class_end (n : nat) (p : N → bool) (s : text) :
  lang (Times n (Class p)) s ↔ Forall2 (λ q c, q c = true) (replicate n p) s.
Proof.
  revert s. induction n as [|n IH]; intros s; cbn [Times replicate lang].
  - split; [by intros ->|by intros ->%Forall2_nil_inv_l].
  - split.
    + intros (s1 & s2 & -> & (c & -> & Hc) & H). apply Forall2_cons.
      split; [done|]. by apply IH.
    + intros (c & u & Hc & Hall & ->)%Forall2_cons_inv_l.
      exists [c], u. split_and!; [done|by exists c|by apply IH].
Qed.

Lemma lang_class_cat (p : N → bool) (r : re) (s : text) :
  lang (Cat (Class p) r) s
  ↔ ∃ c s2, s = c :: s2 ∧ p c = true ∧ lang r s2.
Proof.
  cbn [lang]. split.
  - intros (s1 & s2 & -> & (c & -> & Hc) & H). by exists c, s2.
  - intros (c & s2 & -> & Hc & H). exists [c], s2.
    split_and!; [done|by exists c|done].
Qed.

End regex.

Section string_validators.
Import Regex StringValidators.
Local Open Scope N_scope.

Lemma shape_class (p : N → bool) (r : re) (shape : list (N → bool)) :
  (∀ s, lang r s ↔ Forall2 (λ q c, q c = true) shape s) →
  ∀ s, lang (Cat (Class p) r) s
       ↔ Forall2 (λ q c, q c = true) ([p] ++ shape) s.
Proof.
  intros Hr s. rewrite lang_class_cat. cbn [app]. split.
  - intros (c & s2 & -> & Hc & H). apply Forall2_cons. by rewrite <- Hr.
  - intros (c & s2 & Hc & H & ->)%Forall2_cons_inv_l.
    exists c, s2. by rewrite Hr.
Qed.

Lemma shape_times (n : nat) (p : N → bool) (r : re)
    (shape : list (N → bool)) :
  (∀ s, lang r s ↔ Forall2 (λ q c, q c = true) shape s) →
  ∀ s, lang (Cat (Times n (Class p)) r) s
       ↔ Forall2 (λ q c, q c = true) (replicate n p ++ shape) s.
Proof.
  intros Hr s. rewrite lang_times_class. split.
  - intros (s1 & s2 & -> & H1 & H2). apply Forall2_app; [done|].
    by apply Hr.
  - intros (s1 & s2 & H1 & H2 & ->)%Forall2_app_inv_l.
    exists s1, s2. by rewrite Hr.
Qed.

(** X19.  [isValidUUID] accepts a text exactly when it has 36 code
    units of the classes of the pattern, position by position.  An
    accepted text has its dashes at the positions 8, 13, 18 and 23, a
    version digit from 1 to 5 at position 14, and one of 8, 9, a, b, A, B
    at position 19. *)
Theorem isValidUUID_accepts_the_shape (uuid : text) :
  (isValidUUID uuid = true ↔ Forall2 (λ q c, q c = true) uuid_shape uuid)
  ∧ (isValidUUID uuid = true →
     List.length uuid = 36%nat
     ∧ uuid !! 8%nat = Some 45 ∧ uuid !! 13%nat = Some 45
     ∧ uuid !! 18%nat = Some 45 ∧ uuid !! 23%nat = Some 45
     ∧ (∃ v, uuid !! 14%nat = Some v ∧ 49 ≤ v ≤ 53)
     ∧ (∃ v, uuid !! 19%nat = Some v ∧ v ∈ [56; 57; 97; 98; 65; 66])).
Proof.
  assert (isValidUUID uuid = true
          ↔ Forall2 (λ q c, q c = true) uuid_shape uuid) as Hshape.
  { unfold isValidUUID, uuidRegex, uuid_shape. rewrite test_lang.
    revert uuid.
    apply shape_times, shape_class, shape_times, shape_class, shape_class,
      shape_times, shape_class, shape_class, shape_times, shape_class.
    apply lang_times_class_end. }
  split; [exact Hshape|]. rewrite Hshape. intros Hall.
  assert (∀ (i : nat) q, uuid_shape !! i = Some q →
            ∃ c, uuid !! i = Some c ∧ q c = true) as Hat.
  { intros i q Hq.
    destruct (Forall2_lookup_l _ _ _ _ _ Hall Hq) as (c & ? & ?). by exists c. }
  split_and!.
  - by rewrite <- (Forall2_length _ _ _ Hall).
  - destruct (Hat 8%nat dash eq_refl) as (c & -> & Hc).
    unfold dash in Hc. by apply N.eqb_eq in Hc as <-.
  - destruct (Hat 13%nat dash eq_refl) as (c & -> & Hc).
    unfold dash in Hc. by apply N.eqb_eq in Hc as <-.
  - destruct (Hat 18%nat dash eq_refl) as (c & -> & Hc).
    unfold dash in Hc. by apply N.eqb_eq in Hc as <-.
  - destruct (Hat 23%nat dash eq_refl) as (c & -> & Hc).
    unfold dash in Hc. by apply N.eqb_eq in Hc as <-.
  - destruct (Hat 14%nat version eq_refl) as (c & -> & Hc).
    exists c. split; [done|]. unfold version, ignore_case in Hc.
    repeat first [rewrite orb_true_iff in Hc | rewrite andb_true_iff in Hc
                 | rewrite N.leb_le in Hc | rewrite N.eqb_eq in Hc]. lia.
  - destruct (Hat 19%nat variant eq_refl) as (c & -> & Hc).
    exists c. split; [done|]. unfold variant, ignore_case in Hc.
    repeat first [rewrite orb_true_iff in Hc | rewrite andb_true_iff in Hc
                 | rewrite N.leb_le in Hc | rewrite N.eqb_eq in Hc].
    assert (c = 56 ∨ c = 57 ∨ c = 97 ∨ c = 98 ∨ c = 65 ∨ c = 66) as H by lia.
    destruct H as [-> | [-> | [-> | [-> | [-> | ->]]]]]; compute_done.
Qed.

Lemma filter_none {A} (P : A → Prop) `{∀ x, Decision (P x)} (l : list A) :
  Forall (λ x, ¬ P x) l → filter P l = [].
Proof.
  induction 1 as [|x l Hx Hl IH]; [done|].
  by rewrite filter_cons_False.
Qed.

(** X18.  [isValidEmail] accepts a text exactly when it reads
    [a@b.c] with [a], [b] and [c] not empty and free of white space and
    of [@].  An accepted text therefore holds exactly one [@], no white
    space, and at least five code units; [b] and [c] may hold further
    dots. *)
Theorem isValidEmail_accepts_one_at_sign (email : text) :
  (isValidEmail email = true
   ↔ ∃ a b c, email = a ++ [64] ++ b ++ [46] ++ c
              ∧ a ≠ [] ∧ b ≠ [] ∧ c ≠ []
              ∧ Forall (λ x, local_char x = true) (a ++ b ++ c))
  ∧ (isValidEmail email = true →
     filter (λ x, x = 64) email = [64]
     ∧ Forall (λ x, is_space x = false) email
     ∧ (5 ≤ List.length email)%nat).
Proof.
  assert (isValidEmail email = true
          ↔ ∃ a b c, email = a ++ [64] ++ b ++ [46] ++ c
                     ∧ a ≠ [] ∧ b ≠ [] ∧ c ≠ []
                     ∧ Forall (λ x, local_char x = true) (a ++ b ++ c))
    as Hspec.
  { unfold isValidEmail, emailRegex. rewrite test_lang. cbn [lang]. split.
    - intros (a & s1 & -> & Ha%lang_plus_class
              & at_ & s2 & -> & (x & -> & ->%N.eqb_eq)
              & b & s3 & -> & Hb%lang_plus_class
              & dot & c & -> & (y & -> & ->%N.eqb_eq) & Hc%lang_plus_class).
      destruct Ha as [Ha Ha'], Hb as [Hb Hb'], Hc as [Hc Hc'].
      exists a, b, c. split_and!; try done.
      by rewrite !Forall_app.
    - intros (a & b & c & -> & Ha & Hb & Hc & Hall).
      apply Forall_app in Hall as [Ha' [Hb' Hc']%Forall_app].
      exists a, ([64] ++ b ++ [46] ++ c).
      split_and!; [done|by apply lang_plus_class|].
      exists [64], (b ++ [46] ++ c).
      split_and!; [done|by exists 64|].
      exists b, ([46] ++ c). split_and!; [done|by apply lang_plus_class|].
      exists [46], c. split_and!; [done|by exists 46|].
      by apply lang_plus_class. }
  split; [exact Hspec|]. rewrite Hspec.
  intros (a & b & c & -> & Ha & Hb & Hc & Hall).
  assert (∀ l, Forall (λ x, local_char x = true) l →
               filter (λ x, x = 64) l = []
               ∧ Forall (λ x, is_space x = false) l) as Hlocal.
  { intros l Hl. split.
    - apply filter_none. eapply Forall_impl; [exact Hl|].
      intros x Hx ->. unfold local_char in Hx.
      rewrite andb_true_iff in Hx. by destruct Hx as [_ ?].
    - eapply Forall_impl; [exact Hl|]. intros x Hx.
      unfold local_char in Hx. rewrite andb_true_iff in Hx.
      by apply negb_true_iff, Hx. }
  apply Forall_app in Hall as [Ha' [Hb' Hc']%Forall_app].
  destruct (Hlocal a Ha') as [Hfa Hsa], (Hlocal b Hb') as [Hfb Hsb],
    (Hlocal c Hc') as [Hfc Hsc].
  split_and!.
  - rewrite !filter_app, Hfa, Hfb, Hfc. done.
  - rewrite !Forall_app. split_and!; try done.
    + by apply Forall_singleton.
    + by apply Forall_singleton.
  - rewrite !length_app. cbn [List.length].
    destruct a, b, c; try done. cbn [List.length]. lia.
Qed.

Lemma has_gt_strip (b : bool) (s : text) :
  has_gt (strip b s) = true → has_gt s = true.
Proof.
  revert b. induction s as [|c s IH]; intros b; [done|]. cbn [strip has_gt].
  destruct b.
  - intros H%IH. rewrite H. apply orb_true_r.
  - destruct ((c =? 60) && has_gt s) eqn:Hc.
    + intros H%IH. rewrite H. apply orb_true_r.
    + cbn [has_gt]. intros [->|H%IH]%orb_true_iff; [done|].
      rewrite H. apply orb_true_r.
Qed.

Lemma tag_free_strip (b : bool) (s : text) : tag_free (strip b s) = true.
Proof.
  revert b. induction s as [|c s IH]; intros b; [done|]. cbn [strip].
  destruct b; [apply IH|].
  destruct ((c =? 60) && has_gt s) eqn:Hc; [apply IH|].
  cbn [tag_free]. rewrite IH, andb_true_r. apply negb_true_iff.
  destruct (c =? 60); [|done]. cbn [andb] in *.
  destruct (has_gt (strip false s)) eqn:Hg; [|done].
  apply has_gt_strip in Hg. congruence.
Qed.

Lemma strip_tag_free (s : text) : tag_free s = true → strip false s = s.
Proof.
  induction s as [|c s IH]; [done|]. cbn [tag_free strip].
  intros [Hc Hs]%andb_true_iff. apply negb_true_iff in Hc. rewrite Hc.
  by rewrite IH.
Qed.

Lemma has_gt_app (a b : text) : has_gt (a ++ b) = has_gt a || has_gt b.
Proof.
  induction a as [|c a IH]; [done|]. cbn [app has_gt].
  by rewrite IH, orb_assoc.
Qed.

Lemma tag_free_app (a b : text) :
  tag_free (a ++ b) = true → tag_free a = true ∧ tag_free b = true.
Proof.
  induction a as [|c a IH]; [done|]. cbn [app tag_free].
  intros [Hc [Ha Hb]%IH]%andb_true_iff. split; [|done].
  rewrite Ha, andb_true_r. apply negb_true_iff. apply negb_true_iff in Hc.
  rewrite has_gt_app in Hc. destruct (c =? 60); [|done].
  cbn [andb] in *. by apply orb_false_elim in Hc as [? _].
Qed.

Lemma tag_free_spec (s : text) :
  tag_free s = true ↔ ∀ l1 l2, s = l1 ++ 60 :: l2 → 62 ∉ l2.
Proof.
  assert (∀ l, has_gt l = true ↔ 62 ∈ l) as Hgt.
  { induction l as [|c l IH]; cbn [has_gt].
    - split; [done|]. by intros ?%elem_of_nil.
    - rewrite orb_true_iff, IH, elem_of_cons, N.eqb_eq.
      split; (intros [?|?]; [by left|by right]). }
  induction s as [|c s IH]; cbn [tag_free].
  - split; [|done]. intros _ l1 l2 H. by destruct l1.
  - rewrite andb_true_iff, IH, negb_true_iff. split.
    + intros [Hc Hs] l1 l2 Heq. destruct l1 as [|c' l1].
      * injection Heq as -> ->. rewrite N.eqb_refl in Hc. cbn [andb] in Hc.
        rewrite <- Hgt. congruence.
      * injection Heq as -> ->. by eapply Hs.
    + intros H. split.
      * destruct (N.eqb_spec c 60) as [->|]; [|done]. cbn [andb].
        apply not_true_is_false. rewrite Hgt. by apply (H []).
      * intros l1 l2 ->. by apply (H (c :: l1)).
Qed.

Lemma trim_start_split (s : text) :
  ∃ pre, s = pre ++ trim_start s ∧ Forall (λ c, is_space c = true) pre.
Proof.
  induction s as [|c s (pre & Hs & Hpre)]; [by exists []|].
  cbn [trim_start]. destruct (is_space c) eqn:Hc.
  - exists (c :: pre). split; [by rewrite Hs at 1|]. by apply Forall_cons.
  - by exists [].
Qed.

Lemma trim_start_head (s : text) (c : N) :
  head (trim_start s) = Some c → is_space c = false.
Proof.
  induction s as [|c' s IH]; [done|]. cbn [trim_start].
  destruct (is_space c') eqn:Hc; [done|]. by intros [= <-].
Qed.

Lemma trim_start_fixed (s : text) :
  (∀ c, head s = Some c → is_space c = false) → trim_start s = s.
Proof.
  destruct s as [|c s]; [done|]. intros H. cbn [trim_start].
  by rewrite (H c eq_refl).
Qed.

(** What [trim] keeps: the text between the white space at its ends. *)
Lemma trim_split (s : text) :
  ∃ pre post, s = pre ++ trim s ++ post
              ∧ Forall (λ c, is_space c = true) pre
              ∧ Forall (λ c, is_space c = true) post
              ∧ (∀ c, head (trim s) = Some c → is_space c = false)
              ∧ (∀ c, last (trim s) = Some c → is_space c = false).
Proof.
  unfold trim.
  destruct (trim_start_split s) as (pre & Hs & Hpre).
  destruct (trim_start_split (reverse (trim_start s)))
    as (post & Hr & Hpost).
  set (w := trim_start (reverse (trim_start s))) in *.
  assert (trim_start s = reverse w ++ reverse post) as Hmid.
  { rewrite <- reverse_app, <- Hr. by rewrite reverse_involutive. }
  exists pre, (reverse post). split_and!.
  - by rewrite <- Hmid.
  - done.
  - by apply Forall_reverse.
  - intros c Hc. apply (trim_start_head s).
    rewrite Hmid. destruct (reverse w); [done|]. done.
  - intros c Hc. rewrite last_reverse in Hc. by apply trim_start_head in Hc.
Qed.

Lemma trim_fixed (s : text) :
  (∀ c, head s = Some c → is_space c = false) →
  (∀ c, last s = Some c → is_space c = false) →
  trim s = s.
Proof.
  intros Hh Hl. unfold trim. rewrite (trim_start_fixed s Hh).
  rewrite trim_start_fixed; [apply reverse_involutive|].
  intros c Hc. apply Hl. by rewrite <- head_reverse.
Qed.

(** X20.  What [sanitizeString] returns holds no [<] with a [>]
    anywhere behind it, so no tag, and neither starts nor ends with
    white space; sanitizing it again changes nothing.  A text without
    any [>] is only trimmed: an opening [<] that is never closed
    stays. *)
Theorem sanitizeString_leaves_no_tag (str : option text) :
  let out := sanitizeString str in
  (∀ l1 l2, out = l1 ++ 60 :: l2 → 62 ∉ l2)
  ∧ (∀ c, head out = Some c ∨ last out = Some c → is_space c = false)
  ∧ sanitizeString (Some out) = out
  ∧ (∀ s, str = Some s → 62 ∉ s → out = trim s).
Proof.
  intros out.
  assert (∃ s, out = trim (strip_tags s)
               ∧ (str = Some s ∨ s = [])) as (s & Hout & Hs).
  { unfold out, sanitizeString. destruct str as [[|c s]|].
    - by exists []; split; [|right].
    - by exists (c :: s); split; [|left].
    - by exists []; split; [|right]. }
  destruct (trim_split (strip_tags s)) as (pre & post & Hsplit & _ & _ & Hh & Hl).
  rewrite <- Hout in *.
  assert (tag_free out = true) as Hfree.
  { pose proof (tag_free_strip false s) as H. fold (strip_tags s) in H.
    rewrite Hsplit in H.
    apply tag_free_app in H as [_ H]. by apply tag_free_app in H as [H _]. }
  split_and!.
  - by apply tag_free_spec.
  - intros c [Hc|Hc]; [by apply Hh|by apply Hl].
  - unfold sanitizeString. destruct out as [|c o] eqn:Ho; [done|].
    unfold strip_tags. rewrite (strip_tag_free _ Hfree).
    by apply trim_fixed.
  - intros s' Hs' Hgt.
    assert (has_gt s' = false) as Hno.
    { apply not_true_is_false. intros H. apply Hgt. clear -H.
      induction s' as [|c s' IH]; [done|]. cbn [has_gt] in H.
      apply orb_true_iff in H as [->%N.eqb_eq|H]; [left|right; by apply IH]. }
    assert (strip false s' = s') as Hid.
    { clear -Hno. induction s' as [|c s' IH]; [done|].
      cbn [has_gt] in Hno. apply orb_false_elim in Hno as [Hc Hno].
      cbn [strip]. rewrite Hno, andb_false_r. by rewrite IH. }
    unfold out, sanitizeString. rewrite Hs'.
    destruct s' as [|c s']; [done|]. unfold strip_tags. by rewrite Hid.
Qed.

End string_validators.

Section string_validators_examples.
Import Regex StringValidators.
Local Open Scope N_scope.

(** Addresses the pattern takes and refuses; the second one ends in two
    dots. *)
Lemma isValidEmail_accepts_one_at_sign_witness :
  isValidEmail (units "a@x.com") = true
  ∧ isValidEmail (units "a@b..") = true
  ∧ isValidEmail (units "a@@x.com") = false
  ∧ isValidEmail (units "a b@x.com") = false
  ∧ isValidEmail (units "a@.com") = false
  ∧ filter (λ x, x = 64) (units "a@x.com") = [64].
Proof.
  split_and!; [reflexivity..|].
  destruct (isValidEmail_accepts_one_at_sign (units "a@x.com"))
    as [_ Hone].
  by destruct (Hone eq_refl) as (Hat & _).
Defined.

(** A version 4 identifier in capitals is taken, the nil identifier is
    not. *)
Lemma isValidUUID_accepts_the_shape_witness :
  isValidUUID (units "123E4567-E89B-42D3-A456-426614174000") = true
  ∧ isValidUUID (units "00000000-0000-0000-0000-000000000000") = false
  ∧ List.length (units "123E4567-E89B-42D3-A456-426614174000") = 36%nat.
Proof.
  split_and!; [reflexivity..|].
  destruct (isValidUUID_accepts_the_shape
              (units "123E4567-E89B-42D3-A456-426614174000")) as [_ Hshape].
  by destruct (Hshape eq_refl) as (Hlen & _).
Defined.

(** A tag is removed and the rest trimmed; an opening that is never
    closed stays. *)
Lemma sanitizeString_leaves_no_tag_witness :
  sanitizeString (Some (units " <b>bold</b> ")) = units "bold"
  ∧ sanitizeString (Some (units "<script src=x")) = units "<script src=x"
  ∧ sanitizeString
      (Some (sanitizeString (Some (units "a <i>b</i> < c > d"))))
    = sanitizeString (Some (units "a <i>b</i> < c > d")).
Proof.
  split_and!; [reflexivity..|].
  destruct (sanitizeString_leaves_no_tag (Some (units "a <i>b</i> < c > d")))
    as (_ & _ & Hagain & _).
  exact Hagain.
Defined.

End string_validators_examples.

(** ** The key of an upload *)

Section upload.
Import Js DynamoDb UploadController.

Lemma split_parts (sep : ascii) (s : string) :
  JsString.split sep s ≠ []
  ∧ Forall (λ w, JsString.includes sep w = false) (JsString.split sep s).
Proof.
  induction s as [|c s [Hne Hall]]; cbn [JsString.split].
  { split; [done|]. by apply Forall_singleton. }
  destruct (Ascii.eqb c sep) eqn:Hc.
  { split; [done|]. by apply Forall_cons. }
  destruct (JsString.split sep s) as [|w ws]; [done|].
  apply Forall_cons in Hall as [Hw Hws]. split; [done|].
  apply Forall_cons. split; [|done]. cbn [JsString.includes].
  by rewrite Hc, Hw.
Qed.

Lemma extension_has_no_dot (fileName : string) :
  JsString.includes "." (extension fileName) = false.
Proof.
  unfold extension.
  destruct (split_parts "." fileName) as [Hne Hall].
  destruct (last (JsString.split "." fileName)) as [w|] eqn:Hlast; [|done].
  apply last_Some_elem_of in Hlast.
  by apply (proj1 (Forall_forall _ _) Hall).
Qed.

(** A text is split at its first dot in one way only. *)
Lemma first_dot_inj (a b c d : string) :
  JsString.includes "." a = false →
  JsString.includes "." b = false →
  a +:+ "." +:+ c = b +:+ "." +:+ d → a = b.
Proof.
  revert b. induction a as [|x a IH]; intros [|y b]; cbn [JsString.includes];
    rewrite ?append_cons, ?append_nil.
  - done.
  - intros _ [Hy _]%orb_false_elim [= <- _]. done.
  - intros [Hx _]%orb_false_elim _ [= -> _]. done.
  - intros [_ Ha]%orb_false_elim [_ Hb]%orb_false_elim [= -> H].
    f_equal. by apply IH.
Qed.

Section with_s3.
Context (config : Config) (getSignedUrl : Params → Error + string).

(** X22.  A signed upload URL is issued only for a declared type of
    the allow-list and a file name that is a string.  The key it is
    issued for is [folder/uuid.ext]: of the name the caller sent nothing
    enters but the part behind its last dot, which holds no dot.  The
    public URL ends in that key.  Two requests for one folder that draw
    different identifiers get different keys, whatever their file
    names. *)
Theorem upload_key_is_folder_uuid_extension (body : obj) (uuid : string)
    (signedUrl fileUrl fileName : string) :
  getSignedUploadUrl config getSignedUrl body uuid
  = Signed signedUrl fileUrl fileName →
  let folder := match body !! "folder" with
                | None => "general"
                | folder => to_str folder
                end in
  (∃ fileType name,
     body !! "fileType" = Some (Str fileType)
     ∧ fileType ∈ allowedFileTypes
     ∧ body !! "fileName" = Some (Str name)
     ∧ fileName = folder +:+ "/" +:+ uuid +:+ "." +:+ extension name
     ∧ JsString.includes "." (extension name) = false
     ∧ fileUrl = "https://" +:+ bucket config +:+ ".s3." +:+ region config
                 +:+ ".amazonaws.com/" +:+ fileName
     ∧ getSignedUrl {| Bucket := bucket config; Key := fileName;
                       ContentType := fileType;
                       Expires := signedUrlExpiration config;
                       ACL := acl config |} = inr signedUrl)
  ∧ (∀ (body' : obj) (uuid' signedUrl' fileUrl' fileName' : string),
       body' !! "folder" = body !! "folder" →
       JsString.includes "." uuid = false →
       JsString.includes "." uuid' = false →
       uuid' ≠ uuid →
       getSignedUploadUrl config getSignedUrl body' uuid'
       = Signed signedUrl' fileUrl' fileName' →
       fileName' ≠ fileName).
Proof.
  assert (∀ body uuid signedUrl fileUrl fileName,
            getSignedUploadUrl config getSignedUrl body uuid
            = Signed signedUrl fileUrl fileName →
            ∃ fileType name,
              body !! "fileType" = Some (Str fileType)
              ∧ fileType ∈ allowedFileTypes
              ∧ body !! "fileName" = Some (Str name)
              ∧ fileName
                = match body !! "folder" with
                  | None => "general"
                  | folder => to_str folder
                  end +:+ "/" +:+ uuid +:+ "." +:+ extension name
              ∧ fileUrl = "https://" +:+ bucket config +:+ ".s3."
                          +:+ region config +:+ ".amazonaws.com/" +:+ fileName
              ∧ getSignedUrl {| Bucket := bucket config; Key := fileName;
                                ContentType := fileType;
                                Expires := signedUrlExpiration config;
                                ACL := acl config |} = inr signedUrl) as Hkey.
  { clear. intros body uuid signedUrl fileUrl fileName.
    unfold getSignedUploadUrl.
    destruct (negb (truthy (body !! "fileType"))
              || negb (truthy (body !! "fileName"))); [done|].
    destruct (includes allowedFileTypes (body !! "fileType")) eqn:Hin;
      [|done]. cbn [negb].
    destruct (body !! "fileType") as [[| | |fileType]|]; try done.
    cbn [includes] in Hin. apply bool_decide_eq_true in Hin.
    destruct (body !! "fileName") as [[| | |name]|]; try done.
    cbn [to_str].
    destruct (getSignedUrl _) as [e|url] eqn:Hsign; [done|].
    intros [= <- <- <-]. by exists fileType, name. }
  intros Hrun folder.
  destruct (Hkey _ _ _ _ _ Hrun) as (fileType & name & Ht & Hin & Hn & Hf & Hu & Hs).
  split.
  - exists fileType, name. split_and!; try done. apply extension_has_no_dot.
  - intros body' uuid' signedUrl' fileUrl' fileName' Hfolder Hd Hd' Hne Hrun'.
    destruct (Hkey _ _ _ _ _ Hrun')
      as (fileType' & name' & _ & _ & _ & Hf' & _ & _).
    rewrite Hfolder in Hf'. rewrite Hf, Hf'.
    intros Heq%append_inj_l%append_inj_l. apply Hne.
    by apply (first_dot_inj uuid' uuid (extension name') (extension name)).
Qed.

End with_s3.

End upload.

Section upload_examples.
Import Js DynamoDb UploadController.

(** A picture is given a key under [general]; a script is not. *)
Lemma upload_key_is_folder_uuid_extension_witness :
  let body : obj :=
    {[ "fileType" := Str "image/png"; "fileName" := Str "my.holiday.png" ]} in
  getSignedUploadUrl Bucket.config Bucket.getSignedUrl body "u-1"
  = Signed "signed:general/u-1.png"
      "https://files.s3.eu-west-1.amazonaws.com/general/u-1.png"
      "general/u-1.png"
  ∧ getSignedUploadUrl Bucket.config Bucket.getSignedUrl
      {[ "fileType" := Str "text/html"; "fileName" := Str "x.html" ]} "u-2"
    = Json 400 "File type not allowed"
  ∧ ∃ name, body !! "fileName" = Some (Str name)
            ∧ "general/u-1.png" = "general/u-1." +:+ extension name.
Proof.
  intros body.
  assert (getSignedUploadUrl Bucket.config Bucket.getSignedUrl body "u-1"
          = Signed "signed:general/u-1.png"
              "https://files.s3.eu-west-1.amazonaws.com/general/u-1.png"
              "general/u-1.png") as Hrun by reflexivity.
  split; [exact Hrun|]. split; [reflexivity|].
  destruct (upload_key_is_folder_uuid_extension Bucket.config
              Bucket.getSignedUrl body "u-1" _ _ _ Hrun)
    as [(fileType & name & _ & _ & Hn & Hf & _) _].
  exists name. split; [exact Hn|]. exact Hf.
Defined.

End upload_examples.

(** ** Pages that follow one another *)

Section key_order.
Import Js DynamoDb.

Lemma string_leb_refl (s : string) : String.leb s s = true.
Proof.
  unfold String.leb. pose proof (String.compare_antisym s s) as H.
  by destruct (String.compare s s).
Qed.

Lemma string_leb_trans (a b c : string) :
  String.leb a b = true → String.leb b c = true → String.leb a c = true.
Proof.
  unfold String.leb. revert b c.
  induction a as [|x a IH]; intros [|y b] [|z c]; cbn [String.compare];
    try done.
  unfold Ascii.compare.
  destruct (N.compare_spec (N_of_ascii x) (N_of_ascii y)) as [Hxy|Hxy|Hxy],
    (N.compare_spec (N_of_ascii y) (N_of_ascii z)) as [Hyz|Hyz|Hyz],
    (N.compare_spec (N_of_ascii x) (N_of_ascii z)) as [Hxz|Hxz|Hxz];
    try done; try lia.
  apply IH.
Qed.

#[local] Instance key_le_refl : Reflexive key_le.
Proof.
  intros a. unfold key_le. rewrite String.eqb_refl. apply string_leb_refl.
Qed.

#[local] Instance key_le_total : Total key_le.
Proof.
  intros a b. unfold key_le. rewrite (String.eqb_sym b.1 a.1).
  destruct (String.eqb a.1 b.1); apply String.leb_total.
Qed.

#[local] Instance key_le_antisym : AntiSymm (=) key_le.
Proof.
  intros [a1 a2] [b1 b2]. unfold key_le. cbn [fst snd].
  rewrite (String.eqb_sym b1 a1).
  destruct (String.eqb_spec a1 b1) as [->|Hne].
  - intros H1 H2. f_equal. by apply String.leb_antisym.
  - intros H1 H2. destruct Hne. by apply String.leb_antisym.
Qed.

#[local] Instance key_le_trans : Transitive key_le.
Proof.
  intros [a1 a2] [b1 b2] [c1 c2]. unfold key_le. cbn [fst snd].
  destruct (String.eqb_spec a1 b1) as [E1|N1],
    (String.eqb_spec b1 c1) as [E2|N2],
    (String.eqb_spec a1 c1) as [E3|N3];
    intros H1 H2; try congruence; subst;
    first [ done
          | by eapply string_leb_trans
          | by (destruct N1; apply String.leb_antisym) ].
Qed.

#[local] Instance entry_le_total : Total entry_le.
Proof. intros a b. apply key_le_total. Qed.

#[local] Instance entry_le_trans : Transitive entry_le.
Proof. intros a b c. apply key_le_trans. Qed.






End key_order.

Section paging.
Import Js DynamoDb.
Context (eng : Engine).




End paging.

Section paging_examples.
Import Js DynamoDb Fixtures.


End paging_examples.

(** ** A delete that is refused *)

Section product_delete_refused.
Import Js DynamoDb Invariant Records Controllers.
Context (eng : Engine).

Lemma run_delete_refused (t : Table) (productId userId : string) :
  match t !! primary productId with
  | Some product => product !! "userId" ≠ Some (Str userId)
  | None => True
  end →
  run eng (ProductModel.delete productId userId) t
  = (inl (JsError match t !! primary productId with
                  | Some _ => "Unauthorized to delete this product"
                  | None => "Product not found"
                  end), t)
  ∧ filter is_write (trace eng (ProductModel.delete productId userId) t) = [].
Proof.
  intros Hrej. unfold ProductModel.delete.
  rewrite run_bind, trace_bind, run_product_findById, filter_app,
    trace_product_findById.
  destruct (t !! primary productId) as [product|]; [|done].
  by rewrite bool_decide_eq_true_2.
Qed.

(** X24.  A delete of a product that is not stored, or that another
    user owns, is refused by the adapter before anything is written: it
    raises "Product not found" or "Unauthorized to delete this product",
    and the product and its index records stay.  The handler of the
    key-value backend does not get that far.  The object it holds as
    [ProductModel] is the empty object that [require] yields for
    product.model.js, the call of its [delete] raises a [TypeError], and
    the handler ends in [next(error)] without a request to the table,
    where it is written to answer 404 or 403. *)
Theorem delete_of_another_users_product_is_refused (t : Table)
    (productId userId : string) :
  match t !! primary productId with
  | Some product => product !! "userId" ≠ Some (Str userId)
  | None => True
  end →
  let refusal :=
    match t !! primary productId with
    | Some _ => "Unauthorized to delete this product"
    | None => "Product not found"
    end in
  let p := deleteProduct productId userId in
  run eng (ProductModel.delete productId userId) t
  = (inl (JsError refusal), t)
  ∧ filter is_write (trace eng (ProductModel.delete productId userId) t) = []
  ∧ run eng p t
    = (inr (Next (JsError "ProductModel.delete is not a function")), t)
  ∧ trace eng p t = [].
Proof.
  intros Hrej refusal p.
  destruct (run_delete_refused t productId userId Hrej) as [Hrun Hw].
  split; [exact Hrun|]. split; [exact Hw|]. split; reflexivity.
Qed.

End product_delete_refused.

Section product_delete_refused_examples.
Import Js DynamoDb Invariant Records Controllers Fixtures.

(** In [shop], the adapter refuses a delete of [p1] by [u2], and the
    handler ends in a [TypeError]. *)
Lemma delete_of_another_users_product_is_refused_witness :
  match shop !! primary "p1" with
  | Some product => product !! "userId" ≠ Some (Str "u2")
  | None => True
  end
  ∧ run strict (ProductModel.delete "p1" "u2") shop
    = (inl (JsError "Unauthorized to delete this product"), shop)
  ∧ run strict (deleteProduct "p1" "u2") shop
    = (inr (Next (JsError "ProductModel.delete is not a function")), shop).
Proof.
  assert (match shop !! primary "p1" with
          | Some product => product !! "userId" ≠ Some (Str "u2")
          | None => True
          end) as H by (vm_compute; discriminate).
  split; [exact H|].
  destruct (delete_of_another_users_product_is_refused strict shop "p1" "u2" H)
    as (Hadapter & _ & Hrun & _).
  split; [|exact Hrun].
  rewrite Hadapter. reflexivity.
Defined.

End product_delete_refused_examples.
